(** * Inbound e-mail ingestion of django-helpdesk (helpdesk/email.py)

    A shallow embedding of [object_from_message] and
    [create_object_from_email_message] with the database they read and
    write, and the properties of the ingestion pipeline proved on it.

    Conventions of the embedding.
    - Text is [string] (8-bit characters).  Python's [str.lower], [str.strip]
      and the regex class [\d] are modelled on their ASCII range.
    - The ORM tables are finite maps or lists held in one record [DB];
      every ORM statement commits on its own (Django autocommit), so a
      raised exception keeps the writes made before it.
    - Python object identity ([is]) is modelled by an allocation counter:
      every model instance materialised by a query gets a fresh address.
    - Functions of Python's standard library, of third-party packages and of
      modules of the repository that are not part of helpdesk/email.py are
      fields of the record [Env]. *)

From Stdlib Require Import String Ascii List Bool Arith Lia.
From stdpp Require Import gmap strings list pretty.
Import ListNotations.
Open Scope string_scope.
Open Scope list_scope.
Open Scope nat_scope.

(** ** Text operations used by the importer *)

Module Str.

Definition is_digit (c : ascii) : bool :=
  (48 <=? nat_of_ascii c) && (nat_of_ascii c <=? 57).

Definition is_upper (c : ascii) : bool :=
  (65 <=? nat_of_ascii c) && (nat_of_ascii c <=? 90).

Definition is_newline (c : ascii) : bool := Ascii.eqb c "010"%char.

(** Characters removed by [str.strip()] with no argument. *)
Definition is_space (c : ascii) : bool :=
  let n := nat_of_ascii c in
  ((9 <=? n) && (n <=? 13)) || ((28 <=? n) && (n <=? 32)).

Definition lower_char (c : ascii) : ascii :=
  if is_upper c then ascii_of_nat (nat_of_ascii c + 32) else c.

(** [s.lower()] *)
Fixpoint lower (s : string) : string :=
  match s with
  | EmptyString => EmptyString
  | String c r => String (lower_char c) (lower r)
  end.

(** [s[len(p):]] when [s.startswith(p)]. *)
Fixpoint strip_prefix (p s : string) : option string :=
  match p, s with
  | EmptyString, _ => Some s
  | String a p', String b s' => if Ascii.eqb a b then strip_prefix p' s' else None
  | String _ _, EmptyString => None
  end.

(** [p in s] *)
Fixpoint contains (p s : string) : bool :=
  match strip_prefix p s with
  | Some _ => true
  | None => match s with
            | EmptyString => false
            | String _ r => contains p r
            end
  end.

(** [s.replace(p, "")] for a non-empty [p]: occurrences are removed from
    left to right, without overlap.  The fuel is the length of [s]. *)
Fixpoint remove_all_fuel (fuel : nat) (p s : string) : string :=
  match fuel with
  | O => s
  | S fuel' =>
      match strip_prefix p s with
      | Some r => remove_all_fuel fuel' p r
      | None => match s with
                | EmptyString => EmptyString
                | String c r => String c (remove_all_fuel fuel' p r)
                end
      end
  end.

Definition remove_all (p s : string) : string :=
  remove_all_fuel (String.length s) p s.

Fixpoint lstrip (s : string) : string :=
  match s with
  | EmptyString => EmptyString
  | String c r => if is_space c then lstrip r else s
  end.

Fixpoint rstrip (s : string) : string :=
  match s with
  | EmptyString => EmptyString
  | String c r =>
      match rstrip r with
      | EmptyString => if is_space c then EmptyString else String c EmptyString
      | r' => String c r'
      end
  end.

(** [s.strip()] *)
Definition strip (s : string) : string := rstrip (lstrip s).

(** [s[0:n]] *)
Fixpoint take (n : nat) (s : string) : string :=
  match n, s with
  | O, _ => EmptyString
  | S n', String c r => String c (take n' r)
  | S _, EmptyString => EmptyString
  end.

(** [s.split(",")] *)
Fixpoint split_comma (s : string) : list string :=
  match s with
  | EmptyString => [EmptyString]
  | String c r =>
      if Ascii.eqb c ","%char then EmptyString :: split_comma r
      else match split_comma r with
           | w :: ws => String c w :: ws
           | [] => [String c EmptyString]
           end
  end.

(** The longest prefix of decimal digits, and what follows it. *)
Fixpoint span_digits (s : string) : string * string :=
  match s with
  | EmptyString => (EmptyString, EmptyString)
  | String c r =>
      if is_digit c
      then let (d, r') := span_digits r in (String c d, r')
      else (EmptyString, s)
  end.

Fixpoint all_digits (s : string) : bool :=
  match s with
  | EmptyString => true
  | String c r => is_digit c && all_digits r
  end.

Fixpoint no_newline (s : string) : bool :=
  match s with
  | EmptyString => true
  | String c r => negb (is_newline c) && no_newline r
  end.

(** [int(s)] for a string of decimal digits. *)
Fixpoint int_of_digits_acc (acc : nat) (s : string) : nat :=
  match s with
  | EmptyString => acc
  | String c r => int_of_digits_acc (10 * acc + (nat_of_ascii c - 48)) r
  end.

Definition int_of_digits (s : string) : nat := int_of_digits_acc 0 s.

(** Python truthiness of a string. *)
Definition nonempty (s : string) : bool :=
  match s with EmptyString => false | _ => true end.

End Str.

(** ** Data model: the rows of helpdesk.models read and written by the importer *)

(** Modelled from the spec: the status constants of [Ticket]
    (helpdesk/models.py is not among the sources); email.py names exactly
    these six. *)
Inductive Status : Type :=
  | OPEN_STATUS
  | REOPENED_STATUS
  | RESOLVED_STATUS
  | CLOSED_STATUS
  | DUPLICATE_STATUS
  | REPLIED_STATUS.

#[global] Instance Status_eq_dec : EqDecision Status.
Proof. solve_decision. Defined.

Record User : Type := mkUser {
  u_id : nat;
  u_email : string;
  u_full_name : string;
  u_username : string;
  (** read by the test instance of [is_helpdesk_staff] only *)
  u_is_staff : bool
}.

(** The e-mail address of a queue is taken to be set: line 663 calls
    [queue.email_address.lower()]. *)
Record Queue : Type := mkQueue {
  q_id : nat;
  slug : string;
  match_on : list string;
  match_on_addresses : list string;
  email_address : string;
  default_owner : option nat;
  enable_notifications_on_email_events : bool;
  organization : nat
}.

Record Ticket : Type := mkTicket {
  title : string;
  queue : Queue;
  contact_name : option string;
  contact_email : option string;
  submitter_email : string;
  created : nat;
  description : string;
  priority : nat;
  ticket_form_org : nat;
  assigned_to : option nat;
  status : Status;
  merged_to : option nat
}.

Record FollowUp : Type := mkFollowUp {
  f_ticket : option nat;
  f_title : string;
  f_date : nat;
  f_public : bool;
  f_comment : option string;
  f_message_id : string;
  f_new_status : option Status
}.

Record TicketCC : Type := mkTicketCC {
  cc_ticket : nat;
  cc_user : option nat;
  cc_email : string
}.

Record IgnoreEmail : Type := mkIgnoreEmail {
  ig_email_address : string;
  keep_in_mailbox : bool;
  importers : list nat
}.

(** [SimpleUploadedFile(name, content, content_type)] *)
Record UploadedFile : Type := mkFile {
  file_name : string;
  file_content : string;
  file_content_type : option string
}.

(** One leaf or container of [message.walk()]. *)
Record Part : Type := mkPart {
  content_maintype : string;
  content_subtype : string;
  name_param : option string;
  payload : string
}.

Definition content_type (p : Part) : string :=
  content_maintype p +:+ "/" +:+ content_subtype p.

(** A part that is no multipart container. *)
Definition is_leaf (p : Part) : bool := negb (String.eqb (content_maintype p) "multipart").

(** The parsed RFC 822 message: its header fields in order, the parts
    [message.walk()] yields, and [str(message)]. *)
Record Message : Type := mkMessage {
  headers : list (string * string);
  walk : list Part;
  as_string : string
}.

(** The [queues] dictionary built by [process_email]. *)
Record Queues : Type := mkQueues {
  importer_queues : list Queue;
  default_queue : Queue;
  matching_queues : list Queue;
  address_matching_queues : list Queue
}.

(** Calls to the collaborators that live outside email.py. *)
Inductive Event : Type :=
  | ProcessAttachments (followup : nat) (files : list UploadedFile)
  | SendTicketMail (ticket : nat) (roles : list (string * string)) (source : string).

Record DB : Type := mkDB {
  tickets : gmap nat Ticket;
  followups : list FollowUp;
  ticketccs : list TicketCC;
  users : list User;
  ignore_emails : list IgnoreEmail;
  heap_next : nat;
  events : list Event
}.

(** A model instance held by the interpreter: the row and the address of
    the Python object that carries it. *)
Record Obj (A : Type) : Type := mkObj { addr : nat; row : A }.
Arguments mkObj {A} _ _.
Arguments addr {A} _.
Arguments row {A} _.

(** [a is b] on values that are [None] or a model instance. *)
Definition py_is {A : Type} (a b : option (Obj A)) : bool :=
  match a, b with
  | None, None => true
  | Some x, Some y => addr x =? addr y
  | _, _ => false
  end.

(** What lies outside helpdesk/email.py: settings, Python's library, the
    packages email_reply_parser and bs4, and the repository's modules
    helpdesk.models, helpdesk.lib, helpdesk.decorators and
    helpdesk.views.staff. *)
Record Env : Type := mkEnv {
  (** [settings.QUEUE_EMAIL_BOX_UPDATE_ONLY] *)
  QUEUE_EMAIL_BOX_UPDATE_ONLY : bool;
  (** [django_settings.HELPDESK_FULL_FIRST_MESSAGE_FROM_EMAIL] *)
  HELPDESK_FULL_FIRST_MESSAGE_FROM_EMAIL : bool;
  (** [django_settings.HELPDESK_ALWAYS_SAVE_INCOMING_EMAIL_MESSAGE] *)
  HELPDESK_ALWAYS_SAVE_INCOMING_EMAIL_MESSAGE : bool;
  (** [timezone.now()] and [timezone.localtime().strftime(...)] *)
  now : nat;
  localtime_stamp : string;
  (** [email.utils.parseaddr], [email.utils.getaddresses] *)
  parseaddr : option string -> string * string;
  getaddresses : list string -> list (string * string);
  (** [decode_mail_headers(decode_unknown(charset, subject))] *)
  decode_subject : Message -> string -> string;
  (** [email.utils.collapse_rfc2231_value] *)
  collapse_rfc2231_value : string -> string;
  (** [mimetypes.guess_extension], [mimetypes.guess_type(name)[0]] *)
  guess_extension : string -> option string;
  guess_type : string -> option string;
  (** [re.compile(r'\b%s\b' % m, re.I).search(subject)] *)
  keyword_search : string -> string -> bool;
  (** lines 693-697: the payload of a text/plain part decoded to text *)
  plain_text : Part -> string;
  (** [EmailReplyParser.read(body).fragments] (their contents) and
      [EmailReplyParser.parse_reply(body)] *)
  reply_fragments : string -> list string;
  parse_reply : string -> string;
  (** lines 712-717: the unicode_escape round trip; the [bytes] value line
      717 can leave in [body] is read as text *)
  unicode_unescape : string -> string;
  (** lines 720-723 [encoding.smart_text] and lines 727-729 the text
      BeautifulSoup extracts *)
  smart_text : Part -> string;
  soup_text : string -> string;
  (** lines 775-779: [BeautifulSoup(str(message)).find('body').text] *)
  soup_body : string -> option string;
  (** [IgnoreEmail.test] *)
  ignore_test : IgnoreEmail -> string -> bool;
  (** [helpdesk.decorators.is_helpdesk_staff] *)
  is_helpdesk_staff : option User -> nat -> bool;
  (** the custom field names of the e-mail form of an organization *)
  form_fields : nat -> list string;
  (** whether [FollowUp.ticket] admits NULL (helpdesk/models.py) *)
  followup_ticket_nullable : bool;
  (** the e-mail validation inside [subscribe_to_ticket_updates] *)
  valid_cc_email : string -> bool
}.

(** ** Python values and header access *)

(** Truthiness of a value that is [None] or a string. *)
Definition truthy (v : option string) : bool :=
  match v with
  | Some s => Str.nonempty s
  | None => false
  end.

(** [a or b] on such values. *)
Definition py_or (a b : option string) : option string :=
  if truthy a then a else b.

Definition header_is (name : string) (h : string * string) : bool :=
  String.eqb (Str.lower (fst h)) (Str.lower name).

(** [message.get(name)]: the first field of that name, compared without
    regard to case. *)
Definition get (m : Message) (name : string) : option string :=
  option_map snd (List.find (header_is name) (headers m)).

(** [message.get_all(name, [])] *)
Definition get_all (m : Message) (name : string) : list string :=
  List.map snd (List.filter (header_is name) (headers m)).

Definition STRIPPED_SUBJECT_STRINGS : list string :=
  ["Re: "; "Fw: "; "RE: "; "FW: "; "Automatic reply: "].

(** Lines 609-613: the subject the classifier sees. *)
Definition clean_subject (E : Env) (m : Message) : string :=
  let subject := default "Comment from e-mail" (get m "subject") in
  let subject := decode_subject E m subject in
  let subject :=
    fold_left (fun s affix => Str.remove_all affix s) STRIPPED_SUBJECT_STRINGS subject in
  Str.strip subject.

(** ** Routing classifier (lines 633-658) *)

(** The tail [\[slug-(?P<id>\d+)\]] of the tracking pattern, tried at the
    head of [s]: the id it captures.  [\d+] is greedy and what follows a
    maximal run of digits is not a digit, so no shorter run can succeed. *)
Definition tag_at (slug s : string) : option string :=
  match Str.strip_prefix ("[" +:+ slug +:+ "-") s with
  | Some r =>
      match Str.span_digits r with
      | (EmptyString, _) => None
      | (d, String "]" _) => Some d
      | (_, _) => None
      end
  | None => None
  end.

(** [re.match(r".*\[" + slug + r"-(?P<id>\d+)\]", s)], id group.  [.*] is
    greedy and does not cross a line feed: the match taken is the last tag
    that starts on the first line of [s].  The slug of a queue is a Django
    slug (letters, digits, [_] and [-]), which the pattern reads literally. *)
Fixpoint tracking_id (slug s : string) : option string :=
  match s with
  | EmptyString => None
  | String c r =>
      if Str.is_newline c then tag_at slug s
      else match tracking_id slug r with
           | Some d => Some d
           | None => tag_at slug s
           end
  end.

(** The characters of a Django slug. *)
Definition slug_char (c : ascii) : bool :=
  let n := nat_of_ascii c in
  ((48 <=? n) && (n <=? 57)) || ((65 <=? n) && (n <=? 90)) || ((97 <=? n) && (n <=? 122))
  || (n =? 95) || (n =? 45).

Fixpoint slug_ok (s : string) : bool :=
  match s with
  | EmptyString => true
  | String c r => slug_char c && slug_ok r
  end.

(** The text of a tracking tag, [\[slug-d\]]. *)
Definition tag_text (slug d : string) : string := "[" +:+ slug +:+ "-" +:+ d +:+ "]".

(** Text without opening bracket and line feed. *)
Fixpoint plain_run (s : string) : bool :=
  match s with
  | EmptyString => true
  | String c r => negb (Ascii.eqb c "["%char) && negb (Str.is_newline c) && plain_run r
  end.

(** Lines 635-640. *)
Definition match_tracking (qs : list Queue) (subject : string)
  : option string * option Queue :=
  fold_left
    (fun (acc : option string * option Queue) q =>
       match tracking_id (slug q) subject with
       | Some d => if negb (truthy (fst acc)) then (Some d, Some q) else acc
       | None => acc
       end)
    qs (None, None).

(** Lines 643-649. *)
Definition match_subject (E : Env) (qs : list Queue) (subject : string)
  (queue : option Queue) : option Queue :=
  fold_left
    (fun (queue : option Queue) q =>
       match queue with
       | None =>
           fold_left
             (fun (queue' : option Queue) m =>
                if keyword_search E m subject then Some q else queue')
             (match_on q) queue
       | Some _ => queue
       end)
    qs queue.

(** Lines 651-655: no guard on [queue] inside this loop. *)
Definition match_address (qs : list Queue) (sender_address : string)
  (queue : option Queue) : option Queue :=
  let sender_lower := Str.lower sender_address in
  fold_left
    (fun (queue : option Queue) q =>
       if fold_left (fun prev e => prev || Str.contains (Str.lower e) sender_lower)
            (match_on_addresses q) false
       then Some q else queue)
    qs queue.

(** Lines 633-658: the tracking id (the digits as found) and the queue. *)
Definition classify (E : Env) (queues : Queues) (subject sender_address : string)
  : option string * Queue :=
  let '(ticket, queue) := match_tracking (importer_queues queues) subject in
  let queue :=
    if negb (truthy ticket)
    then match_subject E (matching_queues queues) subject queue
    else queue in
  let queue :=
    match queue with
    | None => match_address (address_matching_queues queues) sender_address queue
    | Some _ => queue
    end in
  let queue :=
    match queue with
    | None => default_queue queues
    | Some q => q
    end in
  (ticket, queue).

(** ** Ignore list (lines 624-631) *)

(** [IgnoreEmail.objects.filter(Q(importers=importer) | Q(importers__isnull=True))] *)
Definition ignore_rules (db : DB) (importer : nat) : list IgnoreEmail :=
  List.filter
    (fun r => existsb (Nat.eqb importer) (importers r)
              || match importers r with [] => true | _ => false end)
    (ignore_emails db).

(** The value [object_from_message] returns from inside the loops, if it
    does: [False] keeps the message in the mailbox, [True] lets it go. *)
Definition ignore_guard (E : Env) (rules : list IgnoreEmail)
  (addresses : list (string * string)) : option bool :=
  option_map (fun r => negb (keep_in_mailbox r))
    (List.find (fun r => existsb (fun a => ignore_test E r (snd a)) addresses) rules).

(** ** Priority (lines 799-802) *)

Definition high_priority_types : list string := ["high"; "important"; "1"; "urgent"].

(** [2 if high_priority_types & {smtp_priority, smtp_importance} else 3] *)
Definition message_priority (m : Message) : nat :=
  let smtp_priority := default "" (get m "priority") in
  let smtp_importance := default "" (get m "importance") in
  if existsb (fun k => String.eqb k smtp_priority || String.eqb k smtp_importance)
       high_priority_types
  then 2 else 3.

(** The reading of the specification's "header value contains a keyword". *)
Definition header_contains_keyword (m : Message) : bool :=
  let smtp_priority := default "" (get m "priority") in
  let smtp_importance := default "" (get m "importance") in
  existsb (fun k => Str.contains k smtp_priority || Str.contains k smtp_importance)
    high_priority_types.

(** ** Message decoder: the walk over the MIME parts (lines 678-797) *)

Record Extracted : Type := mkExtracted {
  body : option string;
  full_body : option string;
  counter : nat;
  files : list UploadedFile
}.

Definition dquote : string := String "034"%char EmptyString.

(** Lines 731-741. *)
Definition html_document (email_body : string) : string :=
  let email_body :=
    if negb (Str.contains "<body" email_body)
    then "<body>" +:+ email_body +:+ "</body>"
    else email_body in
  "<html><head><meta charset=" +:+ dquote +:+ "utf-8" +:+ dquote +:+ " /></head>"
    +:+ email_body +:+ "</html>".

(** ['\n\n'.join(body_parts)] *)
Fixpoint join_paragraphs (l : list string) : string :=
  match l with
  | [] => ""
  | [x] => x
  | x :: r => x +:+ String "010"%char (String "010"%char (join_paragraphs r))
  end.

(** Lines 687-689: the [name] parameter after [collapse_rfc2231_value]. *)
Definition part_name (E : Env) (part : Part) : option string :=
  match name_param part with
  | Some n => if Str.nonempty n then Some (collapse_rfc2231_value E n) else Some n
  | None => None
  end.

(** Lines 747-751: the file name of an attachment at index [counter];
    ["%s" % None] prints [None]. *)
Definition attachment_name (E : Env) (part : Part) (counter : nat)
  (name : option string) : string :=
  if negb (truthy name)
  then "part-" +:+ pretty counter +:+ default "None" (guess_extension E (content_type part))
  else "part-" +:+ pretty counter +:+ "_" +:+ default "" name.

(** One iteration of [for part in message.walk()]; [ticket] is the tracking
    id found by the classifier. *)
Definition part_step (E : Env) (ticket : option string) (st : Extracted) (part : Part)
  : Extracted :=
  if String.eqb (content_maintype part) "multipart" then st
  else
    let name := part_name E part in
    let st' :=
      match name with
      | None =>
          if String.eqb (content_maintype part) "text" then
            if String.eqb (content_subtype part) "plain" then
              let text := plain_text E part in
              let full :=
                match ticket with
                | None =>
                    if HELPDESK_FULL_FIRST_MESSAGE_FROM_EMAIL E
                    then join_paragraphs (reply_fragments E text)
                    else parse_reply E text
                | Some _ => parse_reply E text
                end in
              mkExtracted (Some (unicode_unescape E (parse_reply E text))) (Some full)
                (counter st) (files st)
            else
              let email_body := smart_text E part in
              let full :=
                if negb (truthy (body st)) && negb (truthy (full_body st))
                then Some (soup_text E email_body)
                else full_body st in
              mkExtracted (body st) full (counter st)
                (files st ++
                 [mkFile "email_html_body.html" (html_document email_body) (Some "text/html")])
          else
            let fname := attachment_name E part (counter st) name in
            mkExtracted (body st) (full_body st) (counter st)
              (files st ++ [mkFile fname (payload part) (guess_type E fname)])
      | Some _ =>
          let fname := attachment_name E part (counter st) name in
          mkExtracted (body st) (full_body st) (counter st)
            (files st ++ [mkFile fname (payload part) (guess_type E fname)])
      end in
    mkExtracted (body st') (full_body st') (S (counter st')) (files st').

(** Lines 678-683 with the loop. *)
Definition walk_parts (E : Env) (ticket : option string) (parts : list Part) : Extracted :=
  fold_left (part_step E ticket) parts (mkExtracted None None 0 []).

(** Lines 774-784: the fallback when no plain body was found.  The body
    that results is a string. *)
Definition fallback_body (E : Env) (m : Message) (st : Extracted)
  : string * option string :=
  if negb (truthy (body st)) then
    match soup_body E (as_string m) with
    | Some t => (t, Some t)
    | None => ("", full_body st)
    end
  else (default "" (body st), full_body st).

(** Lines 786-797. *)
Definition archive_original (E : Env) (m : Message) (fs : list UploadedFile)
  : list UploadedFile :=
  if HELPDESK_ALWAYS_SAVE_INCOMING_EMAIL_MESSAGE E
  then fs ++ [mkFile ("original_message" +:+ localtime_stamp E +:+ ".eml")
                (as_string m) (Some "text/plain")]
  else fs.

(** The dictionary [payload] of lines 804-814. *)
Record Payload : Type := mkPayload {
  p_body : string;
  p_full_body : option string;
  p_subject : string;
  p_queue : Queue;
  p_sender : string * string;
  p_priority : nat;
  p_files : list UploadedFile;
  p_cc_list : list (string * string);
  p_to_list : list (string * string)
}.

(** ** The database: a state monad with exceptions *)

Inductive Exn : Type :=
  | AttributeError          (** an attribute read on [None] *)
  | IntegrityError          (** NOT NULL violated on insert *)
  | DoesNotExist
  | MultipleObjectsReturned.

(** A statement runs on a database and leaves a database, also when it
    raises: there is no enclosing transaction. *)
Definition M (A : Type) : Type := DB -> (Exn + A) * DB.

Definition ret {A : Type} (a : A) : M A := fun db => (inr a, db).

Definition raise {A : Type} (e : Exn) : M A := fun db => (inl e, db).

Definition bind {A B : Type} (c : M A) (k : A -> M B) : M B :=
  fun db =>
    match c db with
    | (inl e, db') => (inl e, db')
    | (inr a, db') => k a db'
    end.

Notation "x <- c ;; k" := (bind c (fun x => k))
  (at level 100, c at next level, right associativity).

Definition read_db : M DB := fun db => (inr db, db).

Definition set_tickets (t : gmap nat Ticket) (db : DB) : DB :=
  mkDB t (followups db) (ticketccs db) (users db) (ignore_emails db)
    (heap_next db) (events db).

Definition set_followups (l : list FollowUp) (db : DB) : DB :=
  mkDB (tickets db) l (ticketccs db) (users db) (ignore_emails db)
    (heap_next db) (events db).

Definition set_ticketccs (l : list TicketCC) (db : DB) : DB :=
  mkDB (tickets db) (followups db) l (users db) (ignore_emails db)
    (heap_next db) (events db).

Definition set_heap_next (n : nat) (db : DB) : DB :=
  mkDB (tickets db) (followups db) (ticketccs db) (users db)
    (ignore_emails db) n (events db).

Definition set_events (l : list Event) (db : DB) : DB :=
  mkDB (tickets db) (followups db) (ticketccs db) (users db)
    (ignore_emails db) (heap_next db) l.

(** A query result becomes a new Python object. *)
Definition instantiate {A : Type} (a : A) : M (Obj A) :=
  fun db => (inr (mkObj (heap_next db) a), set_heap_next (S (heap_next db)) db).

Definition emit (e : Event) : M unit :=
  fun db => (inr tt, set_events (events db ++ [e]) db).

(** *** ORM statements *)

(** [User.objects.filter(email=email).first()] *)
Definition User_first_by_email (email : string) : M (option (Obj User)) :=
  db <- read_db ;;
  match List.find (fun u => String.eqb (u_email u) email) (users db) with
  | Some u => o <- instantiate u ;; ret (Some o)
  | None => ret None
  end.

(** [User.objects.get(email=email)] inside [try ... except User.DoesNotExist]. *)
Definition User_get_by_email (email : string) : M (option User) :=
  db <- read_db ;;
  match List.filter (fun u => String.eqb (u_email u) email) (users db) with
  | [] => ret None
  | [u] => ret (Some u)
  | _ => raise MultipleObjectsReturned
  end.

(** Following a foreign key to [User]: the related row as a new object. *)
Definition related_user (fk : option nat) : M (option (Obj User)) :=
  match fk with
  | None => ret None
  | Some uid =>
      db <- read_db ;;
      match List.find (fun u => u_id u =? uid) (users db) with
      | Some u => o <- instantiate u ;; ret (Some o)
      | None => raise DoesNotExist
      end
  end.

(** Following a foreign key to [Ticket]. *)
Definition related_ticket (tid : nat) : M (nat * Ticket) :=
  db <- read_db ;;
  match tickets db !! tid with
  | Some t => ret (tid, t)
  | None => raise DoesNotExist
  end.

(** [Ticket.objects.get(id=...)] inside [try ... except Ticket.DoesNotExist]. *)
Definition Ticket_get (tid : nat) : M (option (nat * Ticket)) :=
  db <- read_db ;;
  ret (option_map (fun t => (tid, t)) (tickets db !! tid)).

(** [Ticket.objects.filter(pk=...).exists()] *)
Definition Ticket_exists (db : DB) (tid : nat) : bool :=
  match tickets db !! tid with Some _ => true | None => false end.

(** [Ticket.objects.create(...)]: the row gets a primary key that no row
    of the table has. *)
Definition Ticket_create (t : Ticket) : M (nat * Ticket) :=
  fun db =>
    let tid := fresh (dom (tickets db)) in
    (inr (tid, t), set_tickets (<[tid := t]> (tickets db)) db).

(** [ticket.save()] *)
Definition Ticket_save (t : nat * Ticket) : M unit :=
  fun db =>
    (inr tt, set_tickets (<[fst t := snd t]> (tickets db)) db).

(** [FollowUp.objects.filter(message_id=mid).order_by('-date').first()]: a
    row with the latest date; among rows of equal date the database
    chooses, here the one of lowest primary key.  Rows are numbered by
    their position in the table. *)
Definition FollowUp_latest (db : DB) (mid : string) : option (nat * FollowUp) :=
  fold_left
    (fun (best : option (nat * FollowUp)) (cand : nat * FollowUp) =>
       if String.eqb (f_message_id (snd cand)) mid then
         match best with
         | None => Some cand
         | Some b => if f_date (snd b) <? f_date (snd cand) then Some cand else best
         end
       else best)
    (imap (fun i f => (i, f)) (followups db)) None.

(** [FollowUp.objects.create(...)] *)
Definition FollowUp_create (E : Env) (f : FollowUp) : M (nat * FollowUp) :=
  fun db =>
    match f_ticket f with
    | None =>
        if followup_ticket_nullable E
        then (inr (length (followups db), f), set_followups (followups db ++ [f]) db)
        else (inl IntegrityError, db)
    | Some _ => (inr (length (followups db), f), set_followups (followups db ++ [f]) db)
    end.

(** [f.save()] *)
Definition FollowUp_save (f : nat * FollowUp) : M unit :=
  fun db => (inr tt, set_followups (<[fst f := snd f]> (followups db)) db).

(** [TicketCC.objects.filter(ticket_id=tid, email__iexact=address)], and
    the table without those rows. *)
Definition cc_matches (tid : nat) (address : string) (cc : TicketCC) : bool :=
  (cc_ticket cc =? tid) && String.eqb (Str.lower (cc_email cc)) (Str.lower address).

Definition TicketCC_delete (tid : nat) (address : string) (db : DB) : DB :=
  set_ticketccs (List.filter (fun cc => negb (cc_matches tid address cc)) (ticketccs db)) db.

(** ** Ticket ingestion engine *)

(** [is_autoreply] (lines 393-405) *)
Definition is_autoreply (m : Message) : bool :=
  (match get m "Auto-Submitted" with
   | Some v => Str.nonempty v && negb (String.eqb (Str.lower v) "no")
   | None => false
   end)
  || (match get m "X-Auto-Response-Suppress" with
      | Some v => existsb (String.eqb v) ["DR"; "AutoReply"; "All"]
      | None => false
      end)
  || truthy (get m "List-Id")
  || truthy (get m "List-Unsubscribe").

(** Modelled from the spec: [subscribe_to_ticket_updates] of
    helpdesk/views/staff.py, which is not among the sources.  An address
    that fails validation raises [ValidationError] (the result [None]); an
    address already subscribed to the ticket is not subscribed again. *)
Definition subscribe_to_ticket_updates (E : Env) (ticket : nat) (user : option User)
  (email : string) : M (option TicketCC) :=
  if negb (valid_cc_email E email) then ret None
  else
    db <- read_db ;;
    match List.find (fun cc => (cc_ticket cc =? ticket) && String.eqb (cc_email cc) email)
            (ticketccs db) with
    | Some cc => ret (Some cc)
    | None =>
        let cc := mkTicketCC ticket (option_map u_id user) email in
        fun db => (inr (Some cc), set_ticketccs (ticketccs db ++ [cc]) db)
    end.

(** The loop of [create_ticket_cc] (lines 417-432). *)
Fixpoint create_ticket_cc_loop (E : Env) (ticket : nat * Ticket)
  (cc_list : list (string * string)) (new_ticket_ccs : list TicketCC)
  : M (list TicketCC) :=
  match cc_list with
  | [] => ret new_ticket_ccs
  | (_, cced_email) :: rest =>
      let cced_email := Str.strip cced_email in
      if String.eqb cced_email (email_address (queue (snd ticket)))
      then create_ticket_cc_loop E ticket rest new_ticket_ccs
      else
        user <- User_get_by_email cced_email ;;
        ticket_cc <- subscribe_to_ticket_updates E (fst ticket) user cced_email ;;
        match ticket_cc with
        | Some cc => create_ticket_cc_loop E ticket rest (new_ticket_ccs ++ [cc])
        | None => create_ticket_cc_loop E ticket rest new_ticket_ccs
        end
  end.

(** [create_ticket_cc] (lines 408-434) *)
Definition create_ticket_cc (E : Env) (ticket : nat * Ticket)
  (cc_list : list (string * string)) : M (list TicketCC) :=
  create_ticket_cc_loop E ticket cc_list [].

Definition is_closed (s : Status) : bool :=
  match s with
  | CLOSED_STATUS | RESOLVED_STATUS | DUPLICATE_STATUS => true
  | _ => false
  end.

(** The test of line 512 on its three operands. *)
Definition public_update (submitter_is_staff updater_is_not_assigned updater_is_staff : bool)
  : bool :=
  (submitter_is_staff && updater_is_not_assigned) || negb updater_is_staff.

(** Lines 512-530: the status assigned to the ticket (and recorded as
    [new_status] of the follow-up), if one is assigned. *)
Definition status_transition (public : bool) (s : Status) : option Status :=
  if public then
    if is_closed s then Some REOPENED_STATUS
    else match s with
         | REPLIED_STATUS => Some OPEN_STATUS
         | _ => None
         end
  else
    if negb (is_closed s) then Some REPLIED_STATUS else None.

(** The status of the ticket after lines 512-530. *)
Definition update_status (public : bool) (s : Status) : Status :=
  default s (status_transition public s).

Definition set_status (s : Status) (t : Ticket) : Ticket :=
  mkTicket (title t) (queue t) (contact_name t) (contact_email t) (submitter_email t)
    (created t) (description t) (priority t) (ticket_form_org t) (assigned_to t)
    s (merged_to t).

Definition set_followup_status (title' : string) (s : option Status) (f : FollowUp)
  : FollowUp :=
  mkFollowUp (f_ticket f) title' (f_date f) (f_public f) (f_comment f)
    (f_message_id f) s.

(** Lines 450-459: the ticket of the follow-up the message replies to. *)
Definition ticket_in_reply_to (in_reply_to : string)
  : M (option (nat * Ticket) * option (nat * FollowUp)) :=
  if Str.nonempty in_reply_to then
    db <- read_db ;;
    match FollowUp_latest db in_reply_to with
    | Some previous_followup =>
        match f_ticket (snd previous_followup) with
        | Some tid =>
            ticket <- related_ticket tid ;;
            ret (Some ticket, Some previous_followup)
        | None => raise AttributeError
        end
    | None => ret (None, None)
    end
  else ret (None, None).

(** Lines 461-474: the ticket named by the tracking id, or the ticket it
    was merged to. *)
Definition ticket_from_id (ticket : option (nat * Ticket))
  (previous_followup : option (nat * FollowUp)) (ticket_id : option string)
  : M (option (nat * Ticket)) :=
  match previous_followup, ticket_id with
  | None, Some ticket_id =>
      found <- Ticket_get (Str.int_of_digits ticket_id) ;;
      match found with
      | None => ret None
      | Some ticket =>
          match merged_to (snd ticket) with
          | Some target => merged <- related_ticket target ;; ret (Some merged)
          | None => ret (Some ticket)
          end
      end
  | _, _ => ret ticket
  end.

(** Lines 477-496. *)
Definition new_ticket (E : Env) (payload : Payload) (ticket : option (nat * Ticket))
  : M (option (nat * Ticket) * bool) :=
  match ticket with
  | None =>
      if negb (QUEUE_EMAIL_BOX_UPDATE_ONLY E) then
        let queue := p_queue payload in
        let org := organization queue in
        let fields := form_fields E org in
        let has field := existsb (String.eqb field) fields in
        created <- Ticket_create
          (mkTicket (Str.take 200 (p_subject payload)) queue
             (if has "contact_name" then Some (Str.take 200 (fst (p_sender payload))) else None)
             (if has "contact_email" then Some (Str.take 200 (snd (p_sender payload))) else None)
             (snd (p_sender payload)) (now E) (p_body payload) (p_priority payload)
             org (default_owner queue) OPEN_STATUS None) ;;
        _ <- Ticket_save created ;;
        ret (Some created, true)
      else ret (None, false)
  | Some _ => ret (ticket, false)
  end.

(** Lines 507-532: the status of ticket and follow-up on an update.  The
    operand [updater is not ticket.assigned_to] is evaluated only when the
    submitter is staff ([and] is short-circuit); [ticket.assigned_to]
    fetches the related row. *)
Definition update_ticket_status (E : Env) (sender_email : string)
  (ticket : option (nat * Ticket)) (f : nat * FollowUp)
  : M (option (nat * Ticket) * (nat * FollowUp)) :=
  updater <- User_first_by_email sender_email ;;
  match ticket with
  | None => raise AttributeError
  | Some (tid, t) =>
      submitter <- User_first_by_email (submitter_email t) ;;
      let updater_is_staff :=
        is_helpdesk_staff E (option_map row updater) (ticket_form_org t) in
      let submitter_is_staff :=
        is_helpdesk_staff E (option_map row submitter) (ticket_form_org t) in
      updater_is_not_assigned <-
        (if submitter_is_staff
         then assigned <- related_user (assigned_to t) ;;
              ret (negb (py_is updater assigned))
         else ret false) ;;
      let public :=
        public_update submitter_is_staff updater_is_not_assigned updater_is_staff in
      changed <-
        match status_transition public (status t) with
        | Some s =>
            f_title' <-
              (if public && is_closed (status t) then
                 if updater_is_staff then
                   match updater with
                   | Some u =>
                       let user :=
                         if Str.nonempty (u_full_name (row u))
                         then u_full_name (row u) else u_username (row u) in
                       ret ("Ticket Re-Opened by E-Mail Received from " +:+ user)
                   | None => raise AttributeError
                   end
                 else ret ("Ticket Re-Opened by E-Mail Received from " +:+ sender_email)
               else ret (f_title (snd f))) ;;
            ret (set_status s t, set_followup_status f_title' (Some s) (snd f))
        | None => ret (t, snd f)
        end ;;
      _ <- Ticket_save (tid, fst changed) ;;
      _ <- FollowUp_save (fst f, snd changed) ;;
      ret (Some (tid, fst changed), (fst f, snd changed))
  end.

(** Lines 549-595: the notifications handed to [send_ticket_mail]. *)
Definition notify (message : Message) (queue : Queue) (ticket : nat * Ticket) (new : bool)
  : M unit :=
  if is_autoreply message then ret tt
  else if new then
    let roles :=
      [("submitter", "newticket_submitter"); ("queue_new", "newticket_cc_user");
       ("queue_updated", "newticket_cc_user"); ("cc_users", "newticket_cc_user");
       ("cc_public", "newticket_cc_public"); ("extra", "newticket_cc_public")] in
    let roles :=
      match assigned_to (snd ticket) with
      | Some _ => roles ++ [("assigned_to", "assigned_owner")]
      | None => roles
      end in
    emit (SendTicketMail (fst ticket) roles "import (new ticket)")
  else
    _ <- emit (SendTicketMail (fst ticket)
                 [("submitter", "updated_submitter"); ("assigned_to", "updated_owner");
                  ("cc_users", "updated_cc_user"); ("queue_updated", "updated_cc_user")]
                 "import (submitter, staff)") ;;
    if enable_notifications_on_email_events queue
    then emit (SendTicketMail (fst ticket)
                 [("cc_public", "updated_cc_public"); ("extra", "updated_cc_public")]
                 "import (public)")
    else ret tt.

(** Lines 447-474: the ticket the message belongs to, if there is one. *)
Definition resolve_ticket (E : Env) (message : Message) (ticket_id : option string)
  : M (option (nat * Ticket)) :=
  let in_reply_to := snd (parseaddr E (get message "In-Reply-To")) in
  found <- ticket_in_reply_to in_reply_to ;;
  ticket_from_id (fst found) (snd found) ticket_id.

(** The row written by lines 498-505. *)
Definition new_followup (E : Env) (message : Message) (payload : Payload)
  (ticket : option (nat * Ticket)) : FollowUp :=
  mkFollowUp (option_map fst ticket)
    (Str.take 200 ("E-Mail Received from " +:+ snd (p_sender payload)))
    (now E) true (py_or (p_full_body payload) (Some ""))
    (snd (parseaddr E (get message "Message-Id"))) None.

(** Lines 498-597: the follow-up, the status, the attachments, the
    subscriptions and the notifications; [created] is the ticket and whether
    it is new. *)
Definition record_followup (E : Env) (message : Message) (payload : Payload)
  (files : list UploadedFile) (created : option (nat * Ticket) * bool)
  : M (nat * Ticket) :=
  let ticket := fst created in
  let new := snd created in
  f <- FollowUp_create E (new_followup E message payload ticket) ;;
  updated <- (if negb new then update_ticket_status E (snd (p_sender payload)) ticket f
              else ret (ticket, f)) ;;
  match fst updated with
  | None => raise AttributeError
  | Some ticket =>
      _ <- emit (ProcessAttachments (fst (snd updated)) files) ;;
      _ <- create_ticket_cc E ticket (p_to_list payload ++ p_cc_list payload) ;;
      _ <- notify message (p_queue payload) ticket new ;;
      ret ticket
  end.

(** [create_object_from_email_message] (lines 437-597); it returns the
    ticket. *)
Definition create_object_from_email_message (E : Env) (message : Message)
  (ticket_id : option string) (payload : Payload) (files : list UploadedFile)
  : M (nat * Ticket) :=
  ticket <- resolve_ticket E message ticket_id ;;
  created <- new_ticket E payload ticket ;;
  record_followup E message payload files created.

(** ** [object_from_message] (lines 600-815) *)

(** What the function returns: [True], [False], or the ticket. *)
Inductive Returned : Type :=
  | RBool (b : bool)
  | RTicket (ticket : nat).

(** Lines 666-669: the addresses whose subscriptions are removed;
    [None.strip()] raises (the result [None]). *)
Definition forwarded_addresses (sender_is_queue : bool) (auto_forward : option string)
  (to_list : list (string * string)) : option (list string) :=
  if sender_is_queue && (match auto_forward with None => true | Some _ => false end)
  then Some (List.map snd to_list)
  else option_map (fun v => Str.split_comma (Str.strip v)) auto_forward.

(** Lines 670-673 for all addresses. *)
Definition delete_ccs (tid : nat) (addresses : list string) (db : DB) : DB :=
  fold_left (fun db address => TicketCC_delete tid address db) addresses db.

(** Lines 665-675: the subscriptions removed when a loop is found. *)
Definition heal_loop (ticket : option string) (sender_is_queue : bool)
  (auto_forward : option string) (to_list : list (string * string)) : M unit :=
  db <- read_db ;;
  if truthy ticket && Ticket_exists db (Str.int_of_digits (default "" ticket)) then
    match forwarded_addresses sender_is_queue auto_forward to_list with
    | Some addresses =>
        fun db => (inr tt, delete_ccs (Str.int_of_digits (default "" ticket)) addresses db)
    | None => raise AttributeError
    end
  else ret tt.

(** Line 615: the sender as [(name, address)]. *)
Definition sender_of (E : Env) (message : Message) : string * string :=
  parseaddr E (Some (default "Unknown Sender" (get message "from"))).

(** Line 626: the addresses tested against the ignore list. *)
Definition screened_addresses (E : Env) (message : Message) : list (string * string) :=
  [sender_of E message] ++ getaddresses E (get_all message "To")
    ++ getaddresses E (get_all message "Cc").

(** Line 663: the test for a forwarding loop. *)
Definition is_loop (message : Message) (sender_address : string) (queue : Queue) : bool :=
  (match get message "X-BEAMHelpdesk-Delivered" with Some _ => true | None => false end)
  || String.eqb (Str.lower sender_address) (Str.lower (email_address queue)).

Definition object_from_message (E : Env) (message : Message) (importer : nat)
  (queues : Queues) : M Returned :=
  let subject := clean_subject E message in
  let sender := sender_of E message in
  if String.eqb (snd sender) "" then ret (RBool true)
  else
    let to_list := getaddresses E (get_all message "To") in
    let cc_list := getaddresses E (get_all message "Cc") in
    db <- read_db ;;
    match ignore_guard E (ignore_rules db importer) (screened_addresses E message) with
    | Some b => ret (RBool b)
    | None =>
        let classified := classify E queues subject (snd sender) in
        let ticket := fst classified in
        let queue := snd classified in
        let auto_forward := get message "X-BEAMHelpdesk-Delivered" in
        let sender_is_queue :=
          String.eqb (Str.lower (snd sender)) (Str.lower (email_address queue)) in
        if is_loop message (snd sender) queue
        then
          _ <- heal_loop ticket sender_is_queue auto_forward to_list ;;
          ret (RBool true)
        else
          let st := walk_parts E ticket (walk message) in
          let bodies := fallback_body E message st in
          let files := archive_original E message (files st) in
          let payload :=
            mkPayload (fst bodies) (py_or (snd bodies) (Some (fst bodies))) subject queue
              sender (message_priority message) files cc_list to_list in
          ticket <- create_object_from_email_message E message ticket payload files ;;
          ret (RTicket (fst ticket))
    end.

(** ** Acknowledgment by the transports (lines 169-174, 265-277, 361-370) *)

Inductive Outcome : Type :=
  | Consume   (** deleted, or marked as answered *)
  | Retain.   (** left in the mailbox *)

(** [if ticket: ... else: ...] on what [object_from_message] returned;
    a ticket object is true. *)
Definition acknowledge (r : Returned) : Outcome :=
  match r with
  | RBool false => Retain
  | RBool true => Consume
  | RTicket _ => Consume
  end.

(** Lines 100-107 of [process_email]: the [queues] dictionary of an
    importer. *)
Definition build_queues (importer_queues : list Queue) (default_queue : Queue) : Queues :=
  mkQueues importer_queues default_queue
    (List.filter (fun q => match match_on q with [] => false | _ => true end) importer_queues)
    (List.filter (fun q => match match_on_addresses q with [] => false | _ => true end)
       importer_queues).

(** ** A small installation, for running the importer on concrete mail *)

Module Fixture.

(** Header values here are bare addresses, which [parseaddr] returns
    unchanged with an empty display name. *)
Definition env (update_only nullable : bool) : Env :=
  {| QUEUE_EMAIL_BOX_UPDATE_ONLY := update_only;
     HELPDESK_FULL_FIRST_MESSAGE_FROM_EMAIL := false;
     HELPDESK_ALWAYS_SAVE_INCOMING_EMAIL_MESSAGE := false;
     now := 100;
     localtime_stamp := "_01-01-2024_00:00";
     parseaddr := fun v => ("", default "" v);
     getaddresses := List.map (fun v => ("", v));
     decode_subject := fun _ s => s;
     collapse_rfc2231_value := fun s => s;
     guess_extension := fun t => if String.eqb t "application/pdf" then Some ".pdf" else None;
     guess_type := fun n => if Str.contains ".pdf" n then Some "application/pdf" else None;
     keyword_search := fun m s => Str.contains (Str.lower m) (Str.lower s);
     plain_text := payload;
     reply_fragments := fun s => [s];
     parse_reply := fun s => s;
     unicode_unescape := fun s => s;
     smart_text := payload;
     soup_text := fun s => s;
     soup_body := fun _ => None;
     ignore_test := fun r a => String.eqb (ig_email_address r) a;
     is_helpdesk_staff := fun u _ => match u with Some u => u_is_staff u | None => false end;
     form_fields := fun _ => [];
     followup_ticket_nullable := nullable;
     valid_cc_email := Str.contains "@" |}.

Definition support : Queue :=
  mkQueue 1 "support" [] [] "support@example.com" None false 1.

Definition sales : Queue :=
  mkQueue 2 "sales" ["invoice"] ["@partner.example"] "sales@example.com" None false 1.

Definition queues : Queues := build_queues [support; sales] support.

Definition alice : User := mkUser 1 "alice@example.com" "Alice Agent" "alice" true.
Definition bob : User := mkUser 2 "bob@example.com" "Bob Agent" "bob" true.

Definition ticket_of (submitter : string) (owner : option nat) (s : Status)
  (merged : option nat) : Ticket :=
  mkTicket "printer broken" support None None submitter 10 "it is broken" 3 1 owner s merged.

Definition empty_db : DB := mkDB ∅ [] [] [alice; bob] [] 0 [].

Definition mail (hs : list (string * string)) (ps : list Part) : Message :=
  mkMessage hs ps "".

Definition text_plain (s : string) : Part := mkPart "text" "plain" None s.

(** C1: an unmatched message. *)
Definition unmatched_mail : Message :=
  mail [("From", "user@x.com"); ("Subject", "printer broken"); ("Message-Id", "m9@x.com")]
    [text_plain "it is broken"].

(** C2: ticket 1 was merged to ticket 2; follow-up 0 of ticket 1 carries
    the message id the new mail replies to. *)
Definition merged_db : DB :=
  mkDB (<[1 := ticket_of "user@x.com" None CLOSED_STATUS (Some 2)]>
          (<[2 := ticket_of "user@x.com" None OPEN_STATUS None]> ∅))
    [mkFollowUp (Some 1) "E-Mail Received from user@x.com" 20 true (Some "first")
         "m1@x.com" None]
    [] [alice; bob] [] 0 [].

Definition reply_mail : Message :=
  mail [("From", "user@x.com"); ("Subject", "Re: printer broken");
        ("Message-Id", "m2@x.com"); ("In-Reply-To", "m1@x.com")]
    [text_plain "still broken"].

Definition tagged_reply_mail : Message :=
  mail [("From", "user@x.com"); ("Subject", "Re: [support-1] printer broken");
        ("Message-Id", "m2@x.com")]
    [text_plain "still broken"].

(** C4: ticket 42, submitted by the staff member alice and assigned to the
    staff member bob, is open; bob answers by mail. *)
Definition internal_db : DB :=
  mkDB (<[42 := ticket_of "alice@example.com" (Some 2) OPEN_STATUS None]> ∅)
    [] [] [alice; bob] [] 0 [].

Definition assignee_mail : Message :=
  mail [("From", "bob@example.com"); ("Subject", "Re: [support-42] printer broken");
        ("Message-Id", "m3@example.com")]
    [text_plain "fixed"].

(** C6, C8: ignore rules, a looping message, a message without sender. *)
Definition keep_rule : IgnoreEmail := mkIgnoreEmail "support@example.com" true [].

Definition ignoring_db : DB := mkDB ∅ [] [] [alice; bob] [keep_rule] 0 [].

Definition loop_mail : Message :=
  mail [("From", "support@example.com"); ("To", "user@x.com");
        ("Subject", "[support-1] printer broken"); ("X-BEAMHelpdesk-Delivered", "user@x.com")]
    [text_plain "looping"].

Definition loop_db : DB :=
  mkDB (<[1 := ticket_of "user@x.com" None OPEN_STATUS None]> ∅) []
    [mkTicketCC 1 None "User@x.com"; mkTicketCC 1 None "other@x.com"]
    [alice; bob] [] 0 [].

Definition senderless_mail : Message :=
  mail [("From", ""); ("To", "support@example.com"); ("Subject", "hello")]
    [text_plain "hi"].

(** C9: a folded subject line keeps its line feed. *)
Definition folded_subject : string :=
  "printer broken in room 12" +:+ String "010"%char " [support-42]".

(** C7 *)
Definition non_urgent_mail : Message :=
  mail [("From", "user@x.com"); ("Subject", "hello"); ("Priority", "non-urgent")]
    [text_plain "hi"].

(** C3 *)
Definition invoice : Part := mkPart "application" "pdf" (Some "invoice.pdf") "%PDF".

Definition invoice_mail : Message :=
  mail [("From", "user@x.com"); ("Subject", "invoice"); ("Message-Id", "m4@x.com")]
    [mkPart "multipart" "mixed" None ""; text_plain "see attachment"; invoice].

End Fixture.

(** ** Framing: what a statement leaves alone *)

(** The statement [c] does not change the component [proj] of the
    database, whether it returns or raises. *)
Definition keeps {X A : Type} (proj : DB -> X) (c : M A) : Prop :=
  forall db, proj (snd (c db)) = proj db.

(** The statement [c] maintains the invariant [I]. *)
Definition preserves {A : Type} (I : DB -> Prop) (c : M A) : Prop :=
  forall db, I db -> I (snd (c db)).

(** Every value [c] returns satisfies [Q]. *)
Definition returns {A : Type} (c : M A) (Q : A -> Prop) : Prop :=
  forall db a db', c db = (inr a, db') -> Q a.

(** The follow-up [f] is the row [F] as [FollowUp.objects.create] wrote
    it, but for its title and [new_status]. *)
Definition same_record (F f : FollowUp) : Prop :=
  f_ticket f = f_ticket F /\ f_date f = f_date F /\ f_public f = f_public F
  /\ f_comment f = f_comment F /\ f_message_id f = f_message_id F.

(** The table of follow-ups is [old] with one more row, which is [F]. *)
Definition appended (old : list FollowUp) (F : FollowUp) (db : DB) : Prop :=
  exists f, followups db = old ++ [f] /\ same_record F f.

(** The comment in the words of the specification: the full body when one
    was extracted, otherwise the plain body (the empty string when there is
    none). *)
Definition comment_text (body : string) (full_body : option string) : string :=
  match full_body with
  | Some s => if Str.nonempty s then s else body
  | None => body
  end.

(** ** Transports and scheduling: [parse_uid], [pop3_sync], [imap_sync],
    [process_importer], [process_email] *)

(** Line 56. *)
Definition DEBUGGING : bool := false.

(** [parse_uid] (lines 55-61): [PATTERN_UID.match(data).group('uid')] for
    the pattern [\d+ \(UID (?P<uid>\d+)\)]; without a match, [.group] is
    read on [None]. *)
Definition parse_uid (data : string) : Exn + string :=
  match Str.span_digits data with
  | (EmptyString, _) => inl AttributeError
  | (_, r) =>
      match Str.strip_prefix " (UID " r with
      | Some r' =>
          match Str.span_digits r' with
          | (EmptyString, _) => inl AttributeError
          | (uid, String ")" _) => inr uid
          | (_, _) => inl AttributeError
          end
      | None => inl AttributeError
      end
  end.

(** [msg.split(" ")[0]] *)
Fixpoint first_token (s : string) : string :=
  match s with
  | EmptyString => EmptyString
  | String c r => if Ascii.eqb c " "%char then EmptyString else String c (first_token r)
  end.

(** What the importer sends to a mail server, or asks of the file system. *)
Inductive Command : Type :=
  | SOCKS_set_default_proxy (proxy_type : option string) (addr : string) (port : nat)
  | Connect (box_type : string) (ssl : bool) (host : option string) (port : nat)
  | POP3_retr (msg_num : string)
  | POP3_dele (msg_num : string)
  | POP3_quit
  | IMAP_search (criterion : string)
  | IMAP_fetch_uid (num : string)
  | IMAP_uid_fetch (uid : string)
  | IMAP_uid_store (uid : string) (flags : string)
  | IMAP_expunge
  | IMAP_close
  | IMAP_logout
  | OS_unlink (path : string).

#[global] Instance Command_eq_dec : EqDecision Command.
Proof. solve_decision. Defined.

(** A POP3 mailbox after login: the lines of [server.list()[1]] and the
    message [server.retr] gives for a number, parsed. *)
Record POP3 : Type := mkPOP3 {
  pop3_list : list string;
  pop3_retr : string -> Message
}.

(** An IMAP folder after login and select: the numbers a search returns,
    the line [server.fetch(num, "(UID)")] answers, and the message of a
    UID, parsed. *)
Record IMAP4 : Type := mkIMAP4 {
  imap_search : string -> list string;
  imap_uid_line : string -> string;
  imap_rfc822 : string -> Message
}.

(** What is outside the process: the servers a connection reaches, the
    files of a directory with their parsed content, the readings of
    [timezone.now()] one after the other (in microseconds), and the
    settings of lines 152-154 of settings.py. *)
Record Net : Type := mkNet {
  pop3_server : option string -> nat -> POP3;
  imap_server : option string -> nat -> IMAP4;
  listdir : string -> list (string * Message);
  clock : nat -> Z;
  QUEUE_EMAIL_BOX_TYPE : option string;
  QUEUE_EMAIL_BOX_SSL : bool;
  QUEUE_EMAIL_BOX_HOST : option string
}.

(** The row of [EmailImporter] (seed.models), as far as email.py reads
    it. *)
Record Importer : Type := mkImporter {
  imp_id : nat;
  allow_email_imports : bool;
  imp_default_queue : option Queue;
  queue_set : list Queue;
  email_box_type : string;
  email_box_ssl : bool;
  email_box_host : option string;
  email_box_port : option nat;
  email_box_local_dir : option string;
  keep_mail : bool;
  email_box_last_check : option Z;
  email_box_interval : option Z;
  socks_proxy : option (string * string * nat)
}.

(** A run of the importer: what was sent so far, how often the clock was
    read, and the database. *)
Record Session : Type := mkSession {
  sent : list Command;
  ticks : nat;
  store : DB
}.

Definition Sync (A : Type) : Type := Session -> (Exn + A) * Session.

Definition sret {A : Type} (a : A) : Sync A := fun s => (inr a, s).

Definition sraise {A : Type} (e : Exn) : Sync A := fun s => (inl e, s).

Definition sbind {A B : Type} (c : Sync A) (k : A -> Sync B) : Sync B :=
  fun s =>
    match c s with
    | (inl e, s') => (inl e, s')
    | (inr a, s') => k a s'
    end.

Notation "x <~ c ;; k" := (sbind c (fun x => k))
  (at level 100, c at next level, right associativity).

(** A statement on the database, inside a session. *)
Definition lift {A : Type} (c : M A) : Sync A :=
  fun s =>
    let (r, db') := c (store s) in
    (r, mkSession (sent s) (ticks s) db').

Definition send (cmd : Command) : Sync unit :=
  fun s => (inr tt, mkSession (sent s ++ [cmd]) (ticks s) (store s)).

(** [timezone.now()] *)
Definition timezone_now (net : Net) : Sync Z :=
  fun s => (inr (clock net (ticks s)), mkSession (sent s) (S (ticks s)) (store s)).

(** [for x in l: body(x)] *)
Fixpoint for_each {A : Type} (l : list A) (body : A -> Sync unit) : Sync unit :=
  match l with
  | [] => sret tt
  | x :: rest => _ <~ body x ;; for_each rest body
  end.

(** Lines 146-176 of [pop3_sync]: the messages of the mailbox, one after
    the other, and the end of the session. *)
Definition pop3_sync (E : Env) (importer : nat) (queues : Queues) (server : POP3)
  : Sync unit :=
  _ <~ for_each (pop3_list server)
         (fun msg =>
            let msg_num := first_token msg in
            _ <~ send (POP3_retr msg_num) ;;
            ticket <~ lift (object_from_message E (pop3_retr server msg_num)
                              importer queues) ;;
            match acknowledge ticket with
            | Consume => if negb DEBUGGING then send (POP3_dele msg_num) else sret tt
            | Retain => sret tt
            end) ;;
  send POP3_quit.

(** Lines 239-286 of [imap_sync]: search, the messages found, and the end
    of the session.  The [TypeError] and [BadHeaderError] the loop catches
    are not among the exceptions of the embedding. *)
Definition imap_sync (E : Env) (importer : nat) (keep_mail : bool) (queues : Queues)
  (server : IMAP4) : Sync unit :=
  let criterion := if keep_mail then "NOT ANSWERED" else "NOT DELETED" in
  _ <~ send (IMAP_search criterion) ;;
  _ <~ for_each (imap_search server criterion)
         (fun num_raw =>
            _ <~ send (IMAP_fetch_uid num_raw) ;;
            match parse_uid (imap_uid_line server num_raw) with
            | inl e => sraise e
            | inr msg_uid =>
                _ <~ send (IMAP_uid_fetch msg_uid) ;;
                ticket <~ lift (object_from_message E (imap_rfc822 server msg_uid)
                                  importer queues) ;;
                match acknowledge ticket with
                | Consume =>
                    if DEBUGGING then sret tt
                    else if keep_mail
                         then send (IMAP_uid_store msg_uid "(\Answered)")
                         else send (IMAP_uid_store msg_uid "(\Deleted)")
                | Retain => sret tt
                end
            end) ;;
  _ <~ send IMAP_expunge ;;
  _ <~ send IMAP_close ;;
  send IMAP_logout.

(** Lines 352-370 of [process_importer]: the files of the local
    directory. *)
Definition local_sync (E : Env) (importer : nat) (queues : Queues)
  (mail : list (string * Message)) : Sync unit :=
  for_each mail
    (fun m =>
       ticket <~ lift (object_from_message E (snd m) importer queues) ;;
       match acknowledge ticket with
       | Consume => send (OS_unlink (fst m))
       | Retain => sret tt
       end).

(** The table [mail_defaults] of lines 314-337. *)
Definition default_port (box_type : string) (ssl : bool) : nat :=
  if String.eqb box_type "pop3" then (if ssl then 995 else 110)
  else (if ssl then 993 else 143).

Definition set_port (port : option nat) (i : Importer) : Importer :=
  mkImporter (imp_id i) (allow_email_imports i) (imp_default_queue i) (queue_set i)
    (email_box_type i) (email_box_ssl i) (email_box_host i) port
    (email_box_local_dir i) (keep_mail i) (email_box_last_check i)
    (email_box_interval i) (socks_proxy i).

Definition set_last_check (t : option Z) (i : Importer) : Importer :=
  mkImporter (imp_id i) (allow_email_imports i) (imp_default_queue i) (queue_set i)
    (email_box_type i) (email_box_ssl i) (email_box_host i) (email_box_port i)
    (email_box_local_dir i) (keep_mail i) t (email_box_interval i) (socks_proxy i).

(** [process_importer] (lines 289-370); it returns the importer object,
    whose port it may have set (a port that is unset or 0 is replaced by
    the default). *)
Definition process_importer (E : Env) (net : Net) (importer : Importer) (queues : Queues)
  : Sync Importer :=
  _ <~ (match socks_proxy importer with
        | Some (proxy_type, host, port) =>
            send (SOCKS_set_default_proxy
                    (if String.eqb proxy_type "socks4" || String.eqb proxy_type "socks5"
                     then Some proxy_type else None)
                    host port)
        | None => sret tt
        end) ;;
  let box_type :=
    default "" (py_or (QUEUE_EMAIL_BOX_TYPE net) (Some (email_box_type importer))) in
  if String.eqb box_type "pop3" || String.eqb box_type "imap" then
    let ssl := email_box_ssl importer || QUEUE_EMAIL_BOX_SSL net in
    let port :=
      match email_box_port importer with
      | Some (S p) => S p
      | _ => default_port box_type ssl
      end in
    let importer := set_port (Some port) importer in
    let host := py_or (email_box_host importer) (QUEUE_EMAIL_BOX_HOST net) in
    _ <~ send (Connect box_type ssl host port) ;;
    _ <~ (if String.eqb box_type "pop3"
          then pop3_sync E (imp_id importer) queues (pop3_server net host port)
          else imap_sync E (imp_id importer) (keep_mail importer) queues
                 (imap_server net host port)) ;;
    sret importer
  else if String.eqb box_type "local" then
    let mail_dir :=
      default "" (py_or (email_box_local_dir importer) (Some "/var/lib/mail/helpdesk/")) in
    _ <~ local_sync E (imp_id importer) queues (listdir net mail_dir) ;;
    sret importer
  else sret importer.

(** [timedelta(minutes=n)] in microseconds. *)
Definition minutes (n : Z) : Z := (n * 60000000)%Z.

(** The body of the loop of [process_email] (lines 66-134) for one
    importer, without the logging: the row of the importer afterwards. *)
Definition process_email_importer (E : Env) (net : Net) (importer : Importer)
  : Sync Importer :=
  match imp_default_queue importer with
  | None => sret importer
  | Some default_queue =>
      let queues := build_queues (queue_set importer) default_queue in
      last_check <~
        (match email_box_last_check importer with
         | Some t => sret t
         | None => t <~ timezone_now net ;; sret (t - minutes 30)%Z
         end) ;;
      let queue_time_delta := minutes (default 0%Z (email_box_interval importer)) in
      if negb DEBUGGING then
        t <~ timezone_now net ;;
        if (last_check + queue_time_delta <? t)%Z then
          polled <~ process_importer E net (set_last_check (Some last_check) importer)
                      queues ;;
          t' <~ timezone_now net ;;
          sret (set_last_check (Some t') polled)
        else sret importer
      else
        polled <~ process_importer E net (set_last_check (Some last_check) importer)
                    queues ;;
        t' <~ timezone_now net ;;
        sret (set_last_check (Some t') polled)
  end.

(** [process_email] (lines 64-135) over the rows of [EmailImporter]: the
    rows afterwards; an importer that does not allow imports is not
    visited. *)
Fixpoint process_email (E : Env) (net : Net) (importers : list Importer)
  : Sync (list Importer) :=
  match importers with
  | [] => sret []
  | importer :: rest =>
      if allow_email_imports importer then
        importer' <~ process_email_importer E net importer ;;
        rest' <~ process_email E net rest ;;
        sret (importer' :: rest')
      else
        rest' <~ process_email E net rest ;;
        sret (importer :: rest')
  end.

(** The row [Ticket.objects.create] writes at lines 482-493. *)
Definition email_ticket (E : Env) (payload : Payload) : Ticket :=
  let fields := form_fields E (organization (p_queue payload)) in
  mkTicket (Str.take 200 (p_subject payload)) (p_queue payload)
    (if existsb (String.eqb "contact_name") fields
     then Some (Str.take 200 (fst (p_sender payload))) else None)
    (if existsb (String.eqb "contact_email") fields
     then Some (Str.take 200 (snd (p_sender payload))) else None)
    (snd (p_sender payload)) (now E) (p_body payload) (p_priority payload)
    (organization (p_queue payload)) (default_owner (p_queue payload)) OPEN_STATUS None.

(** A notification for the ticket [tid]. *)
Definition is_mail_for (tid : nat) (e : Event) : Prop :=
  exists roles source, e = SendTicketMail tid roles source.

(** The table of tickets is [old] but for the row of key [tid]. *)
Definition same_but (tid : nat) (old : gmap nat Ticket) (db : DB) : Prop :=
  forall k, k <> tid -> tickets db !! k = old !! k.

(** ** Reading the outcome of the walk *)

(** The parts lines 691-692 take as the body: [text/plain] without a
    [name] parameter. *)
Definition is_plain_body (p : Part) : bool :=
  is_leaf p
  && match name_param p with None => true | Some _ => false end
  && String.eqb (content_maintype p) "text"
  && String.eqb (content_subtype p) "plain".

(** The parts lines 717-741 store as [email_html_body.html]: text other
    than plain, without a [name] parameter. *)
Definition is_html_body (p : Part) : bool :=
  is_leaf p
  && match name_param p with None => true | Some _ => false end
  && String.eqb (content_maintype p) "text"
  && negb (String.eqb (content_subtype p) "plain").

(** The number [i] in a file name [part-<i>...]. *)
Definition part_index (name : string) : option nat :=
  match Str.strip_prefix "part-" name with
  | Some r =>
      match Str.span_digits r with
      | (EmptyString, _) => None
      | (d, _) => Some (Str.int_of_digits d)
      end
  | None => None
  end.

Definition is_html_file (f : UploadedFile) : bool :=
  String.eqb (file_name f) "email_html_body.html".

(** ** Reading a session *)

(** What [pop3_sync] sends for one message of the listing: it is
    retrieved, and deleted or left. *)
Definition pop3_exchange (entry : string * bool) : list Command :=
  POP3_retr (first_token (fst entry))
    :: (if snd entry then [POP3_dele (first_token (fst entry))] else []).


(** The statement [c] does not raise [e]. *)
Definition never_raises {A : Type} (e : Exn) (c : M A) : Prop :=
  forall db, fst (c db) <> inl e.


(** * Properties *)

(** ** Status transitions *)

Lemma update_status_fixpoint (public : bool) (s : Status) :
  update_status public (update_status public s) = update_status public s.
Proof. destruct public, s; reflexivity. Qed.

(** C5: the status transition of one update is idempotent: for the same
    three operands of the test of line 512 and every starting status,
    applying it twice gives what applying it once gives.  In particular an
    update that reopens (the test of line 512 holds) moves a CLOSED ticket
    to REOPENED, and its replay leaves the ticket REOPENED; any other update
    leaves a CLOSED ticket CLOSED. *)
Theorem update_status_idempotent :
  (forall (submitter_is_staff differs updater_is_staff : bool) (s : Status),
     let step := update_status (public_update submitter_is_staff differs updater_is_staff) in
     step (step s) = step s)
  /\ (forall (submitter_is_staff differs updater_is_staff : bool),
        let step :=
          update_status (public_update submitter_is_staff differs updater_is_staff) in
        if public_update submitter_is_staff differs updater_is_staff
        then step CLOSED_STATUS = REOPENED_STATUS
             /\ step (step CLOSED_STATUS) = REOPENED_STATUS
        else step CLOSED_STATUS = CLOSED_STATUS).
Proof.
  split.
  - intros S D U s step. apply update_status_fixpoint.
  - intros S D U step. subst step.
    destruct (public_update S D U); [split |]; reflexivity.
Qed.

(** ** Priority *)

Lemma priority_is_membership (p i : string) :
  existsb (fun k => String.eqb k p || String.eqb k i) high_priority_types = true
  <-> In p high_priority_types \/ In i high_priority_types.
Proof.
  rewrite existsb_exists. split.
  - intros [k [Hk Heq]].
    apply orb_true_iff in Heq as [Heq | Heq]; apply String.eqb_eq in Heq; subst;
      [left | right]; exact Hk.
  - intros [H | H]; [exists p | exists i]; split; try exact H;
      rewrite String.eqb_refl; [reflexivity | apply orb_true_r].
Qed.

(** C7 as stated fails: the header value [non-urgent] contains the keyword
    [urgent], and the priority of the message is normal (3). *)
Lemma priority_keyword_inside_value :
  header_contains_keyword Fixture.non_urgent_mail = true
  /\ message_priority Fixture.non_urgent_mail = 3.
Proof. split; reflexivity. Qed.

(** C7, amended: the priority is high (2) exactly when the value of the
    priority header or of the importance header is, as a whole and with its
    case, one of the four keywords; otherwise it is normal (3). *)
Theorem message_priority_exact (m : Message) :
  let smtp_priority := default "" (get m "priority") in
  let smtp_importance := default "" (get m "importance") in
  (message_priority m = 2
   <-> In smtp_priority high_priority_types \/ In smtp_importance high_priority_types)
  /\ (message_priority m = 3
      <-> ~ (In smtp_priority high_priority_types \/ In smtp_importance high_priority_types)).
Proof.
  intros p i. unfold message_priority. fold p i.
  pose proof (priority_is_membership p i) as H.
  destruct (existsb _ high_priority_types).
  - split; split; intros; try discriminate.
    + apply H; reflexivity.
    + reflexivity.
    + exfalso. apply H0, H. reflexivity.
  - split; split; intros; try discriminate.
    + apply H in H0. discriminate.
    + intros Hin. apply H in Hin. discriminate.
    + reflexivity.
Qed.

(** ** The tracking pattern *)

#[local] Arguments String.append !s1 s2 : simpl nomatch.

Lemma append_assoc (a b c : string) : (a +:+ b) +:+ c = a +:+ (b +:+ c).
Proof. induction a as [|x a IH]; simpl; [reflexivity | now rewrite IH]. Qed.

Lemma strip_prefix_append (p r : string) : Str.strip_prefix p (p +:+ r) = Some r.
Proof.
  induction p as [|a p IH]; simpl; [reflexivity |].
  now rewrite Ascii.eqb_refl.
Qed.

Lemma strip_prefix_inv (p s r : string) : Str.strip_prefix p s = Some r -> s = p +:+ r.
Proof.
  revert s. induction p as [|a p IH]; intros s H; simpl in *.
  - now inversion H.
  - destruct s as [|b s]; [discriminate |].
    destruct (Ascii.eqb a b) eqn:Hab; [| discriminate].
    apply Ascii.eqb_eq in Hab. subst b. f_equal. now apply IH.
Qed.

Lemma span_digits_inv (s d r : string) :
  Str.span_digits s = (d, r) -> s = d +:+ r /\ Str.all_digits d = true.
Proof.
  revert d r. induction s as [|c s IH]; intros d r H; simpl in H.
  - inversion H. auto.
  - destruct (Str.is_digit c) eqn:Hc.
    + destruct (Str.span_digits s) as [d' r'] eqn:Hs. inversion H; subst.
      destruct (IH d' r eq_refl) as [-> Hd]. simpl. rewrite Hc. auto.
    + inversion H; subst. auto.
Qed.

Lemma span_digits_append (d r : string) :
  Str.all_digits d = true ->
  match r with String c _ => Str.is_digit c = false | EmptyString => True end ->
  Str.span_digits (d +:+ r) = (d, r).
Proof.
  intros Hd Hr. induction d as [|c d IH]; simpl in *.
  - destruct r as [|c r]; [reflexivity |]. simpl. now rewrite Hr.
  - apply andb_true_iff in Hd as [Hc Hd]. rewrite Hc, (IH Hd). reflexivity.
Qed.

Lemma tag_text_append (slug d post : string) :
  tag_text slug d +:+ post = ("[" +:+ slug +:+ "-") +:+ (d +:+ "]" +:+ post).
Proof.
  unfold tag_text. simpl. f_equal.
  rewrite !append_assoc. simpl. rewrite !append_assoc. reflexivity.
Qed.

Lemma tag_at_inv (slug s d : string) :
  tag_at slug s = Some d ->
  exists post, s = tag_text slug d +:+ post /\ Str.all_digits d = true /\ d <> "".
Proof.
  unfold tag_at. intros H.
  destruct (Str.strip_prefix ("[" +:+ slug +:+ "-") s) as [r|] eqn:Hp; [| discriminate].
  apply strip_prefix_inv in Hp.
  destruct (Str.span_digits r) as [d' r'] eqn:Hs.
  apply span_digits_inv in Hs as [-> Hd].
  destruct d' as [|c d']; [discriminate |].
  destruct r' as [|b post]; [discriminate |].
  destruct (Ascii.eqb_spec b "]"%char) as [-> | Hb].
  - inversion H; subst. exists post. split; [| split; [exact Hd | discriminate]].
    now rewrite tag_text_append.
  - exfalso. destruct b as [[] [] [] [] [] [] [] []]; try discriminate H.
    now apply Hb.
Qed.

Lemma tag_at_here (slug d post : string) :
  Str.all_digits d = true -> d <> "" ->
  tag_at slug (tag_text slug d +:+ post) = Some d.
Proof.
  intros Hd Hne. unfold tag_at. rewrite tag_text_append.
  rewrite strip_prefix_append, span_digits_append; [| exact Hd | reflexivity].
  destruct d; [contradiction | reflexivity].
Qed.

(** A match of the tracking pattern is a tag that starts on the first
    line. *)
Lemma tracking_id_inv (slug s d : string) :
  tracking_id slug s = Some d ->
  exists pre post,
    s = pre +:+ tag_text slug d +:+ post
    /\ Str.no_newline pre = true /\ Str.all_digits d = true /\ d <> "".
Proof.
  induction s as [|c s IH]; [discriminate |]. intros H.
  assert (Hhere : tag_at slug (String c s) = Some d ->
                  exists pre post, String c s = pre +:+ tag_text slug d +:+ post
                    /\ Str.no_newline pre = true /\ Str.all_digits d = true /\ d <> "").
  { intros Ht. apply tag_at_inv in Ht as (post & Hs & Hd & Hne).
    exists "", post. auto. }
  cbn [tracking_id] in H.
  destruct (Str.is_newline c) eqn:Hc; [now apply Hhere |].
  destruct (tracking_id slug s) as [d'|] eqn:Hr; [| now apply Hhere].
  inversion H; subst d'.
  destruct (IH eq_refl) as (pre & post & -> & Hpre & Hd & Hne).
  exists (String c pre), post. simpl. rewrite Hc, Hpre. auto.
Qed.

(** What precedes the match on the first line does not hide it. *)
Lemma tracking_id_skip (slug pre s d : string) :
  Str.no_newline pre = true ->
  tracking_id slug s = Some d ->
  tracking_id slug (pre +:+ s) = Some d.
Proof.
  intros Hpre Hs. induction pre as [|c pre IH]; simpl in *; [exact Hs |].
  apply andb_true_iff in Hpre as [Hc Hpre].
  apply negb_true_iff in Hc. rewrite Hc, (IH Hpre). reflexivity.
Qed.

Lemma tag_at_bracket (slug : string) (c : ascii) (s : string) :
  c <> "["%char -> tag_at slug (String c s) = None.
Proof.
  intros Hc. unfold tag_at.
  change ("[" +:+ slug +:+ "-") with (String "[" (slug +:+ "-")).
  cbn [Str.strip_prefix].
  destruct (Ascii.eqb_spec "["%char c) as [<- | _]; [contradiction | reflexivity].
Qed.

(** Text without bracket and line feed holds no match and hides none. *)
Lemma tracking_id_plain_run (slug a s : string) :
  plain_run a = true -> tracking_id slug (a +:+ s) = tracking_id slug s.
Proof.
  induction a as [|c a IH]; [reflexivity |]. intros H. simpl in H.
  apply andb_true_iff in H as [H Ha]. apply andb_true_iff in H as [Hb Hn].
  apply negb_true_iff in Hb, Hn.
  change (String c a +:+ s) with (String c (a +:+ s)).
  cbn [tracking_id]. rewrite Hn, (IH Ha).
  rewrite tag_at_bracket; [now destruct (tracking_id slug s) |].
  intros ->. discriminate.
Qed.

Lemma plain_run_append (a b : string) :
  plain_run a = true -> plain_run b = true -> plain_run (a +:+ b) = true.
Proof.
  induction a as [|c a IH]; simpl; [auto |]. intros H Hb.
  apply andb_true_iff in H as [H Ha]. rewrite H. now apply IH.
Qed.

Lemma slug_char_plain (c : ascii) :
  slug_char c = true -> negb (Ascii.eqb c "["%char) && negb (Str.is_newline c) = true.
Proof.
  destruct c as [[] [] [] [] [] [] [] []]; vm_compute; congruence.
Qed.

Lemma slug_plain_run (s : string) : slug_ok s = true -> plain_run s = true.
Proof.
  induction s as [|c s IH]; simpl; [auto |]. intros H.
  apply andb_true_iff in H as [Hc Hs]. now rewrite (slug_char_plain c Hc), IH.
Qed.

Lemma digit_plain (c : ascii) :
  Str.is_digit c = true -> negb (Ascii.eqb c "["%char) && negb (Str.is_newline c) = true.
Proof.
  destruct c as [[] [] [] [] [] [] [] []]; vm_compute; congruence.
Qed.

Lemma digits_plain_run (s : string) : Str.all_digits s = true -> plain_run s = true.
Proof.
  induction s as [|c s IH]; simpl; [auto |]. intros H.
  apply andb_true_iff in H as [Hc Hs]. now rewrite (digit_plain c Hc), IH.
Qed.

(** The last tag of a queue on the first line is the match. *)
Lemma tracking_id_last_tag (slug pre d post : string) :
  slug_ok slug = true ->
  Str.no_newline pre = true -> Str.all_digits d = true -> d <> "" ->
  tracking_id slug post = None ->
  tracking_id slug (pre +:+ tag_text slug d +:+ post) = Some d.
Proof.
  intros Hslug Hpre Hd Hne Hpost.
  apply tracking_id_skip; [exact Hpre |].
  assert (Hhere := tag_at_here slug d post Hd Hne).
  assert (Hrest : tracking_id slug ((slug +:+ "-" +:+ d +:+ "]") +:+ post) = None).
  { rewrite tracking_id_plain_run; [exact Hpost |].
    apply plain_run_append; [now apply slug_plain_run |].
    change ("-" +:+ d +:+ "]") with (String "-" (d +:+ "]")).
    cbn [plain_run]. replace (negb (Ascii.eqb "-" "[") && negb (Str.is_newline "-")) with true
      by reflexivity.
    apply plain_run_append; [now apply digits_plain_run | reflexivity]. }
  remember (tag_text slug d +:+ post) as s eqn:Hs.
  unfold tag_text in Hs.
  change (("[" +:+ slug +:+ "-" +:+ d +:+ "]") +:+ post)
    with (String "[" ((slug +:+ "-" +:+ d +:+ "]") +:+ post)) in Hs.
  subst s. cbn [tracking_id].
  replace (Str.is_newline "[") with false by reflexivity.
  rewrite Hrest. exact Hhere.
Qed.

(** ** Routing *)

Lemma match_tracking_step_none (qs : list Queue) (subject : string)
  (acc : option string * option Queue) :
  Forall (fun q => tracking_id (slug q) subject = None) qs ->
  fold_left
    (fun (acc : option string * option Queue) q =>
       match tracking_id (slug q) subject with
       | Some d => if negb (truthy (fst acc)) then (Some d, Some q) else acc
       | None => acc
       end) qs acc = acc.
Proof.
  intros H. revert acc. induction H as [|q qs Hq _ IH]; intros acc; simpl.
  - reflexivity.
  - rewrite Hq. apply IH.
Qed.

Lemma match_tracking_step_fixed (qs : list Queue) (subject d : string) (q : Queue) :
  d <> "" ->
  fold_left
    (fun (acc : option string * option Queue) q =>
       match tracking_id (slug q) subject with
       | Some d => if negb (truthy (fst acc)) then (Some d, Some q) else acc
       | None => acc
       end) qs (Some d, Some q) = (Some d, Some q).
Proof.
  intros Hd. induction qs as [|q' qs IH]; simpl; [reflexivity |].
  destruct (tracking_id (slug q') subject); [| exact IH].
  destruct d; [contradiction | exact IH].
Qed.

(** The first queue of the importer whose pattern matches is taken, with
    the id of its match. *)
Lemma match_tracking_first (before after : list Queue) (q : Queue) (subject d : string) :
  Forall (fun q' => tracking_id (slug q') subject = None) before ->
  tracking_id (slug q) subject = Some d ->
  match_tracking (before ++ q :: after) subject = (Some d, Some q).
Proof.
  intros Hb Hq. unfold match_tracking.
  rewrite fold_left_app, (match_tracking_step_none _ _ _ Hb). simpl. rewrite Hq. simpl.
  apply match_tracking_step_fixed.
  apply tracking_id_inv in Hq as (_ & _ & _ & _ & _ & Hne). exact Hne.
Qed.

Lemma match_tracking_id_nonempty (qs : list Queue) (subject d : string) :
  fst (match_tracking qs subject) = Some d -> d <> "".
Proof.
  unfold match_tracking.
  assert (H : forall acc : option string * option Queue,
             (forall d, fst acc = Some d -> d <> "") ->
             forall d,
               fst (fold_left
                      (fun (acc : option string * option Queue) q =>
                         match tracking_id (slug q) subject with
                         | Some d => if negb (truthy (fst acc)) then (Some d, Some q) else acc
                         | None => acc
                         end) qs acc) = Some d -> d <> "").
  { induction qs as [|q qs IH]; intros acc Hacc; simpl; [exact Hacc |].
    apply IH. destruct (tracking_id (slug q) subject) as [d'|] eqn:Hq; [| exact Hacc].
    destruct (negb (truthy (fst acc))); [| exact Hacc].
    intros d0 Hd0. inversion Hd0; subst d0.
    apply tracking_id_inv in Hq as (_ & _ & _ & _ & _ & Hne). exact Hne. }
  apply H. intros d0 Hd0. discriminate Hd0.
Qed.

Lemma classify_id_nonempty (E : Env) (queues : Queues) (subject sender d : string) :
  fst (classify E queues subject sender) = Some d -> d <> "".
Proof.
  unfold classify.
  destruct (match_tracking (importer_queues queues) subject) as [ticket queue] eqn:Hm.
  simpl. intros ->.
  apply (match_tracking_id_nonempty (importer_queues queues) subject). now rewrite Hm.
Qed.

Lemma classify_tracked (E : Env) (queues : Queues) (subject sender d : string) (q : Queue) :
  d <> "" ->
  match_tracking (importer_queues queues) subject = (Some d, Some q) ->
  classify E queues subject sender = (Some d, q).
Proof.
  intros Hd H. unfold classify. rewrite H.
  destruct d; [contradiction | reflexivity].
Qed.

(** C9 as stated fails: the tag of a folded subject that stands behind the
    line feed is not found, and the message goes to the default queue
    without a ticket id. *)
Lemma tracking_tag_behind_line_feed :
  ~ (forall (E : Env) (queues : Queues) (subject sender pre d post : string) (q : Queue),
       In q (importer_queues queues) ->
       subject = pre +:+ tag_text (slug q) d +:+ post ->
       Str.all_digits d = true -> d <> "" ->
       classify E queues subject sender = (Some d, q)).
Proof.
  intros H.
  specialize (H (Fixture.env false false) Fixture.queues Fixture.folded_subject "user@x.com"
                ("printer broken in room 12" +:+ String "010"%char " ") "42" ""
                Fixture.support).
  assert (Hc : classify (Fixture.env false false) Fixture.queues Fixture.folded_subject
                 "user@x.com" = (None, Fixture.support)) by reflexivity.
  rewrite Hc in H.
  assert (Hfalse : (None, Fixture.support) = (Some "42", Fixture.support)).
  { apply H; [left; reflexivity | reflexivity | reflexivity | discriminate]. }
  discriminate Hfalse.
Qed.

(** Of two tags of one queue on the first line the last one is taken. *)
Example tracking_tag_last_of_two :
  classify (Fixture.env false false) Fixture.queues "[support-1] [support-2]" "user@x.com"
  = (Some "2", Fixture.support).
Proof. reflexivity. Qed.

(** C9, amended: when the subject holds a tracking tag [\[slug-d\]] of an
    importer queue [q] before any line feed, no queue earlier in the
    importer's order has a match, and no further tag of [q] follows on the
    first line, classification resolves to [q] and to the id [d], whatever
    the subject-keyword and sender-address rules of the queues are.  (The
    first queue in order that matches is taken and, for it, the last tag of
    the first line.) *)
Theorem tracking_tag_fixes_queue_and_ticket
  (E : Env) (queues : Queues) (subject sender pre d post : string)
  (before after : list Queue) (q : Queue) :
  importer_queues queues = before ++ q :: after ->
  Forall (fun q' => tracking_id (slug q') subject = None) before ->
  slug_ok (slug q) = true ->
  subject = pre +:+ tag_text (slug q) d +:+ post ->
  Str.no_newline pre = true ->
  Str.all_digits d = true -> d <> "" ->
  tracking_id (slug q) post = None ->
  classify E queues subject sender = (Some d, q).
Proof.
  intros Hqs Hbefore Hslug -> Hpre Hd Hne Hpost.
  apply classify_tracked; [exact Hne |].
  rewrite Hqs. apply match_tracking_first; [exact Hbefore |].
  now apply tracking_id_last_tag.
Qed.

Lemma tracking_tag_fixes_queue_and_ticket_witness :
  classify (Fixture.env false false) Fixture.queues "AW: [sales-7] invoice overdue"
    "someone@partner.example" = (Some "7", Fixture.sales).
Proof.
  apply (tracking_tag_fixes_queue_and_ticket (Fixture.env false false) Fixture.queues
           "AW: [sales-7] invoice overdue" "someone@partner.example"
           "AW: " "7" " invoice overdue" [Fixture.support] [] Fixture.sales).
  - reflexivity.
  - repeat constructor.
  - reflexivity.
  - reflexivity.
  - reflexivity.
  - reflexivity.
  - discriminate.
  - reflexivity.
Defined.

(** ** Framing lemmas *)

Section Frame.

Context {X : Type} (proj : DB -> X).

Lemma keeps_ret {A : Type} (a : A) : keeps proj (ret a).
Proof. intros db. reflexivity. Qed.

Lemma keeps_raise {A : Type} (e : Exn) : keeps proj (@raise A e).
Proof. intros db. reflexivity. Qed.

Lemma keeps_read_db : keeps proj read_db.
Proof. intros db. reflexivity. Qed.

Lemma keeps_bind {A B : Type} (c : M A) (k : A -> M B) :
  keeps proj c -> (forall a, keeps proj (k a)) -> keeps proj (bind c k).
Proof.
  intros Hc Hk db. unfold bind. specialize (Hc db).
  destruct (c db) as [[e | a] db1]; simpl in *; [exact Hc |].
  rewrite Hk. exact Hc.
Qed.

End Frame.

Lemma preserves_bind {A B : Type} (I : DB -> Prop) (c : M A) (k : A -> M B) :
  preserves I c -> (forall a, preserves I (k a)) -> preserves I (bind c k).
Proof.
  intros Hc Hk db HI. unfold bind. specialize (Hc db HI).
  destruct (c db) as [[e | a] db1]; simpl in *; [exact Hc |].
  now apply Hk.
Qed.

Lemma keeps_preserves {X A : Type} (proj : DB -> X) (I : DB -> Prop) (c : M A) :
  (forall db db', proj db' = proj db -> I db -> I db') ->
  keeps proj c -> preserves I c.
Proof. intros Hext Hc db HI. exact (Hext db _ (Hc db) HI). Qed.

(** Splitting a run of [bind] at its first statement. *)
Lemma bind_run {A B : Type} (c : M A) (k : A -> M B) (db : DB) :
  bind c k db =
  match c db with
  | (inl e, db') => (inl e, db')
  | (inr a, db') => k a db'
  end.
Proof. reflexivity. Qed.

(** One step of a framing proof: peel a [bind], or split on the value a
    statement branches on. *)
Ltac frame_step :=
  match goal with
  | |- keeps _ (bind _ _) => apply keeps_bind; [| intros ?]
  | |- keeps _ (ret _) => apply keeps_ret
  | |- keeps _ (raise _) => apply keeps_raise
  | |- keeps _ read_db => apply keeps_read_db
  | |- keeps _ (match ?x with _ => _ end) => destruct x
  | |- keeps _ (let (_, _) := ?x in _) => destruct x
  | |- keeps _ (fun _ => _) => intros ?; reflexivity
  end.

Ltac frame := repeat frame_step; try (intros ?; reflexivity).

Lemma keeps_instantiate {X A : Type} (proj : DB -> X) (a : A) :
  (forall n db, proj (set_heap_next n db) = proj db) -> keeps proj (instantiate a).
Proof. intros H db. apply H. Qed.

Lemma keeps_emit {X : Type} (proj : DB -> X) (e : Event) :
  (forall l db, proj (set_events l db) = proj db) -> keeps proj (emit e).
Proof. intros H db. apply H. Qed.

Lemma keeps_User_first_by_email {X : Type} (proj : DB -> X) (email : string) :
  (forall n db, proj (set_heap_next n db) = proj db) ->
  keeps proj (User_first_by_email email).
Proof.
  intros H. unfold User_first_by_email. frame.
  now apply keeps_instantiate.
Qed.

Lemma keeps_related_user {X : Type} (proj : DB -> X) (fk : option nat) :
  (forall n db, proj (set_heap_next n db) = proj db) ->
  keeps proj (related_user fk).
Proof.
  intros H. unfold related_user. frame.
  now apply keeps_instantiate.
Qed.

Lemma keeps_User_get_by_email {X : Type} (proj : DB -> X) (email : string) :
  keeps proj (User_get_by_email email).
Proof. unfold User_get_by_email. frame. Qed.

Lemma keeps_related_ticket {X : Type} (proj : DB -> X) (tid : nat) :
  keeps proj (related_ticket tid).
Proof. unfold related_ticket. frame. Qed.

Lemma keeps_Ticket_get {X : Type} (proj : DB -> X) (tid : nat) :
  keeps proj (Ticket_get tid).
Proof. unfold Ticket_get. frame. Qed.

Lemma keeps_ticket_in_reply_to {X : Type} (proj : DB -> X) (in_reply_to : string) :
  keeps proj (ticket_in_reply_to in_reply_to).
Proof.
  unfold ticket_in_reply_to. frame. apply keeps_related_ticket.
Qed.

Lemma keeps_ticket_from_id {X : Type} (proj : DB -> X) ticket previous_followup ticket_id :
  keeps proj (ticket_from_id ticket previous_followup ticket_id).
Proof.
  unfold ticket_from_id. frame;
    first [apply keeps_Ticket_get | apply keeps_related_ticket].
Qed.

Lemma keeps_subscribe {X : Type} (proj : DB -> X) (E : Env) ticket user email :
  (forall l db, proj (set_ticketccs l db) = proj db) ->
  keeps proj (subscribe_to_ticket_updates E ticket user email).
Proof.
  intros H. unfold subscribe_to_ticket_updates. frame.
  intros db. apply H.
Qed.

Lemma keeps_create_ticket_cc {X : Type} (proj : DB -> X) (E : Env) ticket cc_list :
  (forall l db, proj (set_ticketccs l db) = proj db) ->
  keeps proj (create_ticket_cc E ticket cc_list).
Proof.
  intros H. unfold create_ticket_cc. generalize (@nil TicketCC) as acc.
  induction cc_list as [|[name email] rest IH]; intros acc; simpl.
  - apply keeps_ret.
  - destruct (String.eqb _ _); [apply IH |].
    apply keeps_bind; [apply keeps_User_get_by_email | intros user].
    apply keeps_bind; [now apply keeps_subscribe | intros [cc|]]; apply IH.
Qed.

Lemma keeps_notify {X : Type} (proj : DB -> X) message queue ticket new :
  (forall l db, proj (set_events l db) = proj db) ->
  keeps proj (notify message queue ticket new).
Proof.
  intros H. unfold notify.
  repeat first [frame_step | now apply keeps_emit].
Qed.

Lemma keeps_new_ticket {X : Type} (proj : DB -> X) (E : Env) payload ticket :
  (forall t db, proj (set_tickets t db) = proj db) ->
  keeps proj (new_ticket E payload ticket).
Proof.
  intros H. unfold new_ticket. frame; intros db; apply H.
Qed.

(** ** Ignore list and forwarding loops *)

(** C8 as stated fails: a rule with the keep flag matches the To address
    of a message whose sender cannot be parsed; the message is let go
    (Consume), not kept. *)
Lemma ignore_rule_behind_sender_check :
  ~ (forall (E : Env) (message : Message) (importer : nat) (queues : Queues) (db : DB)
            (rule : IgnoreEmail),
       In rule (ignore_rules db importer) ->
       existsb (fun a => ignore_test E rule (snd a)) (screened_addresses E message) = true ->
       exists r, fst (object_from_message E message importer queues db) = inr r
                 /\ acknowledge r = if keep_in_mailbox rule then Retain else Consume).
Proof.
  intros H.
  destruct (H (Fixture.env false false) Fixture.senderless_mail 1 Fixture.queues
              Fixture.ignoring_db Fixture.keep_rule) as (r & Hr & Hack).
  - left. reflexivity.
  - reflexivity.
  - vm_compute in Hr. inversion Hr; subst r. discriminate Hack.
Qed.

(** C8, amended: for every message whose sender address was parsed, when
    some IgnoreEmail rule scoped to the importer (or to none) matches the
    sender address or a To/Cc address, the first such rule in evaluation
    order decides: the outcome is Retain when its keep-in-mailbox flag is
    set and Consume otherwise; the database is left as it was, so no
    ticket is created. *)
Theorem ignore_list_outcome
  (E : Env) (message : Message) (importer : nat) (queues : Queues) (db : DB)
  (rule : IgnoreEmail) :
  snd (sender_of E message) <> "" ->
  In rule (ignore_rules db importer) ->
  existsb (fun a => ignore_test E rule (snd a)) (screened_addresses E message) = true ->
  exists first,
    List.find (fun r => existsb (fun a => ignore_test E r (snd a))
                          (screened_addresses E message))
      (ignore_rules db importer) = Some first
    /\ object_from_message E message importer queues db
       = (inr (RBool (negb (keep_in_mailbox first))), db)
    /\ acknowledge (RBool (negb (keep_in_mailbox first)))
       = if keep_in_mailbox first then Retain else Consume.
Proof.
  intros Hsender Hin Hmatch.
  destruct (List.find (fun r => existsb (fun a => ignore_test E r (snd a))
                                  (screened_addresses E message))
              (ignore_rules db importer)) as [first|] eqn:Hfind.
  - exists first. split; [reflexivity |]. split.
    + unfold object_from_message.
      destruct (String.eqb_spec (snd (sender_of E message)) "") as [Heq | _];
        [contradiction |].
      rewrite bind_run. cbn [read_db]. unfold ignore_guard. rewrite Hfind. reflexivity.
    + destruct (keep_in_mailbox first); reflexivity.
  - exfalso. apply (find_none _ _ Hfind) in Hin. congruence.
Qed.

Lemma ignore_list_outcome_witness :
  exists first,
    List.find (fun r => existsb (fun a => ignore_test (Fixture.env false false) r (snd a))
                          (screened_addresses (Fixture.env false false) Fixture.loop_mail))
      (ignore_rules Fixture.ignoring_db 1) = Some first
    /\ object_from_message (Fixture.env false false) Fixture.loop_mail 1 Fixture.queues
         Fixture.ignoring_db
       = (inr (RBool (negb (keep_in_mailbox first))), Fixture.ignoring_db)
    /\ acknowledge (RBool (negb (keep_in_mailbox first)))
       = if keep_in_mailbox first then Retain else Consume.
Proof.
  apply (ignore_list_outcome (Fixture.env false false) Fixture.loop_mail 1 Fixture.queues
           Fixture.ignoring_db Fixture.keep_rule).
  - vm_compute. discriminate.
  - left. reflexivity.
  - reflexivity.
Defined.

Lemma delete_ccs_tickets (tid : nat) (addresses : list string) (db : DB) :
  tickets (delete_ccs tid addresses db) = tickets db
  /\ followups (delete_ccs tid addresses db) = followups db.
Proof.
  revert db. induction addresses as [|a l IH]; intros db; [split; reflexivity |].
  unfold delete_ccs in *. simpl. destruct (IH (TicketCC_delete tid a db)) as [Ht Hf].
  rewrite Ht, Hf. split; reflexivity.
Qed.

(** The subscriptions that remain are those of other tickets and those
    whose address, compared without case, is none of the given ones. *)
Lemma delete_ccs_spec (tid : nat) (addresses : list string) (db : DB) (cc : TicketCC) :
  In cc (ticketccs (delete_ccs tid addresses db))
  <-> In cc (ticketccs db)
      /\ (cc_ticket cc = tid ->
          forall a, In a addresses -> Str.lower (cc_email cc) <> Str.lower a).
Proof.
  revert db. induction addresses as [|a l IH]; intros db.
  - simpl. split; [intros H; split; [exact H | intros _ a []] | tauto].
  - unfold delete_ccs in *. simpl. rewrite IH. unfold TicketCC_delete. simpl.
    rewrite filter_In. unfold cc_matches.
    rewrite negb_true_iff, andb_false_iff, Nat.eqb_neq.
    split.
    + intros [[Hin Hno] Hrest]. split; [exact Hin |].
      intros Htid b [<- | Hb]; [| now apply Hrest].
      destruct Hno as [Hno | Hno]; [contradiction |].
      intros Heq. rewrite Heq, String.eqb_refl in Hno. discriminate.
    + intros [Hin Hall]. split; [split; [exact Hin |] |].
      * destruct (Nat.eq_dec (cc_ticket cc) tid) as [Htid | Htid]; [right | now left].
        apply String.eqb_neq. apply (Hall Htid). now left.
      * intros Htid b Hb. apply (Hall Htid). now right.
Qed.

Lemma loop_has_addresses (message : Message) (sender_address : string) (queue : Queue)
  (to_list : list (string * string)) :
  is_loop message sender_address queue = true ->
  forwarded_addresses
    (String.eqb (Str.lower sender_address) (Str.lower (email_address queue)))
    (get message "X-BEAMHelpdesk-Delivered") to_list <> None.
Proof.
  unfold is_loop, forwarded_addresses.
  destruct (get message "X-BEAMHelpdesk-Delivered").
  - rewrite andb_false_r. discriminate.
  - simpl. intros ->. discriminate.
Qed.

Lemma heal_loop_run (ticket : option string) (sender_is_queue : bool)
  (auto_forward : option string) (to_list : list (string * string)) (db : DB) :
  heal_loop ticket sender_is_queue auto_forward to_list db =
  if truthy ticket && Ticket_exists db (Str.int_of_digits (default "" ticket))
  then match forwarded_addresses sender_is_queue auto_forward to_list with
       | Some addresses =>
           (inr tt, delete_ccs (Str.int_of_digits (default "" ticket)) addresses db)
       | None => (inl AttributeError, db)
       end
  else (inr tt, db).
Proof.
  unfold heal_loop. rewrite bind_run. cbn [read_db].
  destruct (truthy ticket && Ticket_exists db (Str.int_of_digits (default "" ticket)));
    [| reflexivity].
  destruct (forwarded_addresses sender_is_queue auto_forward to_list); reflexivity.
Qed.

(** C6 as stated fails: a message from the queue's own address that also
    carries the loop marker is kept (Retain) when an ignore rule with the
    keep flag matches its sender. *)
Lemma loop_behind_ignore_list :
  ~ (forall (E : Env) (message : Message) (importer : nat) (queues : Queues) (db : DB),
       let sender := sender_of E message in
       let queue := snd (classify E queues (clean_subject E message) (snd sender)) in
       is_loop message (snd sender) queue = true ->
       exists r, fst (object_from_message E message importer queues db) = inr r
                 /\ acknowledge r = Consume).
Proof.
  intros H.
  destruct (H (Fixture.env false false) Fixture.loop_mail 1 Fixture.queues
              Fixture.ignoring_db) as (r & Hr & Hack).
  - reflexivity.
  - vm_compute in Hr. inversion Hr; subst r. discriminate Hack.
Qed.

(** C6, amended: for every message that passes the sender check and the
    ignore list, and whose sender address equals (without regard to case)
    the address of the resolved queue or which carries the header
    X-BEAMHelpdesk-Delivered, the outcome is Consume and no Ticket or
    FollowUp is created, whatever tracking tag the subject carries; when the
    tracking id names an existing ticket, exactly the TicketCC records of
    that ticket whose address is one of the forwarded addresses (compared
    without case) are deleted, and otherwise none is. *)
Theorem forwarding_loop_consumed
  (E : Env) (message : Message) (importer : nat) (queues : Queues) (db : DB) :
  let sender := sender_of E message in
  let classified := classify E queues (clean_subject E message) (snd sender) in
  let addresses :=
    default []
      (forwarded_addresses
         (String.eqb (Str.lower (snd sender)) (Str.lower (email_address (snd classified))))
         (get message "X-BEAMHelpdesk-Delivered")
         (getaddresses E (get_all message "To"))) in
  snd sender <> "" ->
  ignore_guard E (ignore_rules db importer) (screened_addresses E message) = None ->
  is_loop message (snd sender) (snd classified) = true ->
  exists db',
    object_from_message E message importer queues db = (inr (RBool true), db')
    /\ acknowledge (RBool true) = Consume
    /\ tickets db' = tickets db
    /\ followups db' = followups db
    /\ (forall cc,
          In cc (ticketccs db')
          <-> In cc (ticketccs db)
              /\ (forall d, fst classified = Some d ->
                    Ticket_exists db (Str.int_of_digits d) = true ->
                    cc_ticket cc = Str.int_of_digits d ->
                    forall a, In a addresses -> Str.lower (cc_email cc) <> Str.lower a)).
Proof.
  intros sender classified addresses Hsender Hignore Hloop.
  unfold object_from_message. fold sender.
  destruct (String.eqb_spec (snd sender) "") as [Heq | _]; [contradiction |].
  rewrite bind_run. cbn [read_db]. rewrite Hignore. fold classified. rewrite Hloop.
  pose proof (loop_has_addresses message (snd sender) (snd classified)
                (getaddresses E (get_all message "To")) Hloop) as Haddr.
  subst addresses.
  destruct (forwarded_addresses _ _ _) as [addresses|] eqn:Hfwd; [| contradiction].
  rewrite bind_run, heal_loop_run, Hfwd.
  destruct (fst classified) as [d|] eqn:Hd.
  - assert (Hne : d <> "") by (apply (classify_id_nonempty _ _ _ _ _ Hd)).
    assert (Htruthy : truthy (Some d) = true) by (destruct d; [contradiction | reflexivity]).
    rewrite Htruthy. cbn [andb default].
    change (id d) with d.
    destruct (Ticket_exists db (Str.int_of_digits d)) eqn:Hex.
    + cbn [ret].
      exists (delete_ccs (Str.int_of_digits d) addresses db).
      destruct (delete_ccs_tickets (Str.int_of_digits d) addresses db) as [Ht Hf].
      split; [reflexivity |]. split; [reflexivity |].
      split; [exact Ht |]. split; [exact Hf |].
      intros cc. rewrite delete_ccs_spec. cbn [default]. split.
      * intros [Hin Hall]. split; [exact Hin |].
        intros d' Hd' _ Htid. inversion Hd'; subst d'. now apply Hall.
      * intros [Hin Hall]. split; [exact Hin |]. intros Htid. now apply (Hall d).
    + cbn [ret]. exists db.
      split; [reflexivity |]. split; [reflexivity |].
      split; [reflexivity |]. split; [reflexivity |].
      intros cc. split; [| tauto]. intros Hin. split; [exact Hin |].
      intros d' Hd' Hex'. inversion Hd'; subst d'. congruence.
  - cbn [truthy andb ret]. exists db.
    split; [reflexivity |]. split; [reflexivity |].
    split; [reflexivity |]. split; [reflexivity |].
    intros cc. split; [| tauto]. intros Hin. split; [exact Hin |].
    intros d Hd'. discriminate Hd'.
Qed.

Lemma forwarding_loop_consumed_witness :
  exists db',
    object_from_message (Fixture.env false false) Fixture.loop_mail 1 Fixture.queues
      Fixture.loop_db = (inr (RBool true), db')
    /\ followups db' = followups Fixture.loop_db
    /\ (In (mkTicketCC 1 None "other@x.com") (ticketccs db')
        /\ ~ In (mkTicketCC 1 None "User@x.com") (ticketccs db')).
Proof.
  destruct (forwarding_loop_consumed (Fixture.env false false) Fixture.loop_mail 1
              Fixture.queues Fixture.loop_db) as (db' & Hrun & _ & _ & Hf & Hcc).
  - vm_compute. discriminate.
  - reflexivity.
  - reflexivity.
  - exists db'. split; [exact Hrun |]. split; [exact Hf |]. split.
    + apply Hcc. split; [right; left; reflexivity |].
      intros d Hd _ _ a Ha. vm_compute in Ha. destruct Ha as [<- | []]. discriminate.
    + intros Hin. apply Hcc in Hin as [_ Hall].
      apply (Hall "1" eq_refl eq_refl eq_refl "user@x.com"); [left |]; reflexivity.
Defined.

(** ** The follow-up of an inbound message *)

Lemma preserves_ret {A : Type} (I : DB -> Prop) (a : A) : preserves I (ret a).
Proof. intros db H. exact H. Qed.

Lemma preserves_raise {A : Type} (I : DB -> Prop) (e : Exn) : preserves I (@raise A e).
Proof. intros db H. exact H. Qed.

Lemma preserves_bind_returns {A B : Type} (I : DB -> Prop) (c : M A) (k : A -> M B)
  (Q : A -> Prop) :
  preserves I c -> returns c Q -> (forall a, Q a -> preserves I (k a)) ->
  preserves I (bind c k).
Proof.
  intros Hc Hq Hk db HI. unfold bind. specialize (Hc db HI). specialize (Hq db).
  destruct (c db) as [[e | a] db1]; simpl in *; [exact Hc |].
  apply (Hk a); [now apply (Hq a db1) | exact Hc].
Qed.

Lemma same_record_refl (F : FollowUp) : same_record F F.
Proof. repeat split. Qed.

Lemma keeps_appended {A : Type} (old : list FollowUp) (F : FollowUp) (c : M A) :
  keeps followups c -> preserves (appended old F) c.
Proof.
  apply keeps_preserves. intros db db' Heq (f & Hf & Hs).
  exists f. split; [congruence | exact Hs].
Qed.

Lemma FollowUp_save_appended (old : list FollowUp) (F f : FollowUp) :
  same_record F f -> preserves (appended old F) (FollowUp_save (length old, f)).
Proof.
  intros Hs db (f0 & Hf & _). exists f. split; [| exact Hs].
  unfold FollowUp_save. cbn [snd fst followups set_followups]. rewrite Hf.
  rewrite insert_app_r_alt by lia. now rewrite Nat.sub_diag.
Qed.

(** Lines 507-532 rewrite title and [new_status] of the new follow-up and
    nothing else of it. *)
Lemma update_ticket_status_appended (E : Env) (sender_email : string)
  (ticket : option (nat * Ticket)) (old : list FollowUp) (F f : FollowUp) :
  same_record F f ->
  preserves (appended old F) (update_ticket_status E sender_email ticket (length old, f)).
Proof.
  intros Hs. unfold update_ticket_status.
  apply preserves_bind;
    [apply keeps_appended, keeps_User_first_by_email; reflexivity | intros updater].
  destruct ticket as [[tid t] |]; [| apply preserves_raise].
  apply preserves_bind;
    [apply keeps_appended, keeps_User_first_by_email; reflexivity | intros submitter].
  apply preserves_bind.
  { apply keeps_appended. destruct (is_helpdesk_staff E (option_map row submitter) _).
    - apply keeps_bind; [apply keeps_related_user; reflexivity | intros a; apply keeps_ret].
    - apply keeps_ret. }
  intros differs.
  apply (preserves_bind_returns _ _ _ (fun changed => same_record F (snd changed))).
  - apply keeps_appended. frame.
  - intros db changed db' Hrun.
    destruct (status_transition _ (status t)) as [s |].
    + unfold bind in Hrun.
      destruct (_ && is_closed (status t)); [destruct (is_helpdesk_staff E _ _) |];
        try destruct updater as [u |]; inversion Hrun; subst; exact Hs.
    + inversion Hrun; subst. exact Hs.
  - intros changed Hchanged.
    apply preserves_bind; [apply keeps_appended; intros db; reflexivity | intros _].
    apply preserves_bind; [now apply FollowUp_save_appended | intros _].
    apply preserves_ret.
Qed.

Lemma returns_update_ticket_status (E : Env) (sender_email : string)
  (ticket : option (nat * Ticket)) (f : nat * FollowUp) :
  returns (update_ticket_status E sender_email ticket f)
    (fun updated => fst (snd updated) = fst f
                    /\ option_map fst (fst updated) = option_map fst ticket).
Proof.
  intros db updated db' Hrun. unfold update_ticket_status in Hrun.
  rewrite bind_run in Hrun.
  destruct (User_first_by_email sender_email db) as [[e | updater] db1]; [discriminate |].
  destruct ticket as [[tid t] |]; [| discriminate].
  rewrite bind_run in Hrun.
  destruct (User_first_by_email (submitter_email t) db1) as [[e | submitter] db2];
    [discriminate |].
  rewrite bind_run in Hrun.
  match type of Hrun with
  | match ?c db2 with _ => _ end = _ => destruct (c db2) as [[e | differs] db3]
  end; [discriminate |].
  rewrite bind_run in Hrun.
  match type of Hrun with
  | match ?c db3 with _ => _ end = _ => destruct (c db3) as [[e | changed] db4]
  end; [discriminate |].
  inversion Hrun; subst. split; reflexivity.
Qed.

(** Peeling a statement that leaves the follow-ups alone off a run. *)
Lemma peel_keeps {A B : Type} (c : M A) (k : A -> M B) (G : DB -> Prop)
  (old : list FollowUp) (db : DB) :
  followups db = old ->
  keeps followups c ->
  (forall db1, followups db1 = old -> G db1) ->
  (forall a db1, followups db1 = old -> G (snd (k a db1))) ->
  G (snd (bind c k db)).
Proof.
  intros Hold Hc Hraise Hk. unfold bind. specialize (Hc db).
  destruct (c db) as [[e | a] db1]; simpl in *.
  - apply Hraise. congruence.
  - apply Hk. congruence.
Qed.

Lemma keeps_resolve_ticket {X : Type} (proj : DB -> X) (E : Env) message ticket_id :
  keeps proj (resolve_ticket E message ticket_id).
Proof.
  unfold resolve_ticket.
  apply keeps_bind; [apply keeps_ticket_in_reply_to | intros found].
  apply keeps_ticket_from_id.
Qed.

(** Lines 498-597 leave the follow-ups as they were (when the insert is
    refused) or add the row of lines 498-505, of which only title and
    [new_status] are rewritten afterwards. *)
Lemma record_followup_appends (E : Env) (message : Message) (payload : Payload)
  (files : list UploadedFile) (created : option (nat * Ticket) * bool) (db : DB) :
  let db' := snd (record_followup E message payload files created db) in
  (followups db' = followups db
   /\ f_ticket (new_followup E message payload (fst created)) = None
   /\ followup_ticket_nullable E = false)
  \/ appended (followups db) (new_followup E message payload (fst created)) db'.
Proof.
  cbv zeta. unfold record_followup.
  set (F := new_followup E message payload (fst created)).
  set (old := followups db).
  rewrite bind_run.
  assert (Hok : appended old F
            (snd ((fun db4 =>
              (updated <- (if negb (snd created)
                           then update_ticket_status E (snd (p_sender payload))
                                  (fst created) (length old, F)
                           else ret (fst created, (length old, F))) ;;
               match fst updated with
               | None => raise AttributeError
               | Some ticket =>
                   _ <- emit (ProcessAttachments (fst (snd updated)) files) ;;
                   _ <- create_ticket_cc E ticket
                          (p_to_list payload ++ p_cc_list payload) ;;
                   _ <- notify message (p_queue payload) ticket (snd created) ;;
                   ret ticket
               end) db4) (set_followups (old ++ [F]) db)))).
  { cbv beta.
    assert (H0 : appended old F (set_followups (old ++ [F]) db))
      by (exists F; split; [reflexivity | apply same_record_refl]).
    revert H0. generalize (set_followups (old ++ [F]) db). apply preserves_bind.
    - destruct (negb (snd created));
        [apply update_ticket_status_appended, same_record_refl | apply preserves_ret].
    - intros updated. destruct (fst updated) as [t |]; [| apply preserves_raise].
      apply keeps_appended.
      apply keeps_bind; [apply keeps_emit; reflexivity | intros _].
      apply keeps_bind; [apply keeps_create_ticket_cc; reflexivity | intros _].
      apply keeps_bind; [apply keeps_notify; reflexivity | intros _].
      apply keeps_ret. }
  unfold FollowUp_create.
  destruct (f_ticket F) eqn:Hft; [right; exact Hok |].
  destruct (followup_ticket_nullable E); [right; exact Hok |].
  left. auto.
Qed.

(** Whatever [create_object_from_email_message] does, the table of
    follow-ups is afterwards what it was, or what it was with one more row:
    a public follow-up with the comment and the message id of the
    message. *)
Lemma create_object_followups (E : Env) (message : Message) (ticket_id : option string)
  (payload : Payload) (files : list UploadedFile) (db : DB) :
  let db' := snd (create_object_from_email_message E message ticket_id payload files db) in
  followups db' = followups db
  \/ exists f,
       followups db' = followups db ++ [f]
       /\ f_public f = true
       /\ f_comment f = py_or (p_full_body payload) (Some "")
       /\ f_message_id f = snd (parseaddr E (get message "Message-Id")).
Proof.
  cbv zeta. unfold create_object_from_email_message.
  set (old := followups db).
  pose (G := fun db' : DB =>
          followups db' = old
          \/ exists f, followups db' = old ++ [f] /\ f_public f = true
               /\ f_comment f = py_or (p_full_body payload) (Some "")
               /\ f_message_id f = snd (parseaddr E (get message "Message-Id"))).
  match goal with |- _ (snd ?run) = _ \/ _ => change (G (snd run)) end.
  apply (peel_keeps _ _ G old); [reflexivity | apply keeps_resolve_ticket | now left |].
  intros ticket db2 H2.
  apply (peel_keeps _ _ G old);
    [exact H2 | apply keeps_new_ticket; reflexivity | now left |].
  intros created db3 H3.
  destruct (record_followup_appends E message payload files created db3)
    as [(Hsame & _) | (f & Hf & _ & _ & Hp & Hc & Hm)].
  - left. congruence.
  - right. exists f. rewrite H3 in Hf. auto.
Qed.

Lemma comment_of_payload (body : string) (full_body : option string) :
  py_or (py_or full_body (Some body)) (Some "") = Some (comment_text body full_body).
Proof.
  destruct full_body as [[| c s] |]; unfold py_or, comment_text; simpl;
    destruct body; reflexivity.
Qed.

Lemma snd_bind_ret {A B : Type} (c : M A) (g : A -> B) (db : DB) :
  snd (bind c (fun a => ret (g a)) db) = snd (c db).
Proof. unfold bind. destruct (c db) as [[e | a] db1]; reflexivity. Qed.

Lemma keeps_heal_loop {X : Type} (proj : DB -> X) ticket sender_is_queue auto_forward to_list :
  (forall l db, proj (set_ticketccs l db) = proj db) ->
  keeps proj (heal_loop ticket sender_is_queue auto_forward to_list).
Proof.
  intros H db. rewrite heal_loop_run.
  destruct (_ && _); [| reflexivity].
  destruct (forwarded_addresses _ _ _) as [addresses |]; [| reflexivity].
  cbn [snd]. generalize (Str.int_of_digits (default "" ticket)) as tid. intros tid.
  revert db. induction addresses as [| a l IH]; intros db; [reflexivity |].
  unfold delete_ccs in *. simpl. rewrite IH. apply H.
Qed.

(** C10: every FollowUp the ingestion of an inbound message creates is
    created public, with a comment that is a string and never null (the
    full body when one was extracted, otherwise the plain body, which is
    the empty string when there is none), and with the message id of the
    message.  The table of follow-ups is afterwards what it was, or what it
    was with that one row added. *)
Theorem followup_public_with_comment
  (E : Env) (message : Message) (importer : nat) (queues : Queues) (db : DB) :
  let db' := snd (object_from_message E message importer queues db) in
  let ticket :=
    fst (classify E queues (clean_subject E message) (snd (sender_of E message))) in
  let bodies := fallback_body E message (walk_parts E ticket (walk message)) in
  followups db' = followups db
  \/ exists f,
       followups db' = followups db ++ [f]
       /\ f_public f = true
       /\ f_comment f = Some (comment_text (fst bodies) (snd bodies))
       /\ f_message_id f = snd (parseaddr E (get message "Message-Id")).
Proof.
  cbv zeta. unfold object_from_message.
  destruct (String.eqb (snd (sender_of E message)) ""); [now left |].
  rewrite bind_run. cbn [read_db].
  destruct (ignore_guard E _ _); [now left |].
  destruct (is_loop message _ _).
  - left. rewrite snd_bind_ret. apply keeps_heal_loop. reflexivity.
  - rewrite snd_bind_ret.
    match goal with
    | |- context [create_object_from_email_message E message ?t ?p ?fs db] =>
        destruct (create_object_followups E message t p fs db)
          as [Hsame | (f & Hf & Hp & Hc & Hm)]
    end.
    + now left.
    + right. exists f. cbn [p_full_body] in Hc. rewrite comment_of_payload in Hc. auto.
Qed.

(** A first message does create its follow-up: the table grows by the row
    described above. *)
Example followup_of_first_message :
  followups (snd (object_from_message (Fixture.env false false) Fixture.unmatched_mail 1
                    Fixture.queues Fixture.empty_db))
  = [mkFollowUp (Some 0) "E-Mail Received from user@x.com" 100 true (Some "it is broken")
       "m9@x.com" None].
Proof. vm_compute. reflexivity. Qed.

(** ** Resolving the ticket of a message *)

Lemma resolve_ticket_none (E : Env) (message : Message) (ticket_id : option string)
  (db : DB) :
  let in_reply_to := snd (parseaddr E (get message "In-Reply-To")) in
  in_reply_to = "" \/ FollowUp_latest db in_reply_to = None ->
  (forall d, ticket_id = Some d -> tickets db !! Str.int_of_digits d = None) ->
  resolve_ticket E message ticket_id db = (inr None, db).
Proof.
  cbv zeta. intros Hreply Hid. unfold resolve_ticket. rewrite bind_run.
  assert (H1 : ticket_in_reply_to (snd (parseaddr E (get message "In-Reply-To"))) db
               = (inr (None, None), db)).
  { unfold ticket_in_reply_to. destruct Hreply as [-> | Hnone]; [reflexivity |].
    destruct (Str.nonempty _); [| reflexivity].
    rewrite bind_run. cbn [read_db]. now rewrite Hnone. }
  rewrite H1. cbn [fst snd ticket_from_id].
  destruct ticket_id as [d |]; [| reflexivity].
  rewrite bind_run. unfold Ticket_get. rewrite bind_run. cbn [read_db ret].
  now rewrite (Hid d eq_refl).
Qed.

(** C1 (the code departs from the specification): with update-only mode on and no
    ticket resolved, no Ticket is created, but the run is not a no-op
    success: line 498 still inserts a FollowUp, with no ticket.  Where
    [FollowUp.ticket] refuses NULL the insert raises; where it admits NULL
    the orphan follow-up is recorded and line 509 then reads
    [ticket.submitter_email] on [None] and raises. *)
Theorem update_only_unmatched_raises
  (E : Env) (message : Message) (ticket_id : option string) (payload : Payload)
  (files : list UploadedFile) (db : DB) :
  let in_reply_to := snd (parseaddr E (get message "In-Reply-To")) in
  QUEUE_EMAIL_BOX_UPDATE_ONLY E = true ->
  in_reply_to = "" \/ FollowUp_latest db in_reply_to = None ->
  (forall d, ticket_id = Some d -> tickets db !! Str.int_of_digits d = None) ->
  exists e db',
    create_object_from_email_message E message ticket_id payload files db = (inl e, db')
    /\ tickets db' = tickets db
    /\ (if followup_ticket_nullable E
        then e = AttributeError
             /\ exists f, followups db' = followups db ++ [f] /\ f_ticket f = None
        else e = IntegrityError /\ followups db' = followups db).
Proof.
  cbv zeta. intros Hmode Hreply Hid.
  unfold create_object_from_email_message.
  rewrite bind_run, (resolve_ticket_none E message ticket_id db Hreply Hid).
  rewrite bind_run. unfold new_ticket. rewrite Hmode. cbn [negb ret].
  unfold record_followup. rewrite bind_run. unfold FollowUp_create.
  cbn [fst snd new_followup f_ticket option_map].
  destruct (followup_ticket_nullable E).
  - rewrite bind_run. cbn [negb]. unfold update_ticket_status.
    rewrite bind_run. unfold User_first_by_email. rewrite bind_run. cbn [read_db].
    destruct (List.find _ _) as [u |].
    + rewrite bind_run. cbn [instantiate ret raise].
      eexists _, _. split; [reflexivity |]. split; [reflexivity |].
      split; [reflexivity |]. eexists. split; reflexivity.
    + cbn [ret raise].
      eexists _, _. split; [reflexivity |]. split; [reflexivity |].
      split; [reflexivity |]. eexists. split; reflexivity.
  - eexists _, _. split; [reflexivity |]. split; [reflexivity |]. split; reflexivity.
Qed.

Lemma update_only_unmatched_raises_witness :
  exists e db',
    create_object_from_email_message (Fixture.env true true) Fixture.unmatched_mail None
      (mkPayload "it is broken" (Some "it is broken") "printer broken" Fixture.support
         ("", "user@x.com") 3 [] [] [])
      [] Fixture.empty_db = (inl e, db')
    /\ tickets db' = tickets Fixture.empty_db
    /\ e = AttributeError
    /\ exists f, followups db' = followups Fixture.empty_db ++ [f] /\ f_ticket f = None.
Proof.
  apply (update_only_unmatched_raises (Fixture.env true true) Fixture.unmatched_mail None
           (mkPayload "it is broken" (Some "it is broken") "printer broken" Fixture.support
              ("", "user@x.com") 3 [] [] [])
           [] Fixture.empty_db).
  - reflexivity.
  - left. reflexivity.
  - intros d Hd. discriminate Hd.
Defined.

(** The whole importer on the unmatched message, update-only mode on:
    an exception reaches the transport, whichever way the column is
    declared. *)
Example update_only_unmatched_end_to_end :
  fst (object_from_message (Fixture.env true false) Fixture.unmatched_mail 1
         Fixture.queues Fixture.empty_db) = inl IntegrityError
  /\ fst (object_from_message (Fixture.env true true) Fixture.unmatched_mail 1
            Fixture.queues Fixture.empty_db) = inl AttributeError.
Proof. split; reflexivity. Qed.

(** C2 (the code departs from the specification): a ticket found through
    In-Reply-To is taken as it is, also when its [merged_to] is set; the
    redirection of lines 471-474 belongs to the tracking-id path only.  The
    new follow-up is recorded on the merged ticket itself. *)
Theorem in_reply_to_keeps_merged_ticket
  (E : Env) (message : Message) (ticket_id : option string) (payload : Payload)
  (files : list UploadedFile) (db : DB)
  (previous_followup : nat * FollowUp) (tid target : nat) (t : Ticket) :
  let in_reply_to := snd (parseaddr E (get message "In-Reply-To")) in
  in_reply_to <> "" ->
  FollowUp_latest db in_reply_to = Some previous_followup ->
  f_ticket (snd previous_followup) = Some tid ->
  tickets db !! tid = Some t ->
  merged_to t = Some target ->
  resolve_ticket E message ticket_id db = (inr (Some (tid, t)), db)
  /\ exists f,
       followups (snd (create_object_from_email_message E message ticket_id payload files db))
       = followups db ++ [f]
       /\ f_ticket f = Some tid.
Proof.
  cbv zeta. intros Hne Hlatest Hft Ht _.
  assert (Hres : resolve_ticket E message ticket_id db = (inr (Some (tid, t)), db)).
  { unfold resolve_ticket. rewrite bind_run. unfold ticket_in_reply_to.
    destruct (snd (parseaddr E (get message "In-Reply-To"))) as [| c s] eqn:Hirt;
      [contradiction |].
    cbn [Str.nonempty]. rewrite bind_run. cbn [read_db]. rewrite Hlatest, Hft.
    rewrite bind_run. unfold related_ticket. rewrite bind_run. cbn [read_db].
    rewrite Ht. reflexivity. }
  split; [exact Hres |].
  unfold create_object_from_email_message. rewrite bind_run, Hres.
  rewrite bind_run. cbn [new_ticket ret].
  destruct (record_followup_appends E message payload files (Some (tid, t), false) db)
    as [(_ & Hnone & _) | (f & Hf & Hticket & _)].
  - discriminate Hnone.
  - exists f. split; [exact Hf | exact Hticket].
Qed.

Lemma in_reply_to_keeps_merged_ticket_witness :
  resolve_ticket (Fixture.env false false) Fixture.reply_mail None Fixture.merged_db
  = (inr (Some (1, Fixture.ticket_of "user@x.com" None CLOSED_STATUS (Some 2))),
     Fixture.merged_db)
  /\ exists f,
       followups
         (snd (create_object_from_email_message (Fixture.env false false) Fixture.reply_mail
                 None
                 (mkPayload "still broken" (Some "still broken") "printer broken"
                    Fixture.support ("", "user@x.com") 3 [] [] [])
                 [] Fixture.merged_db))
       = followups Fixture.merged_db ++ [f]
       /\ f_ticket f = Some 1.
Proof.
  apply (in_reply_to_keeps_merged_ticket (Fixture.env false false) Fixture.reply_mail None
           (mkPayload "still broken" (Some "still broken") "printer broken"
              Fixture.support ("", "user@x.com") 3 [] [] [])
           [] Fixture.merged_db
           (0, mkFollowUp (Some 1) "E-Mail Received from user@x.com" 20 true (Some "first")
                 "m1@x.com" None)
           1 2 (Fixture.ticket_of "user@x.com" None CLOSED_STATUS (Some 2))).
  - discriminate.
  - reflexivity.
  - reflexivity.
  - reflexivity.
  - reflexivity.
Defined.

(** The whole importer on the reply: the merged ticket 1 is reopened and
    gets the follow-up; its merge target 2 is left as it was. *)
Example in_reply_to_reopens_merged_ticket :
  let run := object_from_message (Fixture.env false false) Fixture.reply_mail 1
               Fixture.queues Fixture.merged_db in
  fst run = inr (RTicket 1)
  /\ option_map merged_to (tickets Fixture.merged_db !! 1) = Some (Some 2)
  /\ option_map status (tickets Fixture.merged_db !! 1) = Some CLOSED_STATUS
  /\ option_map status (tickets (snd run) !! 1) = Some REOPENED_STATUS
  /\ option_map f_ticket (followups (snd run) !! 1) = Some (Some 1)
  /\ tickets (snd run) !! 2 = tickets Fixture.merged_db !! 2.
Proof. vm_compute. repeat split. Qed.

(** The sibling path, lines 461-474: a ticket found through the tracking id
    is replaced by the ticket it was merged to. *)
Lemma tracking_id_resolves_to_merge_target (E : Env) (message : Message) (d : string)
  (db : DB) (t merged : Ticket) (target : nat) :
  let in_reply_to := snd (parseaddr E (get message "In-Reply-To")) in
  in_reply_to = "" \/ FollowUp_latest db in_reply_to = None ->
  tickets db !! Str.int_of_digits d = Some t ->
  merged_to t = Some target ->
  tickets db !! target = Some merged ->
  resolve_ticket E message (Some d) db = (inr (Some (target, merged)), db).
Proof.
  cbv zeta. intros Hreply Ht Hm Htarget. unfold resolve_ticket. rewrite bind_run.
  assert (H1 : ticket_in_reply_to (snd (parseaddr E (get message "In-Reply-To"))) db
               = (inr (None, None), db)).
  { unfold ticket_in_reply_to. destruct Hreply as [-> | Hnone]; [reflexivity |].
    destruct (Str.nonempty _); [| reflexivity].
    rewrite bind_run. cbn [read_db]. now rewrite Hnone. }
  rewrite H1. cbn [fst snd ticket_from_id].
  rewrite bind_run. unfold Ticket_get. rewrite bind_run. cbn [read_db ret].
  rewrite Ht. cbn [option_map snd]. rewrite Hm.
  rewrite bind_run. unfold related_ticket. rewrite bind_run. cbn [read_db].
  rewrite Htarget. reflexivity.
Qed.

(** The sibling path: the same reply carrying the tracking tag of ticket 1
    is redirected to ticket 2, and ticket 1 is left as it was. *)
Example tracking_id_follows_merge :
  let run := object_from_message (Fixture.env false false) Fixture.tagged_reply_mail 1
               Fixture.queues Fixture.merged_db in
  fst run = inr (RTicket 2)
  /\ option_map f_ticket (followups (snd run) !! 1) = Some (Some 2)
  /\ tickets (snd run) !! 1 = tickets Fixture.merged_db !! 1.
Proof. vm_compute. repeat split. Qed.

(** ** Who updates the ticket *)

(** Two instances materialised one after the other are two objects. *)
Lemma instances_differ {A : Type} (a b : A) (h h' : nat) :
  h < h' -> py_is (Some (mkObj h a)) (Some (mkObj h' b)) = false.
Proof. intros H. cbn [py_is addr]. apply Nat.eqb_neq. lia. Qed.

Lemma User_first_by_email_run (email : string) (db : DB) :
  User_first_by_email email db =
  match List.find (fun u => String.eqb (u_email u) email) (users db) with
  | Some u => (inr (Some (mkObj (heap_next db) u)), set_heap_next (S (heap_next db)) db)
  | None => (inr None, db)
  end.
Proof.
  unfold User_first_by_email. rewrite bind_run. cbn [read_db].
  destruct (List.find _ _); reflexivity.
Qed.

Lemma related_user_run (uid : nat) (db : DB) :
  related_user (Some uid) db =
  match List.find (fun u => u_id u =? uid) (users db) with
  | Some u => (inr (Some (mkObj (heap_next db) u)), set_heap_next (S (heap_next db)) db)
  | None => (inl DoesNotExist, db)
  end.
Proof.
  unfold related_user. rewrite bind_run. cbn [read_db].
  destruct (List.find _ _); reflexivity.
Qed.

(** C4 (the code departs from the specification): line 512 compares the updater
    with the assignee by object identity ([is not]), and the two are rows
    fetched by two queries, hence two objects: the test is true also when
    the updater is the assignee.  So when a staff member answers a ticket
    that a staff member submitted and that is assigned to the one who
    answers, the update is still handled as a public update: the status
    after it is [update_status true], where the specification prescribes the other
    branch. *)
Theorem assignee_reply_is_public_update
  (E : Env) (sender_email : string) (tid : nat) (t : Ticket) (f : nat * FollowUp)
  (db : DB) (u : User) :
  List.find (fun u' => String.eqb (u_email u') sender_email) (users db) = Some u ->
  assigned_to t = Some (u_id u) ->
  List.find (fun u' => u_id u' =? u_id u) (users db) = Some u ->
  is_helpdesk_staff E (Some u) (ticket_form_org t) = true ->
  is_helpdesk_staff E
    (List.find (fun u' => String.eqb (u_email u') (submitter_email t)) (users db))
    (ticket_form_org t) = true ->
  exists updated db',
    update_ticket_status E sender_email (Some (tid, t)) f db = (inr updated, db')
    /\ option_map status (tickets db' !! tid) = Some (update_status true (status t)).
Proof.
  intros Hupdater Hassigned Hrow Hstaff Hsubmitter.
  unfold update_ticket_status.
  rewrite bind_run, User_first_by_email_run, Hupdater.
  rewrite bind_run, User_first_by_email_run. cbn [users set_heap_next heap_next].
  set (h := heap_next db).
  set (submitter := List.find (fun u' => String.eqb (u_email u') (submitter_email t))
                      (users db)) in *.
  assert (Hdiffers : exists db2 h2,
             h < h2 /\ heap_next db2 = h2 /\ users db2 = users db
             /\ tickets db2 = tickets db
             /\ (match submitter with
                 | Some s => (inr (Some (mkObj (S h) s)),
                              set_heap_next (S (S h)) (set_heap_next (S h) db))
                 | None => (@inr Exn _ None, set_heap_next (S h) db)
                 end)
                = (inr (option_map (mkObj (S h)) submitter), db2)).
  { destruct submitter.
    - exists (set_heap_next (S (S h)) (set_heap_next (S h) db)), (S (S h)).
      repeat split; cbn; lia.
    - exists (set_heap_next (S h) db), (S h). repeat split; cbn; lia. }
  destruct Hdiffers as (db2 & h2 & Hlt & Hheap & Husers & Htickets & ->).
  assert (Hsub : option_map row (option_map (mkObj (S h)) submitter) = submitter)
    by (destruct submitter; reflexivity).
  rewrite Hsub, Hsubmitter. cbn [option_map row]. rewrite Hstaff.
  rewrite !bind_run, Hassigned, related_user_run, Husers, Hrow, Hheap.
  cbn [ret]. rewrite (instances_differ u u h h2 Hlt). cbn [negb public_update andb orb].
  destruct (status t) eqn:Hst; cbn [status_transition is_closed andb];
    rewrite ?bind_run; cbn [ret Ticket_save FollowUp_save fst snd];
    eexists _, _; (split; [reflexivity |]);
    cbn [tickets set_tickets set_followups set_heap_next];
    rewrite lookup_insert_eq; cbn [option_map fst snd]; f_equal;
    unfold set_status; cbn [status]; rewrite ?Hst; reflexivity.
Qed.

Lemma assignee_reply_is_public_update_witness :
  exists updated db',
    update_ticket_status (Fixture.env false false) "bob@example.com"
      (Some (42, Fixture.ticket_of "alice@example.com" (Some 2) OPEN_STATUS None))
      (0, mkFollowUp (Some 42) "E-Mail Received from bob@example.com" 100 true
            (Some "fixed") "m3@example.com" None)
      Fixture.internal_db = (inr updated, db')
    /\ option_map status (tickets db' !! 42) = Some OPEN_STATUS.
Proof.
  apply (assignee_reply_is_public_update (Fixture.env false false) "bob@example.com" 42
           (Fixture.ticket_of "alice@example.com" (Some 2) OPEN_STATUS None)
           (0, mkFollowUp (Some 42) "E-Mail Received from bob@example.com" 100 true
                 (Some "fixed") "m3@example.com" None)
           Fixture.internal_db Fixture.bob).
  - reflexivity.
  - reflexivity.
  - reflexivity.
  - reflexivity.
  - reflexivity.
Defined.

(** The whole importer on the assignee's answer: the ticket stays OPEN,
    where the rule of the specification, with "the updater differs from the
    assignee" false, moves it to REPLIED. *)
Example assignee_reply_leaves_ticket_open :
  let run := object_from_message (Fixture.env false false) Fixture.assignee_mail 1
               Fixture.queues Fixture.internal_db in
  fst run = inr (RTicket 42)
  /\ option_map status (tickets (snd run) !! 42) = Some OPEN_STATUS
  /\ update_status (public_update true false true) OPEN_STATUS = REPLIED_STATUS.
Proof. vm_compute. repeat split. Qed.

(** ** Attachments *)

Lemma part_step_files (E : Env) (ticket : option string) (st : Extracted) (p : Part)
  (x : UploadedFile) :
  In x (files st) -> In x (files (part_step E ticket st p)).
Proof.
  intros H. unfold part_step.
  destruct (String.eqb (content_maintype p) "multipart"); [exact H |].
  destruct (part_name E p); [cbn; apply in_or_app; now left |].
  destruct (String.eqb (content_maintype p) "text");
    [destruct (String.eqb (content_subtype p) "plain") |];
    cbn; try exact H; apply in_or_app; now left.
Qed.

Lemma walk_files (E : Env) (ticket : option string) (l : list Part) (st : Extracted)
  (x : UploadedFile) :
  In x (files st) -> In x (files (fold_left (part_step E ticket) l st)).
Proof.
  revert st. induction l as [| p l IH]; intros st H; [exact H |].
  simpl. apply IH. now apply part_step_files.
Qed.

Lemma part_step_counter (E : Env) (ticket : option string) (st : Extracted) (p : Part) :
  counter (part_step E ticket st p) = counter st + (if is_leaf p then 1 else 0).
Proof.
  unfold part_step, is_leaf.
  destruct (String.eqb (content_maintype p) "multipart"); cbn [negb]; [lia |].
  destruct (part_name E p); [cbn; lia |].
  destruct (String.eqb (content_maintype p) "text");
    [destruct (String.eqb (content_subtype p) "plain") |]; cbn; lia.
Qed.

(** The counter is the number of parts met so far that are no containers. *)
Lemma walk_counter (E : Env) (ticket : option string) (l : list Part) (st : Extracted) :
  counter (fold_left (part_step E ticket) l st)
  = counter st + length (List.filter is_leaf l).
Proof.
  revert st. induction l as [| p l IH]; intros st; simpl; [lia |].
  rewrite IH, part_step_counter. destruct (is_leaf p); simpl; lia.
Qed.

(** C3 as stated fails: the part named [invoice.pdf] yields an attachment
    named [part-1_invoice.pdf], and none named [invoice.pdf]. *)
Lemma named_part_is_renamed :
  let fs := files (walk_parts (Fixture.env false false) None
                     [Fixture.text_plain "see attachment"; Fixture.invoice]) in
  name_param Fixture.invoice = Some "invoice.pdf"
  /\ List.map file_name fs = ["part-1_invoice.pdf"]
  /\ ~ (exists f, In f fs /\ file_name f = "invoice.pdf").
Proof.
  cbv zeta. split; [reflexivity |]. split; [reflexivity |].
  intros (f & Hin & Hname). vm_compute in Hin. destruct Hin as [<- | []].
  discriminate Hname.
Qed.

Lemma part_step_attachment (E : Env) (ticket : option string) (st : Extracted) (p : Part) :
  is_leaf p = true ->
  part_name E p <> None \/ content_maintype p <> "text" ->
  let fname := attachment_name E p (counter st) (part_name E p) in
  In (mkFile fname (payload p) (guess_type E fname)) (files (part_step E ticket st p)).
Proof.
  cbv zeta. intros Hleaf Hatt. unfold part_step, is_leaf in *.
  destruct (String.eqb (content_maintype p) "multipart"); [discriminate |].
  destruct (part_name E p) as [n |].
  - cbn. apply in_or_app. right. now left.
  - destruct (String.eqb_spec (content_maintype p) "text") as [Htext | _].
    + destruct Hatt as [H | H]; contradiction.
    + cbn. apply in_or_app. right. now left.
Qed.

(** The attachment made of a part of the walk. *)
Lemma walk_attachment (E : Env) (ticket : option string) (before after : list Part)
  (p : Part) :
  is_leaf p = true ->
  part_name E p <> None \/ content_maintype p <> "text" ->
  let fname :=
    attachment_name E p (length (List.filter is_leaf before)) (part_name E p) in
  In (mkFile fname (payload p) (guess_type E fname))
    (files (walk_parts E ticket (before ++ p :: after))).
Proof.
  cbv zeta. intros Hleaf Hatt. unfold walk_parts.
  rewrite fold_left_app. cbn [fold_left]. apply walk_files.
  pose proof (part_step_attachment E ticket
                (fold_left (part_step E ticket) before (mkExtracted None None 0 []))
                p Hleaf Hatt) as H.
  cbv zeta in H. rewrite walk_counter in H. exact H.
Qed.

(** *** The attachments go to the new follow-up *)

Lemma keeps_update_ticket_status {X : Type} (proj : DB -> X) (E : Env) sender_email
  ticket f :
  (forall n db, proj (set_heap_next n db) = proj db) ->
  (forall t db, proj (set_tickets t db) = proj db) ->
  (forall l db, proj (set_followups l db) = proj db) ->
  keeps proj (update_ticket_status E sender_email ticket f).
Proof.
  intros Hheap Htickets Hfollowups. unfold update_ticket_status.
  apply keeps_bind; [now apply keeps_User_first_by_email | intros updater].
  destruct ticket as [[tid t] |]; [| apply keeps_raise].
  apply keeps_bind; [now apply keeps_User_first_by_email | intros submitter].
  apply keeps_bind.
  { destruct (is_helpdesk_staff E (option_map row submitter) _); [| apply keeps_ret].
    apply keeps_bind; [now apply keeps_related_user | intros a; apply keeps_ret]. }
  intros differs.
  apply keeps_bind; [frame | intros changed].
  apply keeps_bind; [intros db; apply Htickets | intros _].
  apply keeps_bind; [intros db; apply Hfollowups | intros _].
  apply keeps_ret.
Qed.

Lemma notify_events (message : Message) (queue : Queue) (ticket : nat * Ticket)
  (new : bool) (db : DB) :
  exists evs, events (snd (notify message queue ticket new db)) = events db ++ evs.
Proof.
  unfold notify. destruct (is_autoreply message); [exists []; cbn; now rewrite app_nil_r |].
  destruct new; [eexists; reflexivity |].
  rewrite bind_run. cbn [emit].
  destruct (enable_notifications_on_email_events queue); cbn.
  - rewrite <- app_assoc. eexists. reflexivity.
  - eexists. reflexivity.
Qed.

(** A run of lines 498-597 that returns has handed the files to
    [process_attachments] with the follow-up it created. *)
Lemma record_followup_events (E : Env) (message : Message) (payload : Payload)
  (fs : list UploadedFile) (created : option (nat * Ticket) * bool)
  (db db' : DB) (t : nat * Ticket) :
  record_followup E message payload fs created db = (inr t, db') ->
  exists evs,
    events db' = events db ++ ProcessAttachments (length (followups db)) fs :: evs.
Proof.
  intros Hrun. unfold record_followup in Hrun. rewrite bind_run in Hrun.
  destruct (FollowUp_create E (new_followup E message payload (fst created)) db)
    as [[e | f] db1] eqn:Hcreate; [discriminate |].
  assert (Hf : fst f = length (followups db) /\ events db1 = events db).
  { unfold FollowUp_create in Hcreate.
    destruct (f_ticket _); [| destruct (followup_ticket_nullable E)];
      inversion Hcreate; subst; split; reflexivity. }
  destruct Hf as [Hfid Hev1].
  rewrite bind_run in Hrun.
  match type of Hrun with
  | match ?c db1 with _ => _ end = _ =>
      assert (Hkeep : keeps events c);
      [| assert (Hret : returns c (fun updated => fst (snd updated) = fst f));
         [| specialize (Hkeep db1); specialize (Hret db1);
            destruct (c db1) as [[e | updated] db2]; [discriminate |]]]
  end.
  { destruct (negb (snd created)); [| apply keeps_ret].
    apply keeps_update_ticket_status; reflexivity. }
  { destruct (negb (snd created)).
    - intros d a d' Ha. now apply returns_update_ticket_status in Ha.
    - intros d a d' Ha. inversion Ha; subst. reflexivity. }
  specialize (Hret updated db2 eq_refl). cbn [snd] in Hkeep.
  destruct (fst updated) as [ticket |]; [| discriminate].
  rewrite bind_run in Hrun. cbn [emit] in Hrun. rewrite bind_run in Hrun.
  match type of Hrun with
  | match create_ticket_cc E ticket ?l ?d with _ => _ end = _ =>
      pose proof (keeps_create_ticket_cc events E ticket l
                    (fun _ _ => eq_refl) d) as Hcc;
      destruct (create_ticket_cc E ticket l d) as [[e | ccs] db3]; [discriminate |]
  end.
  rewrite bind_run in Hrun.
  destruct (notify_events message (p_queue payload) ticket (snd created) db3)
    as [evs Hn].
  destruct (notify message (p_queue payload) ticket (snd created) db3)
    as [[e | u] db4]; [discriminate |].
  inversion Hrun; subst. cbn [snd events set_events] in *.
  exists evs. rewrite Hn, Hcc, Hkeep, Hev1, Hret, Hfid, <- app_assoc. reflexivity.
Qed.

Lemma record_followup_inr_appended (E : Env) (message : Message) (payload : Payload)
  (fs : list UploadedFile) (created : option (nat * Ticket) * bool)
  (db db' : DB) (t : nat * Ticket) :
  record_followup E message payload fs created db = (inr t, db') ->
  exists f, followups db' = followups db ++ [f].
Proof.
  intros Hrun.
  destruct (record_followup_appends E message payload fs created db)
    as [(_ & Hnone & Hnull) | (f & Hf & _)].
  - exfalso. unfold record_followup in Hrun. rewrite bind_run in Hrun.
    unfold FollowUp_create in Hrun. rewrite Hnone, Hnull in Hrun. discriminate Hrun.
  - exists f. rewrite Hrun in Hf. exact Hf.
Qed.

Lemma create_object_inr (E : Env) (message : Message) (ticket_id : option string)
  (payload : Payload) (fs : list UploadedFile) (db db' : DB) (t : nat * Ticket) :
  create_object_from_email_message E message ticket_id payload fs db = (inr t, db') ->
  exists evs f,
    events db' = events db ++ ProcessAttachments (length (followups db)) fs :: evs
    /\ followups db' = followups db ++ [f].
Proof.
  intros Hrun. unfold create_object_from_email_message in Hrun.
  rewrite bind_run in Hrun.
  pose proof (keeps_resolve_ticket events E message ticket_id db) as He1.
  pose proof (keeps_resolve_ticket followups E message ticket_id db) as Hf1.
  destruct (resolve_ticket E message ticket_id db) as [[e | ticket] db1]; [discriminate |].
  rewrite bind_run in Hrun.
  pose proof (keeps_new_ticket events E payload ticket (fun _ _ => eq_refl) db1) as He2.
  pose proof (keeps_new_ticket followups E payload ticket (fun _ _ => eq_refl) db1) as Hf2.
  destruct (new_ticket E payload ticket db1) as [[e | created] db2]; [discriminate |].
  cbn [snd] in *.
  destruct (record_followup_events _ _ _ _ _ _ _ _ Hrun) as [evs Hev].
  destruct (record_followup_inr_appended _ _ _ _ _ _ _ _ Hrun) as [f Hf].
  exists evs, f. split; congruence.
Qed.

Lemma archive_original_keeps (E : Env) (m : Message) (fs : list UploadedFile)
  (x : UploadedFile) :
  In x fs -> In x (archive_original E m fs).
Proof.
  intros H. unfold archive_original.
  destruct (HELPDESK_ALWAYS_SAVE_INCOMING_EMAIL_MESSAGE E); [| exact H].
  apply in_or_app. now left.
Qed.

(** C3, amended: when a message is ingested (a ticket is returned), every
    part of the walk that is no container and that carries a name, or is
    not text, is handed to attachment processing together with the
    follow-up created for the message, as an entry with the decoded payload
    of the part.  The file name of a part with the non-empty name [n], at
    index [i] among the parts that are no containers, is [part-<i>_<n>]; a
    part without a name gets [part-<i><ext>], the extension guessed from
    its content type.  The content type of the entry is guessed from the
    file name. *)
Theorem part_becomes_numbered_attachment
  (E : Env) (message : Message) (importer : nat) (queues : Queues) (db db' : DB)
  (tid : nat) (before after : list Part) (p : Part) :
  walk message = before ++ p :: after ->
  is_leaf p = true ->
  part_name E p <> None \/ content_maintype p <> "text" ->
  object_from_message E message importer queues db = (inr (RTicket tid), db') ->
  let i := length (List.filter is_leaf before) in
  let fname := attachment_name E p i (part_name E p) in
  (forall n, part_name E p = Some n -> n <> "" ->
     fname = "part-" +:+ pretty i +:+ "_" +:+ n)
  /\ (truthy (part_name E p) = false ->
      fname = "part-" +:+ pretty i
                +:+ default "None" (guess_extension E (content_type p)))
  /\ exists fs evs f,
       In (mkFile fname (payload p) (guess_type E fname)) fs
       /\ events db' = events db ++ ProcessAttachments (length (followups db)) fs :: evs
       /\ followups db' = followups db ++ [f].
Proof.
  cbv zeta. intros Hwalk Hleaf Hatt Hrun.
  split; [| split].
  - intros n Hn Hne. unfold attachment_name. rewrite Hn.
    destruct n; [contradiction | reflexivity].
  - intros Hfalse. unfold attachment_name. now rewrite Hfalse.
  - unfold object_from_message in Hrun.
    destruct (String.eqb (snd (sender_of E message)) ""); [discriminate Hrun |].
    rewrite bind_run in Hrun. cbn [read_db] in Hrun.
    destruct (ignore_guard E _ _); [discriminate Hrun |].
    destruct (is_loop message _ _).
    + rewrite bind_run in Hrun. destruct (heal_loop _ _ _ _ db) as [[e | u] d];
        discriminate Hrun.
    + rewrite bind_run in Hrun.
      match type of Hrun with
      | match create_object_from_email_message E message ?t ?pl ?fs db with _ => _ end = _ =>
          destruct (create_object_from_email_message E message t pl fs db)
            as [[e | ticket] db1] eqn:Hcreate; [discriminate Hrun |];
          destruct (create_object_inr E message t pl fs db db1 ticket Hcreate)
            as (evs & f & Hev & Hf);
          exists fs, evs, f
      end.
      inversion Hrun; subst db1.
      split; [| split; assumption].
      apply archive_original_keeps. rewrite Hwalk. now apply walk_attachment.
Qed.

Lemma part_becomes_numbered_attachment_witness :
  let run := object_from_message (Fixture.env false false) Fixture.invoice_mail 1
               Fixture.queues Fixture.empty_db in
  exists fs evs f,
    In (mkFile "part-1_invoice.pdf" "%PDF" (Some "application/pdf")) fs
    /\ events (snd run) = events Fixture.empty_db ++ ProcessAttachments 0 fs :: evs
    /\ followups (snd run) = followups Fixture.empty_db ++ [f].
Proof.
  cbv zeta.
  destruct (part_becomes_numbered_attachment (Fixture.env false false) Fixture.invoice_mail
              1 Fixture.queues Fixture.empty_db
              (snd (object_from_message (Fixture.env false false) Fixture.invoice_mail 1
                      Fixture.queues Fixture.empty_db))
              0 [mkPart "multipart" "mixed" None ""; Fixture.text_plain "see attachment"]
              [] Fixture.invoice) as (_ & _ & H).
  - reflexivity.
  - reflexivity.
  - left. discriminate.
  - vm_compute. reflexivity.
  - exact H.
Defined.

(** * Further properties of the importer *)

(** ** Routing without a tracking tag *)

Lemma match_tracking_none (qs : list Queue) (subject : string) :
  Forall (fun q => tracking_id (slug q) subject = None) qs ->
  match_tracking qs subject = (None, None).
Proof. intros H. unfold match_tracking. now apply match_tracking_step_none. Qed.

Lemma keyword_fold (E : Env) (q : Queue) (subject : string) (l : list string)
  (queue : option Queue) :
  fold_left (fun (queue' : option Queue) m =>
               if keyword_search E m subject then Some q else queue') l queue
  = if existsb (fun m => keyword_search E m subject) l then Some q else queue.
Proof.
  revert queue. induction l as [| m l IH]; intros queue; simpl; [reflexivity |].
  rewrite IH. destruct (keyword_search E m subject); simpl; [| reflexivity].
  now destruct (existsb _ l).
Qed.

Lemma match_subject_fixed (E : Env) (qs : list Queue) (subject : string) (q : Queue) :
  match_subject E qs subject (Some q) = Some q.
Proof. unfold match_subject. induction qs as [| q' qs IH]; simpl; auto. Qed.

(** Lines 643-649: the first queue with a keyword that matches is taken. *)
Lemma match_subject_first (E : Env) (qs : list Queue) (subject : string) :
  match_subject E qs subject None
  = List.find (fun q => existsb (fun m => keyword_search E m subject) (match_on q)) qs.
Proof.
  induction qs as [| q qs IH]; [reflexivity |].
  unfold match_subject in *. cbn [fold_left List.find]. rewrite keyword_fold.
  destruct (existsb _ (match_on q)); [apply match_subject_fixed | exact IH].
Qed.

Lemma address_fold (sender_lower : string) (l : list string) (prev : bool) :
  fold_left (fun prev e => prev || Str.contains (Str.lower e) sender_lower) l prev
  = prev || existsb (fun e => Str.contains (Str.lower e) sender_lower) l.
Proof.
  revert prev. induction l as [| e l IH]; intros prev; simpl.
  - now rewrite orb_false_r.
  - rewrite IH. now rewrite orb_assoc.
Qed.

(** Lines 651-655: the loop has no guard, the last queue with an address
    rule that matches is taken. *)
Lemma match_address_last (qs : list Queue) (sender_address : string) :
  match_address qs sender_address None
  = List.find (fun q => existsb (fun e => Str.contains (Str.lower e)
                                            (Str.lower sender_address))
                          (match_on_addresses q))
      (rev qs).
Proof.
  unfold match_address.
  induction qs as [| q l IH] using rev_ind; [reflexivity |].
  rewrite fold_left_app, rev_unit. cbn [fold_left List.find].
  rewrite address_fold. cbn [orb].
  destruct (existsb _ (match_on_addresses q)); [reflexivity | exact IH].
Qed.

(** X1: a message whose subject matches the tracking pattern of no
    importer queue goes to the first queue (in order) one of whose subject
    keywords matches; failing that, to the last queue (in order) one of
    whose address rules is contained in the sender address, compared
    without case; failing that, to the default queue.  No ticket id is
    set. *)
Theorem classify_without_tracking_tag
  (E : Env) (queues : Queues) (subject sender_address : string) :
  Forall (fun q => tracking_id (slug q) subject = None) (importer_queues queues) ->
  classify E queues subject sender_address
  = (None,
     match List.find (fun q => existsb (fun m => keyword_search E m subject) (match_on q))
             (matching_queues queues) with
     | Some q => q
     | None =>
         match List.find (fun q => existsb (fun e => Str.contains (Str.lower e)
                                                      (Str.lower sender_address))
                                     (match_on_addresses q))
                 (rev (address_matching_queues queues)) with
         | Some q => q
         | None => default_queue queues
         end
     end).
Proof.
  intros Hnone. unfold classify. rewrite (match_tracking_none _ _ Hnone).
  cbn [truthy negb]. rewrite match_subject_first.
  destruct (List.find _ (matching_queues queues)); [reflexivity |].
  now rewrite match_address_last.
Qed.

Lemma classify_without_tracking_tag_witness :
  classify (Fixture.env false false) Fixture.queues "overdue invoice" "Bill@Partner.Example"
  = (None, Fixture.sales).
Proof.
  apply (classify_without_tracking_tag (Fixture.env false false) Fixture.queues
           "overdue invoice" "Bill@Partner.Example").
  repeat constructor.
Defined.

Lemma match_tracking_sound (qs : list Queue) (subject d : string) (q : Queue) :
  match_tracking qs subject = (Some d, Some q) ->
  In q qs /\ tracking_id (slug q) subject = Some d.
Proof.
  unfold match_tracking.
  assert (H : forall acc : option string * option Queue,
             (forall d q, acc = (Some d, Some q) ->
                In q qs /\ tracking_id (slug q) subject = Some d) ->
             forall l, incl l qs ->
             forall d q,
               fold_left
                 (fun (acc : option string * option Queue) q =>
                    match tracking_id (slug q) subject with
                    | Some d => if negb (truthy (fst acc)) then (Some d, Some q) else acc
                    | None => acc
                    end) l acc = (Some d, Some q) ->
               In q qs /\ tracking_id (slug q) subject = Some d).
  { intros acc Hacc l. revert acc Hacc.
    induction l as [| q' l IH]; intros acc Hacc Hincl d0 q0; simpl; [apply Hacc |].
    apply IH; [| intros x Hx; apply Hincl; now right].
    destruct (tracking_id (slug q') subject) as [d' |] eqn:Hq; [| exact Hacc].
    destruct (negb (truthy (fst acc))); [| exact Hacc].
    intros d1 q1 Heq. inversion Heq; subst. split; [apply Hincl; now left | exact Hq]. }
  apply (H (None, None)); [intros d0 q0 Heq; discriminate Heq | apply incl_refl].
Qed.

Lemma match_tracking_paired (qs : list Queue) (subject d : string) :
  fst (match_tracking qs subject) = Some d ->
  exists q, match_tracking qs subject = (Some d, Some q).
Proof.
  unfold match_tracking.
  assert (H : forall acc : option string * option Queue,
             (forall d, fst acc = Some d -> exists q, acc = (Some d, Some q)) ->
             forall d,
               fst (fold_left
                      (fun (acc : option string * option Queue) q =>
                         match tracking_id (slug q) subject with
                         | Some d => if negb (truthy (fst acc)) then (Some d, Some q) else acc
                         | None => acc
                         end) qs acc) = Some d ->
               exists q,
                 fold_left
                   (fun (acc : option string * option Queue) q =>
                      match tracking_id (slug q) subject with
                      | Some d => if negb (truthy (fst acc)) then (Some d, Some q) else acc
                      | None => acc
                      end) qs acc = (Some d, Some q)).
  { induction qs as [| q' l IH]; intros acc Hacc; simpl; [exact Hacc |].
    apply IH. destruct (tracking_id (slug q') subject) as [d' |]; [| exact Hacc].
    destruct (negb (truthy (fst acc))); [| exact Hacc].
    intros d1 Hd1. inversion Hd1; subst. now exists q'. }
  apply H. intros d0 Hd0. discriminate Hd0.
Qed.

(** X2: the classifier never makes up a ticket id: when it returns one,
    the queue it returns is a queue of the importer and the subject holds,
    before any line feed, the tracking tag made of the slug of that queue
    and of that id, a non-empty run of digits. *)
Theorem classify_ticket_id_comes_from_a_tag
  (E : Env) (queues : Queues) (subject sender_address d : string) :
  fst (classify E queues subject sender_address) = Some d ->
  let q := snd (classify E queues subject sender_address) in
  In q (importer_queues queues)
  /\ exists pre post,
       subject = pre +:+ tag_text (slug q) d +:+ post
       /\ Str.no_newline pre = true /\ Str.all_digits d = true /\ d <> "".
Proof.
  intros Hd. cbv zeta.
  assert (Hm : exists q, match_tracking (importer_queues queues) subject = (Some d, Some q)).
  { apply match_tracking_paired. unfold classify in Hd.
    destruct (match_tracking (importer_queues queues) subject). exact Hd. }
  destruct Hm as [q Hm].
  assert (Hne : d <> "") by (apply (classify_id_nonempty _ _ _ _ _ Hd)).
  rewrite (classify_tracked E queues subject sender_address d q Hne Hm). cbn [snd].
  apply match_tracking_sound in Hm as [Hin Hid]. split; [exact Hin |].
  now apply tracking_id_inv.
Qed.

Lemma classify_ticket_id_comes_from_a_tag_witness :
  In Fixture.support (importer_queues Fixture.queues)
  /\ exists pre post,
       "AW: [support-42] printer" = pre +:+ tag_text (slug Fixture.support) "42" +:+ post
       /\ Str.no_newline pre = true /\ Str.all_digits "42" = true /\ "42" <> "".
Proof.
  apply (classify_ticket_id_comes_from_a_tag (Fixture.env false false) Fixture.queues
           "AW: [support-42] printer" "user@x.com" "42").
  reflexivity.
Defined.

(** ** Tracking tags and ticket numbers *)

Lemma digit_value (d : N) :
  (d < 10)%N -> nat_of_ascii (pretty_N_char d) - 48 = N.to_nat d.
Proof.
  intros H.
  assert (Hd : (d = 0 \/ d = 1 \/ d = 2 \/ d = 3 \/ d = 4 \/ d = 5 \/ d = 6 \/ d = 7
               \/ d = 8 \/ d = 9)%N) by lia.
  repeat (destruct Hd as [-> | Hd]; [reflexivity |]). now subst.
Qed.

Lemma digit_is_digit (d : N) : Str.is_digit (pretty_N_char d) = true.
Proof. unfold pretty_N_char. repeat case_match; reflexivity. Qed.

Lemma int_of_pretty_go (x : N) (s : string) :
  Str.int_of_digits_acc 0 (pretty_N_go x s) = Str.int_of_digits_acc (N.to_nat x) s.
Proof.
  revert s. induction (N.lt_wf_0 x) as [x _ IH]. intros s.
  destruct (N.eq_dec x 0%N) as [-> | Hx]; [reflexivity |].
  rewrite pretty_N_go_step by lia.
  rewrite IH by (apply N.div_lt; lia).
  cbn [Str.int_of_digits_acc]. f_equal.
  rewrite digit_value by (apply N.mod_lt; lia).
  pose proof (N.div_mod x 10 ltac:(lia)) as Hdm. lia.
Qed.

Lemma all_digits_pretty_go (x : N) (s : string) :
  Str.all_digits s = true -> Str.all_digits (pretty_N_go x s) = true.
Proof.
  revert s. induction (N.lt_wf_0 x) as [x _ IH]. intros s Hs.
  destruct (N.eq_dec x 0%N) as [-> | Hx]; [exact Hs |].
  rewrite pretty_N_go_step by lia.
  apply IH; [apply N.div_lt; lia |].
  cbn [Str.all_digits]. now rewrite digit_is_digit.
Qed.

Lemma pretty_go_length (x : N) (s : string) :
  String.length s <= String.length (pretty_N_go x s).
Proof.
  revert s. induction (N.lt_wf_0 x) as [x _ IH]. intros s.
  destruct (N.eq_dec x 0%N) as [-> | Hx]; [reflexivity |].
  rewrite pretty_N_go_step by lia.
  etransitivity; [| apply IH, N.div_lt; lia]. cbn [String.length]. lia.
Qed.

Lemma pretty_nat_digits (n : nat) :
  Str.int_of_digits (pretty n) = n
  /\ Str.all_digits (pretty n) = true
  /\ pretty n <> "".
Proof.
  unfold pretty, pretty_nat, pretty, pretty_N.
  destruct (decide (N.of_nat n = 0%N)) as [Hz | Hnz].
  - split; [| split; [reflexivity | discriminate]].
    replace n with 0 by lia. reflexivity.
  - split; [| split].
    + unfold Str.int_of_digits. rewrite int_of_pretty_go.
      cbn [Str.int_of_digits_acc]. lia.
    + now apply all_digits_pretty_go.
    + intros Hempty. rewrite pretty_N_go_step in Hempty by lia.
      pose proof (pretty_go_length (N.of_nat n `div` 10)
                    (String (pretty_N_char (N.of_nat n `mod` 10)) "")) as Hlen.
      rewrite Hempty in Hlen. cbn in Hlen. lia.
Qed.

(** X3: a ticket number written into a tracking tag is read back: when the
    subject holds, before any line feed, the tag of the slug of a queue
    and of the decimal writing of [n], and no further tag of that queue
    follows on the first line, the id found converts to [n] and [n]
    only. *)
Theorem tracking_tag_round_trip (slug pre post : string) (n : nat) :
  slug_ok slug = true ->
  Str.no_newline pre = true ->
  tracking_id slug post = None ->
  option_map Str.int_of_digits
    (tracking_id slug (pre +:+ tag_text slug (pretty n) +:+ post)) = Some n.
Proof.
  intros Hslug Hpre Hpost.
  destruct (pretty_nat_digits n) as (Hint & Hdigits & Hne).
  rewrite (tracking_id_last_tag slug pre (pretty n) post Hslug Hpre Hdigits Hne Hpost).
  cbn [option_map]. now rewrite Hint.
Qed.

Lemma tracking_tag_round_trip_witness :
  option_map Str.int_of_digits
    (tracking_id "support" ("AW: " +:+ tag_text "support" (pretty 1024) +:+ " printer"))
  = Some 1024.
Proof.
  apply (tracking_tag_round_trip "support" "AW: " " printer" 1024); reflexivity.
Defined.

(** ** The ignore list *)

Lemma ignore_rules_scope (db : DB) (importer : nat) (r : IgnoreEmail) :
  In r (ignore_rules db importer)
  <-> In r (ignore_emails db) /\ (importers r = [] \/ In importer (importers r)).
Proof.
  unfold ignore_rules. rewrite filter_In, orb_true_iff, existsb_exists.
  split; intros [Hin Hscope]; (split; [exact Hin |]).
  - destruct Hscope as [(i & Hi & Heq) | Hempty].
    + right. apply Nat.eqb_eq in Heq. now subst.
    + left. now destruct (importers r).
  - destruct Hscope as [-> | Hi]; [now right |].
    left. exists importer. split; [exact Hi | apply Nat.eqb_refl].
Qed.

(** X4: a message passes the ignore list exactly when no rule that is
    scoped to the importer, or to no importer at all, matches one of its
    addresses; rules scoped to other importers only are not consulted. *)
Theorem ignore_list_passes_iff
  (E : Env) (db : DB) (importer : nat) (addresses : list (string * string)) :
  ignore_guard E (ignore_rules db importer) addresses = None
  <-> (forall r, In r (ignore_emails db) ->
         importers r = [] \/ In importer (importers r) ->
         forall a, In a addresses -> ignore_test E r (snd a) = false).
Proof.
  unfold ignore_guard. split.
  - intros Hnone r Hin Hscope a Ha.
    destruct (List.find _ (ignore_rules db importer)) as [first |] eqn:Hfind;
      [discriminate Hnone |].
    assert (Hr : In r (ignore_rules db importer)) by (apply ignore_rules_scope; auto).
    pose proof (find_none _ _ Hfind r Hr) as Hex. cbv beta in Hex.
    destruct (ignore_test E r (snd a)) eqn:Htest; [| reflexivity].
    assert (Htrue : existsb (fun a => ignore_test E r (snd a)) addresses = true)
      by (apply existsb_exists; now exists a).
    congruence.
  - intros Hall.
    destruct (List.find _ (ignore_rules db importer)) as [first |] eqn:Hfind;
      [| reflexivity].
    apply find_some in Hfind as [Hin Hex].
    apply ignore_rules_scope in Hin as [Hin Hscope].
    apply existsb_exists in Hex as (a & Ha & Htest).
    rewrite (Hall first Hin Hscope a Ha) in Htest. discriminate Htest.
Qed.

(** ** What a run of the importer touches *)

Lemma keeps_FollowUp_create {X : Type} (proj : DB -> X) (E : Env) (f : FollowUp) :
  (forall l db, proj (set_followups l db) = proj db) ->
  keeps proj (FollowUp_create E f).
Proof.
  intros H db. unfold FollowUp_create.
  destruct (f_ticket f); [| destruct (followup_ticket_nullable E)];
    cbn [snd]; auto.
Qed.

Lemma keeps_record_followup {X : Type} (proj : DB -> X) (E : Env) message payload fs
  created :
  (forall n db, proj (set_heap_next n db) = proj db) ->
  (forall t db, proj (set_tickets t db) = proj db) ->
  (forall l db, proj (set_followups l db) = proj db) ->
  (forall l db, proj (set_ticketccs l db) = proj db) ->
  (forall l db, proj (set_events l db) = proj db) ->
  keeps proj (record_followup E message payload fs created).
Proof.
  intros Hheap Htickets Hfollowups Hccs Hevents. unfold record_followup.
  apply keeps_bind; [now apply keeps_FollowUp_create | intros f].
  apply keeps_bind.
  { destruct (negb (snd created)); [| apply keeps_ret].
    now apply keeps_update_ticket_status. }
  intros updated. destruct (fst updated) as [ticket |]; [| apply keeps_raise].
  apply keeps_bind; [now apply keeps_emit | intros _].
  apply keeps_bind; [now apply keeps_create_ticket_cc | intros _].
  apply keeps_bind; [now apply keeps_notify | intros _].
  apply keeps_ret.
Qed.

Lemma keeps_create_object {X : Type} (proj : DB -> X) (E : Env) message ticket_id payload
  fs :
  (forall n db, proj (set_heap_next n db) = proj db) ->
  (forall t db, proj (set_tickets t db) = proj db) ->
  (forall l db, proj (set_followups l db) = proj db) ->
  (forall l db, proj (set_ticketccs l db) = proj db) ->
  (forall l db, proj (set_events l db) = proj db) ->
  keeps proj (create_object_from_email_message E message ticket_id payload fs).
Proof.
  intros Hheap Htickets Hfollowups Hccs Hevents.
  unfold create_object_from_email_message.
  apply keeps_bind; [apply keeps_resolve_ticket | intros ticket].
  apply keeps_bind; [now apply keeps_new_ticket | intros created].
  now apply keeps_record_followup.
Qed.

Lemma keeps_object_from_message {X : Type} (proj : DB -> X) (E : Env) message importer
  queues :
  (forall n db, proj (set_heap_next n db) = proj db) ->
  (forall t db, proj (set_tickets t db) = proj db) ->
  (forall l db, proj (set_followups l db) = proj db) ->
  (forall l db, proj (set_ticketccs l db) = proj db) ->
  (forall l db, proj (set_events l db) = proj db) ->
  keeps proj (object_from_message E message importer queues).
Proof.
  intros Hheap Htickets Hfollowups Hccs Hevents db.
  unfold object_from_message.
  destruct (String.eqb (snd (sender_of E message)) ""); [reflexivity |].
  rewrite bind_run. cbn [read_db].
  destruct (ignore_guard E _ _); [reflexivity |].
  destruct (is_loop message _ _); rewrite snd_bind_ret.
  - now apply keeps_heal_loop.
  - now apply keeps_create_object.
Qed.

(** X5: when [object_from_message] returns [True] or [False] (sender not
    parsed, ignore list, forwarding loop), it has created nothing and
    notified nobody: tickets, follow-ups and the calls to the
    collaborators are as before. *)
Theorem boolean_result_creates_nothing
  (E : Env) (message : Message) (importer : nat) (queues : Queues) (db db' : DB)
  (b : bool) :
  object_from_message E message importer queues db = (inr (RBool b), db') ->
  tickets db' = tickets db /\ followups db' = followups db /\ events db' = events db.
Proof.
  intros Hrun. unfold object_from_message in Hrun.
  destruct (String.eqb (snd (sender_of E message)) "");
    [inversion Hrun; subst; auto |].
  rewrite bind_run in Hrun. cbn [read_db] in Hrun.
  destruct (ignore_guard E _ _); [inversion Hrun; subst; auto |].
  destruct (is_loop message _ _).
  - rewrite bind_run in Hrun.
    match type of Hrun with
    | match heal_loop ?t ?q ?a ?l db with _ => _ end = _ =>
        pose proof (keeps_heal_loop tickets t q a l (fun _ _ => eq_refl) db) as Ht;
        pose proof (keeps_heal_loop followups t q a l (fun _ _ => eq_refl) db) as Hf;
        pose proof (keeps_heal_loop events t q a l (fun _ _ => eq_refl) db) as He;
        destruct (heal_loop t q a l db) as [[e | u] db1]; [discriminate Hrun |]
    end.
    inversion Hrun; subst. auto.
  - rewrite bind_run in Hrun.
    match type of Hrun with
    | match ?c db with _ => _ end = _ => destruct (c db) as [[e | t] db1]
    end; discriminate Hrun.
Qed.

Lemma boolean_result_creates_nothing_witness :
  tickets (snd (object_from_message (Fixture.env false false) Fixture.loop_mail 1
                  Fixture.queues Fixture.loop_db)) = tickets Fixture.loop_db
  /\ followups (snd (object_from_message (Fixture.env false false) Fixture.loop_mail 1
                       Fixture.queues Fixture.loop_db)) = followups Fixture.loop_db
  /\ events (snd (object_from_message (Fixture.env false false) Fixture.loop_mail 1
                    Fixture.queues Fixture.loop_db)) = events Fixture.loop_db.
Proof.
  apply (boolean_result_creates_nothing (Fixture.env false false) Fixture.loop_mail 1
           Fixture.queues Fixture.loop_db _ true).
  vm_compute. reflexivity.
Defined.

Lemma new_ticket_run (E : Env) (payload : Payload) (ticket : option (nat * Ticket))
  (db : DB) :
  new_ticket E payload ticket db =
  match ticket with
  | None =>
      if QUEUE_EMAIL_BOX_UPDATE_ONLY E then (inr (None, false), db)
      else (inr (Some (fresh (dom (tickets db)), email_ticket E payload), true),
            set_tickets (<[fresh (dom (tickets db)) := email_ticket E payload]> (tickets db))
              db)
  | Some _ => (inr (ticket, false), db)
  end.
Proof.
  unfold new_ticket. destruct ticket as [t |]; [reflexivity |].
  destruct (QUEUE_EMAIL_BOX_UPDATE_ONLY E); [reflexivity |].
  cbn [negb]. rewrite bind_run. cbn [Ticket_create]. rewrite bind_run.
  cbn [Ticket_save ret fst snd tickets set_tickets]. unfold email_ticket.
  rewrite insert_insert_eq. destruct db; reflexivity.
Qed.

Lemma fresh_ticket_unused (db : DB) : tickets db !! fresh (dom (tickets db)) = None.
Proof. apply not_elem_of_dom, is_fresh. Qed.

(** A run of lines 507-532 that returns gives back the ticket it was
    given, as it is stored afterwards. *)
Lemma update_ticket_status_saved (E : Env) (sender_email : string)
  (ticket : option (nat * Ticket)) (f : nat * FollowUp) (db db' : DB)
  (updated : option (nat * Ticket) * (nat * FollowUp)) :
  update_ticket_status E sender_email ticket f db = (inr updated, db') ->
  exists tid t',
    fst updated = Some (tid, t')
    /\ option_map fst ticket = Some tid
    /\ tickets db' !! tid = Some t'.
Proof.
  intros Hrun. unfold update_ticket_status in Hrun.
  rewrite bind_run in Hrun.
  destruct (User_first_by_email sender_email db) as [[e | updater] db1]; [discriminate |].
  destruct ticket as [[tid t] |]; [| discriminate].
  rewrite bind_run in Hrun.
  destruct (User_first_by_email (submitter_email t) db1) as [[e | submitter] db2];
    [discriminate |].
  rewrite bind_run in Hrun.
  match type of Hrun with
  | match ?c db2 with _ => _ end = _ => destruct (c db2) as [[e | differs] db3]
  end; [discriminate |].
  rewrite bind_run in Hrun.
  match type of Hrun with
  | match ?c db3 with _ => _ end = _ => destruct (c db3) as [[e | changed] db4]
  end; [discriminate |].
  inversion Hrun; subst. exists tid, (fst changed).
  split; [reflexivity |]. split; [reflexivity |].
  cbn [tickets set_followups set_tickets fst snd]. apply lookup_insert_eq.
Qed.

Lemma notify_events_exact (message : Message) (queue : Queue) (ticket : nat * Ticket)
  (new : bool) (db : DB) :
  exists mails,
    events (snd (notify message queue ticket new db)) = events db ++ mails
    /\ (is_autoreply message = true -> mails = [])
    /\ (is_autoreply message = false ->
        mails <> [] /\ Forall (is_mail_for (fst ticket)) mails).
Proof.
  unfold notify. destruct (is_autoreply message).
  - exists []. cbn. rewrite app_nil_r. repeat split; discriminate.
  - destruct new.
    + eexists [_]. split; [reflexivity |]. split; [discriminate |]. intros _.
      split; [discriminate |]. repeat constructor. eexists _, _. reflexivity.
    + rewrite bind_run. cbn [emit].
      destruct (enable_notifications_on_email_events queue); cbn.
      * eexists [_; _]. rewrite <- app_assoc. split; [reflexivity |].
        split; [discriminate |]. intros _. split; [discriminate |].
        repeat constructor; eexists _, _; reflexivity.
      * eexists [_]. split; [reflexivity |]. split; [discriminate |]. intros _.
        split; [discriminate |]. repeat constructor. eexists _, _. reflexivity.
Qed.

(** What a run of lines 498-597 that returns has done. *)
Lemma record_followup_inversion (E : Env) (message : Message) (payload : Payload)
  (fs : list UploadedFile) (created : option (nat * Ticket) * bool)
  (db db' : DB) (t : nat * Ticket) :
  record_followup E message payload fs created db = (inr t, db') ->
  option_map fst (fst created) = Some (fst t)
  /\ ((snd created = true -> is_Some (tickets db !! fst t)) ->
      is_Some (tickets db' !! fst t))
  /\ exists mails,
       events db' = events db ++ ProcessAttachments (length (followups db)) fs :: mails
       /\ (is_autoreply message = true -> mails = [])
       /\ (is_autoreply message = false ->
           mails <> [] /\ Forall (is_mail_for (fst t)) mails).
Proof.
  intros Hrun. unfold record_followup in Hrun. rewrite bind_run in Hrun.
  destruct (FollowUp_create E (new_followup E message payload (fst created)) db)
    as [[e | f] db1] eqn:Hcreate; [discriminate |].
  assert (Hf : fst f = length (followups db) /\ events db1 = events db
               /\ tickets db1 = tickets db).
  { unfold FollowUp_create in Hcreate.
    destruct (f_ticket _); [| destruct (followup_ticket_nullable E)];
      inversion Hcreate; subst; repeat split. }
  destruct Hf as (Hfid & Hev1 & Htk1).
  rewrite bind_run in Hrun.
  assert (Hupd : exists updated db2 ticket,
             (if negb (snd created)
              then update_ticket_status E (snd (p_sender payload)) (fst created) f
              else ret (fst created, f)) db1 = (inr updated, db2)
             /\ fst updated = Some ticket
             /\ fst (snd updated) = fst f
             /\ events db2 = events db1
             /\ option_map fst (fst created) = Some (fst ticket)
             /\ ((snd created = true -> is_Some (tickets db1 !! fst ticket)) ->
                 is_Some (tickets db2 !! fst ticket))).
  { destruct (snd created) eqn:Hnew; cbn [negb] in *.
    - cbn [ret] in Hrun |- *. destruct (fst created) as [ticket |] eqn:Hc;
        [| discriminate Hrun].
      exists (Some ticket, f), db1, ticket. repeat split; auto.
    - pose proof (keeps_update_ticket_status events E (snd (p_sender payload))
                    (fst created) f (fun _ _ => eq_refl) (fun _ _ => eq_refl)
                    (fun _ _ => eq_refl) db1) as Hkeep.
      destruct (update_ticket_status E (snd (p_sender payload)) (fst created) f db1)
        as [[e | updated] db2] eqn:Hu; [discriminate Hrun |].
      destruct (update_ticket_status_saved _ _ _ _ _ _ _ Hu) as (tid & t' & H1 & H2 & H3).
      pose proof (returns_update_ticket_status _ _ _ _ _ _ _ Hu) as [Hid _].
      exists updated, db2, (tid, t'). cbn [snd fst] in *.
      repeat split; auto. }
  destruct Hupd as (updated & db2 & ticket & Hu & Hticket & Hid & Hev2 & Hsame & Hexists).
  rewrite Hu in Hrun. rewrite Hticket in Hrun.
  rewrite bind_run in Hrun. cbn [emit] in Hrun. rewrite bind_run in Hrun.
  match type of Hrun with
  | match create_ticket_cc E ticket ?l ?d with _ => _ end = _ =>
      pose proof (keeps_create_ticket_cc events E ticket l (fun _ _ => eq_refl) d) as Hcc;
      pose proof (keeps_create_ticket_cc tickets E ticket l (fun _ _ => eq_refl) d) as Htcc;
      destruct (create_ticket_cc E ticket l d) as [[e | ccs] db3]; [discriminate |]
  end.
  rewrite bind_run in Hrun.
  destruct (notify_events_exact message (p_queue payload) ticket (snd created) db3)
    as (mails & Hn & Hauto & Hmails).
  pose proof (keeps_notify tickets message (p_queue payload) ticket (snd created)
                (fun _ _ => eq_refl) db3) as Htn.
  destruct (notify message (p_queue payload) ticket (snd created) db3)
    as [[e | u] db4]; [discriminate |].
  inversion Hrun; subst t db4. cbn [snd events tickets set_events] in *.
  split; [exact Hsame |]. split.
  - intros Hpre. rewrite Htn, Htcc. apply Hexists. now rewrite Htk1.
  - exists mails. split; [| split; assumption].
    rewrite Hn, Hcc, Hev2, Hev1, Hid, Hfid, <- app_assoc. reflexivity.
Qed.

Lemma object_from_message_ticket (E : Env) (message : Message) (importer : nat)
  (queues : Queues) (db db' : DB) (tid : nat) :
  object_from_message E message importer queues db = (inr (RTicket tid), db') ->
  exists ticket_id payload fs t,
    create_object_from_email_message E message ticket_id payload fs db = (inr t, db')
    /\ fst t = tid.
Proof.
  intros Hrun. unfold object_from_message in Hrun.
  destruct (String.eqb (snd (sender_of E message)) ""); [discriminate Hrun |].
  rewrite bind_run in Hrun. cbn [read_db] in Hrun.
  destruct (ignore_guard E _ _); [discriminate Hrun |].
  destruct (is_loop message _ _).
  - rewrite bind_run in Hrun. destruct (heal_loop _ _ _ _ db) as [[e | u] d];
      discriminate Hrun.
  - rewrite bind_run in Hrun.
    match type of Hrun with
    | match create_object_from_email_message E message ?t ?pl ?fs db with _ => _ end = _ =>
        destruct (create_object_from_email_message E message t pl fs db)
          as [[e | ticket] db1] eqn:Hcreate; [discriminate Hrun |];
        exists t, pl, fs, ticket
    end.
    inversion Hrun; subst. auto.
Qed.

Lemma create_object_inversion (E : Env) (message : Message) (ticket_id : option string)
  (payload : Payload) (fs : list UploadedFile) (db db' : DB) (t : nat * Ticket) :
  create_object_from_email_message E message ticket_id payload fs db = (inr t, db') ->
  is_Some (tickets db' !! fst t)
  /\ (exists f, followups db' = followups db ++ [f] /\ f_ticket f = Some (fst t))
  /\ exists mails,
       events db' = events db ++ ProcessAttachments (length (followups db)) fs :: mails
       /\ (is_autoreply message = true -> mails = [])
       /\ (is_autoreply message = false ->
           mails <> [] /\ Forall (is_mail_for (fst t)) mails).
Proof.
  intros Hrun. unfold create_object_from_email_message in Hrun.
  rewrite bind_run in Hrun.
  pose proof (keeps_resolve_ticket events E message ticket_id db) as He1.
  pose proof (keeps_resolve_ticket followups E message ticket_id db) as Hf1.
  destruct (resolve_ticket E message ticket_id db) as [[e | ticket] db1]; [discriminate |].
  rewrite bind_run, new_ticket_run in Hrun. cbn [snd] in *.
  assert (Hnew : exists created db2,
             record_followup E message payload fs created db2 = (inr t, db')
             /\ events db2 = events db1 /\ followups db2 = followups db1
             /\ (snd created = true ->
                 forall x, fst created = Some x -> is_Some (tickets db2 !! fst x))).
  { destruct ticket as [x |].
    - eexists _, _. split; [exact Hrun |]. repeat split. intros Hc. discriminate Hc.
    - destruct (QUEUE_EMAIL_BOX_UPDATE_ONLY E).
      + eexists _, _. split; [exact Hrun |]. repeat split. intros Hc. discriminate Hc.
      + eexists _, _. split; [exact Hrun |]. repeat split.
        intros _ x Hx. inversion Hx; subst.
        cbn [fst tickets set_tickets]. rewrite lookup_insert_eq. eauto. }
  destruct Hnew as (created & db2 & Hrec & He2 & Hf2 & Hcreated).
  destruct (record_followup_inversion _ _ _ _ _ _ _ _ Hrec)
    as (Hid & Hexists & mails & Hev & Hmails).
  split; [| split].
  - apply Hexists. intros Hc.
    destruct (fst created) as [x |] eqn:Hx; [| discriminate Hid].
    cbn [option_map] in Hid. injection Hid as Hfst. rewrite <- Hfst.
    now apply (Hcreated Hc).
  - destruct (record_followup_appends E message payload fs created db2)
      as [(_ & Hnone & Hnull) | (f & Hf & Hticket & _)].
    + exfalso. unfold record_followup in Hrec. rewrite bind_run in Hrec.
      unfold FollowUp_create in Hrec. rewrite Hnone, Hnull in Hrec. discriminate Hrec.
    + exists f. rewrite Hrec in Hf. cbn [snd] in Hf. split; [congruence |].
      rewrite Hticket. cbn [new_followup f_ticket]. exact Hid.
  - exists mails. split; [| exact Hmails]. congruence.
Qed.

(** X6: when [object_from_message] returns a ticket, that ticket is stored
    and exactly one follow-up was added, on that ticket. *)
Theorem ticket_result_has_new_followup
  (E : Env) (message : Message) (importer : nat) (queues : Queues) (db db' : DB)
  (tid : nat) :
  object_from_message E message importer queues db = (inr (RTicket tid), db') ->
  is_Some (tickets db' !! tid)
  /\ exists f, followups db' = followups db ++ [f] /\ f_ticket f = Some tid.
Proof.
  intros Hrun.
  destruct (object_from_message_ticket _ _ _ _ _ _ _ Hrun)
    as (ticket_id & payload & fs & t & Hcreate & <-).
  destruct (create_object_inversion _ _ _ _ _ _ _ _ Hcreate) as (Hex & Hf & _).
  split; assumption.
Qed.

Lemma ticket_result_has_new_followup_witness :
  let db' := snd (object_from_message (Fixture.env false false) Fixture.tagged_reply_mail 1
                    Fixture.queues Fixture.merged_db) in
  is_Some (tickets db' !! 2)
  /\ exists f, followups db' = followups Fixture.merged_db ++ [f] /\ f_ticket f = Some 2.
Proof.
  apply (ticket_result_has_new_followup (Fixture.env false false) Fixture.tagged_reply_mail
           1 Fixture.queues Fixture.merged_db).
  vm_compute. reflexivity.
Defined.

(** X7: a message that is no auto-reply and for which a ticket is returned
    has the files handed to [process_attachments] with the new follow-up
    and then mail sent, all of it for the returned ticket; for an
    auto-reply (lines 393-405) the files are handed over and no mail is
    sent. *)
Theorem autoreply_sends_no_mail
  (E : Env) (message : Message) (importer : nat) (queues : Queues) (db db' : DB)
  (tid : nat) :
  object_from_message E message importer queues db = (inr (RTicket tid), db') ->
  exists fs mails,
    events db' = events db ++ ProcessAttachments (length (followups db)) fs :: mails
    /\ (is_autoreply message = true -> mails = [])
    /\ (is_autoreply message = false -> mails <> [] /\ Forall (is_mail_for tid) mails).
Proof.
  intros Hrun.
  destruct (object_from_message_ticket _ _ _ _ _ _ _ Hrun)
    as (ticket_id & payload & fs & t & Hcreate & <-).
  destruct (create_object_inversion _ _ _ _ _ _ _ _ Hcreate) as (_ & _ & mails & Hev).
  exists fs, mails. exact Hev.
Qed.

Lemma autoreply_sends_no_mail_witness :
  let db := Fixture.merged_db in
  let db' := snd (object_from_message (Fixture.env false false) Fixture.tagged_reply_mail 1
                    Fixture.queues db) in
  exists fs mails,
    events db' = events db ++ ProcessAttachments (length (followups db)) fs :: mails
    /\ (is_autoreply Fixture.tagged_reply_mail = true -> mails = [])
    /\ (is_autoreply Fixture.tagged_reply_mail = false ->
        mails <> [] /\ Forall (is_mail_for 2) mails).
Proof.
  apply (autoreply_sends_no_mail (Fixture.env false false) Fixture.tagged_reply_mail
           1 Fixture.queues Fixture.merged_db).
  vm_compute. reflexivity.
Defined.

(** *** Which ticket rows a run writes *)

(** An invariant on the table of tickets that a write to the row of key
    [tid] maintains. *)
Section Writes.

Variable I : DB -> Prop.
Variable tid : nat.
Hypothesis I_ext : forall db db', tickets db' = tickets db -> I db -> I db'.
Hypothesis I_save :
  forall t db, I db -> I (set_tickets (<[tid := t]> (tickets db)) db).

Lemma update_ticket_status_writes (E : Env) (sender_email : string)
  (ticket : option (nat * Ticket)) (f : nat * FollowUp) :
  (forall x, ticket = Some x -> fst x = tid) ->
  preserves I (update_ticket_status E sender_email ticket f).
Proof.
  intros Hid. unfold update_ticket_status.
  apply preserves_bind;
    [apply (keeps_preserves tickets); [exact I_ext |];
     now apply keeps_User_first_by_email | intros updater].
  destruct ticket as [[tid' t] |]; [| apply preserves_raise].
  specialize (Hid _ eq_refl). cbn [fst] in Hid. subst tid'.
  apply preserves_bind;
    [apply (keeps_preserves tickets); [exact I_ext |];
     now apply keeps_User_first_by_email | intros submitter].
  apply preserves_bind.
  { apply (keeps_preserves tickets); [exact I_ext |].
    destruct (is_helpdesk_staff E (option_map row submitter) _); [| apply keeps_ret].
    apply keeps_bind; [now apply keeps_related_user | intros a; apply keeps_ret]. }
  intros differs.
  apply preserves_bind;
    [apply (keeps_preserves tickets); [exact I_ext |]; frame | intros changed].
  apply preserves_bind.
  { intros db HI. unfold Ticket_save. cbn [snd fst]. now apply I_save. }
  intros _.
  apply preserves_bind;
    [apply (keeps_preserves tickets); [exact I_ext |]; intros db; reflexivity
    | intros _; apply preserves_ret].
Qed.

Lemma record_followup_writes (E : Env) (message : Message) (payload : Payload)
  (fs : list UploadedFile) (created : option (nat * Ticket) * bool) :
  (forall x, fst created = Some x -> fst x = tid) ->
  preserves I (record_followup E message payload fs created).
Proof.
  intros Hid. unfold record_followup.
  apply preserves_bind;
    [apply (keeps_preserves tickets); [exact I_ext |];
     now apply keeps_FollowUp_create | intros f].
  apply preserves_bind.
  { destruct (negb (snd created)); [| apply preserves_ret].
    now apply update_ticket_status_writes. }
  intros updated. destruct (fst updated) as [ticket |]; [| apply preserves_raise].
  apply (keeps_preserves tickets); [exact I_ext |].
  apply keeps_bind; [now apply keeps_emit | intros _].
  apply keeps_bind; [now apply keeps_create_ticket_cc | intros _].
  apply keeps_bind; [now apply keeps_notify | intros _].
  apply keeps_ret.
Qed.

End Writes.

Lemma same_but_ext (tid : nat) (old : gmap nat Ticket) (db db' : DB) :
  tickets db' = tickets db -> same_but tid old db -> same_but tid old db'.
Proof. intros H HI k Hk. rewrite H. now apply HI. Qed.

Lemma same_but_save (tid : nat) (old : gmap nat Ticket) (t : Ticket) (db : DB) :
  same_but tid old db -> same_but tid old (set_tickets (<[tid := t]> (tickets db)) db).
Proof.
  intros HI k Hk. cbn [tickets set_tickets].
  rewrite lookup_insert_ne by congruence. now apply HI.
Qed.

Lemma stored_ext (k : nat) (db db' : DB) :
  tickets db' = tickets db -> is_Some (tickets db !! k) -> is_Some (tickets db' !! k).
Proof. now intros ->. Qed.

Lemma stored_save (k tid : nat) (t : Ticket) (db : DB) :
  is_Some (tickets db !! k) ->
  is_Some (tickets (set_tickets (<[tid := t]> (tickets db)) db) !! k).
Proof.
  intros H. cbn [tickets set_tickets]. destruct (decide (tid = k)) as [-> | Hne].
  - rewrite lookup_insert_eq. eauto.
  - now rewrite lookup_insert_ne.
Qed.

(** The ticket [resolve_ticket] finds is a row of the table. *)
Lemma resolve_ticket_stored (E : Env) (message : Message) (ticket_id : option string)
  (db db' : DB) (x : nat * Ticket) :
  resolve_ticket E message ticket_id db = (inr (Some x), db') ->
  tickets db !! fst x = Some (snd x).
Proof.
  unfold resolve_ticket. rewrite bind_run.
  pose proof (keeps_ticket_in_reply_to tickets
                (snd (parseaddr E (get message "In-Reply-To"))) db) as Hkeep.
  assert (Hfound : forall found db1,
             ticket_in_reply_to (snd (parseaddr E (get message "In-Reply-To"))) db
             = (inr found, db1) ->
             forall y, fst found = Some y -> tickets db !! fst y = Some (snd y)).
  { intros found db1 Hrun y Hy. unfold ticket_in_reply_to in Hrun.
    destruct (Str.nonempty _); [| inversion Hrun; subst; discriminate Hy].
    rewrite bind_run in Hrun. cbn [read_db] in Hrun.
    destruct (FollowUp_latest db _) as [previous |];
      [| inversion Hrun; subst; discriminate Hy].
    destruct (f_ticket (snd previous)) as [tid |]; [| discriminate Hrun].
    rewrite bind_run in Hrun. unfold related_ticket in Hrun.
    rewrite bind_run in Hrun. cbn [read_db] in Hrun.
    destruct (tickets db !! tid) as [t |] eqn:Ht; [| discriminate Hrun].
    inversion Hrun; subst. inversion Hy; subst. exact Ht. }
  destruct (ticket_in_reply_to _ db) as [[e | found] db1] eqn:Hrun; [discriminate |].
  specialize (Hfound found db1 eq_refl). cbn [snd] in Hkeep.
  intros Hid. unfold ticket_from_id in Hid.
  destruct (snd found) as [previous |]; [inversion Hid; subst; now apply Hfound |].
  destruct ticket_id as [d |]; [| inversion Hid; subst; now apply Hfound].
  rewrite bind_run in Hid. unfold Ticket_get in Hid. rewrite bind_run in Hid.
  cbn [read_db ret] in Hid. rewrite Hkeep in Hid.
  destruct (tickets db !! Str.int_of_digits d) as [t |] eqn:Ht; cbn [option_map] in Hid;
    [| discriminate Hid].
  cbn [snd] in Hid. destruct (merged_to t) as [target |].
  - rewrite bind_run in Hid. unfold related_ticket in Hid. rewrite bind_run in Hid.
    cbn [read_db] in Hid. rewrite Hkeep in Hid.
    destruct (tickets db !! target) as [t' |] eqn:Ht'; [| discriminate Hid].
    inversion Hid; subst. exact Ht'.
  - inversion Hid; subst. exact Ht.
Qed.

Lemma create_object_one_row (E : Env) (message : Message) (ticket_id : option string)
  (payload : Payload) (fs : list UploadedFile) (db : DB) :
  exists tid,
    same_but tid (tickets db)
      (snd (create_object_from_email_message E message ticket_id payload fs db)).
Proof.
  unfold create_object_from_email_message. rewrite bind_run.
  pose proof (keeps_resolve_ticket tickets E message ticket_id db) as Hres.
  destruct (resolve_ticket E message ticket_id db) as [[e | ticket] db1]; cbn [snd] in *.
  { exists 0. intros k _. now rewrite Hres. }
  rewrite bind_run, new_ticket_run.
  destruct ticket as [[tid t] |].
  - exists tid.
    apply (record_followup_writes _ tid (same_but_ext tid _) (same_but_save tid _));
      [now intros x [= <-] |].
    intros k _. now rewrite Hres.
  - destruct (QUEUE_EMAIL_BOX_UPDATE_ONLY E).
    + exists 0.
      apply (record_followup_writes _ 0 (same_but_ext 0 _) (same_but_save 0 _));
        [intros x [=] |].
      intros k _. now rewrite Hres.
    + exists (fresh (dom (tickets db1))).
      apply (record_followup_writes _ _ (same_but_ext _ _) (same_but_save _ _));
        [now intros x [= <-] |].
      now apply same_but_save; intros k _; rewrite Hres.
Qed.

Lemma create_object_keeps_stored (E : Env) (message : Message) (ticket_id : option string)
  (payload : Payload) (fs : list UploadedFile) (db : DB) (k : nat) :
  is_Some (tickets db !! k) ->
  is_Some (tickets (snd (create_object_from_email_message E message ticket_id payload fs
                           db)) !! k).
Proof.
  intros Hk. unfold create_object_from_email_message. rewrite bind_run.
  pose proof (keeps_resolve_ticket tickets E message ticket_id db) as Hres.
  destruct (resolve_ticket E message ticket_id db) as [[e | ticket] db1]; cbn [snd] in *.
  { now rewrite Hres. }
  rewrite bind_run, new_ticket_run.
  assert (Hk1 : is_Some (tickets db1 !! k)) by now rewrite Hres.
  pose (tid := match ticket with
               | Some x => fst x
               | None => fresh (dom (tickets db1))
               end).
  set (I := fun d : DB => is_Some (tickets d !! k)).
  assert (Hrec : forall created,
             (forall x, fst created = Some x -> fst x = tid) ->
             preserves I (record_followup E message payload fs created)).
  { intros created. apply record_followup_writes.
    - intros d d'. apply stored_ext.
    - intros t d. apply stored_save. }
  destruct ticket as [x |]; [apply Hrec; [now intros y [= <-] | exact Hk1] |].
  destruct (QUEUE_EMAIL_BOX_UPDATE_ONLY E).
  - apply Hrec; [intros y [=] | exact Hk1].
  - apply Hrec; [now intros y [= <-] |]. now apply stored_save.
Qed.

(** X8: whatever [object_from_message] does with a message, also when it
    raises, it writes at most one row of the table of tickets: there is
    a key such that every other ticket is stored as before; and it
    deletes none. *)
Theorem at_most_one_ticket_row_written
  (E : Env) (message : Message) (importer : nat) (queues : Queues) (db : DB) :
  let db' := snd (object_from_message E message importer queues db) in
  (exists tid, forall k, k <> tid -> tickets db' !! k = tickets db !! k)
  /\ (forall k, is_Some (tickets db !! k) -> is_Some (tickets db' !! k)).
Proof.
  cbv zeta. unfold object_from_message.
  destruct (String.eqb (snd (sender_of E message)) "");
    [split; [exists 0; reflexivity | auto] |].
  rewrite bind_run. cbn [read_db].
  destruct (ignore_guard E _ _); [split; [exists 0; reflexivity | auto] |].
  destruct (is_loop message _ _); rewrite snd_bind_ret.
  - rewrite (keeps_heal_loop tickets) by reflexivity.
    split; [exists 0; reflexivity | auto].
  - split.
    + match goal with
      | |- context [create_object_from_email_message E message ?t ?pl ?fs db] =>
          destruct (create_object_one_row E message t pl fs db) as [tid Hrow]
      end.
      exists tid. exact Hrow.
    + intros k. apply create_object_keeps_stored.
Qed.

Lemma take_length (n : nat) (s : string) : String.length (Str.take n s) <= n.
Proof.
  revert s. induction n as [| n IH]; intros [| c r]; cbn; try lia.
  specialize (IH r). lia.
Qed.

Lemma record_followup_new_keeps_tickets (E : Env) (message : Message) (payload : Payload)
  (fs : list UploadedFile) (ticket : option (nat * Ticket)) :
  keeps tickets (record_followup E message payload fs (ticket, true)).
Proof.
  unfold record_followup. cbn [fst snd negb].
  apply keeps_bind; [now apply keeps_FollowUp_create | intros f].
  apply keeps_bind; [apply keeps_ret | intros updated].
  destruct (fst updated) as [t |]; [| apply keeps_raise].
  apply keeps_bind; [now apply keeps_emit | intros _].
  apply keeps_bind; [now apply keeps_create_ticket_cc | intros _].
  apply keeps_bind; [now apply keeps_notify | intros _].
  apply keeps_ret.
Qed.

(** X9: with update-only mode off, a message that replies to no recorded
    follow-up and whose tracking id names no stored ticket opens a ticket
    under a key not in use, with the fields of lines 482-493 (status
    Open, a title of at most 200 characters), and every stored ticket
    stays as it was; this holds also when a later statement
    of the run raises. *)
Theorem unmatched_message_opens_ticket
  (E : Env) (message : Message) (ticket_id : option string) (payload : Payload)
  (files : list UploadedFile) (db : DB) :
  let in_reply_to := snd (parseaddr E (get message "In-Reply-To")) in
  let tid := fresh (dom (tickets db)) in
  QUEUE_EMAIL_BOX_UPDATE_ONLY E = false ->
  in_reply_to = "" \/ FollowUp_latest db in_reply_to = None ->
  (forall d, ticket_id = Some d -> tickets db !! Str.int_of_digits d = None) ->
  tickets db !! tid = None
  /\ tickets (snd (create_object_from_email_message E message ticket_id payload files db))
     = <[tid := email_ticket E payload]> (tickets db)
  /\ status (email_ticket E payload) = OPEN_STATUS
  /\ String.length (title (email_ticket E payload)) <= 200.
Proof.
  cbv zeta. intros Hmode Hreply Hid.
  split; [apply fresh_ticket_unused |].
  split; [| split; [reflexivity | apply take_length]].
  unfold create_object_from_email_message.
  rewrite bind_run, (resolve_ticket_none E message ticket_id db Hreply Hid).
  rewrite bind_run, new_ticket_run, Hmode.
  now rewrite record_followup_new_keeps_tickets.
Qed.

Lemma unmatched_message_opens_ticket_witness :
  let payload := mkPayload "it is broken" (Some "it is broken") "printer broken"
                   Fixture.support ("", "user@x.com") 3 [] [] [] in
  tickets Fixture.empty_db !! 0 = None
  /\ tickets (snd (create_object_from_email_message (Fixture.env false false)
                     Fixture.unmatched_mail None payload [] Fixture.empty_db))
     = <[0 := email_ticket (Fixture.env false false) payload]> (tickets Fixture.empty_db)
  /\ status (email_ticket (Fixture.env false false) payload) = OPEN_STATUS
  /\ String.length (title (email_ticket (Fixture.env false false) payload)) <= 200.
Proof.
  apply (unmatched_message_opens_ticket (Fixture.env false false) Fixture.unmatched_mail None
           (mkPayload "it is broken" (Some "it is broken") "printer broken" Fixture.support
              ("", "user@x.com") 3 [] [] [])
           [] Fixture.empty_db).
  - reflexivity.
  - left. reflexivity.
  - intros d Hd. discriminate Hd.
Defined.

(** *** Subscribing the addressees *)

Lemma create_ticket_cc_loop_rows (E : Env) (ticket : nat * Ticket)
  (cc_list : list (string * string)) (acc : list TicketCC) (db : DB) :
  exists added,
    ticketccs (snd (create_ticket_cc_loop E ticket cc_list acc db)) = ticketccs db ++ added
    /\ Forall (fun cc =>
                 cc_ticket cc = fst ticket
                 /\ cc_email cc <> email_address (queue (snd ticket))
                 /\ exists p, In p cc_list /\ cc_email cc = Str.strip (snd p))
         added.
Proof.
  revert acc db. induction cc_list as [| [name email] rest IH]; intros acc db.
  - exists []. cbn. rewrite app_nil_r. split; [reflexivity | constructor].
  - assert (Hweak : forall added : list TicketCC,
               Forall (fun cc =>
                         cc_ticket cc = fst ticket
                         /\ cc_email cc <> email_address (queue (snd ticket))
                         /\ exists p, In p rest /\ cc_email cc = Str.strip (snd p)) added ->
               Forall (fun cc =>
                         cc_ticket cc = fst ticket
                         /\ cc_email cc <> email_address (queue (snd ticket))
                         /\ exists p, In p ((name, email) :: rest)
                                      /\ cc_email cc = Str.strip (snd p)) added).
    { intros added Hall. eapply Forall_impl; [exact Hall |].
      intros cc (H1 & H2 & p & Hp & H3).
      repeat split; auto. exists p. split; [now right | exact H3]. }
    cbn [create_ticket_cc_loop].
    destruct (String.eqb (Str.strip email) (email_address (queue (snd ticket))))
      eqn:Hqueue.
    { destruct (IH acc db) as (added & Heq & Hall). exists added. auto. }
    apply String.eqb_neq in Hqueue.
    rewrite bind_run.
    pose proof (keeps_User_get_by_email ticketccs (Str.strip email) db) as Huser.
    destruct (User_get_by_email (Str.strip email) db) as [[e | user] db1]; cbn [snd] in *.
    { exists []. rewrite app_nil_r. split; [exact Huser | constructor]. }
    rewrite bind_run. unfold subscribe_to_ticket_updates.
    destruct (valid_cc_email E (Str.strip email)); cbn [negb].
    + rewrite bind_run. cbn [read_db].
      destruct (List.find _ (ticketccs db1)) as [cc |]; cbn [ret].
      * destruct (IH (acc ++ [cc]) db1) as (added & Heq & Hall).
        exists added. rewrite Heq, Huser. auto.
      * match goal with
        | |- context [create_ticket_cc_loop E ticket rest ?a ?d] =>
            destruct (IH a d) as (added & Heq & Hall)
        end.
        exists (mkTicketCC (fst ticket) (option_map u_id user) (Str.strip email) :: added).
        rewrite Heq. cbn [ticketccs set_ticketccs]. rewrite Huser, <- app_assoc.
        split; [reflexivity |]. constructor; [| auto].
        cbn [cc_ticket cc_email]. repeat split; auto.
        exists (name, email). split; [now left | reflexivity].
    + cbn [ret]. destruct (IH acc db1) as (added & Heq & Hall).
      exists added. rewrite Heq, Huser. auto.
Qed.

(** X10: [create_ticket_cc] only adds to the table of subscriptions: the
    rows stored before stay, in their order, and every row added is for
    the given ticket and for the stripped address of one of the
    addressees; the queue's own address is never subscribed.  This holds
    also for a run that raises. *)
Theorem create_ticket_cc_skips_queue_address
  (E : Env) (ticket : nat * Ticket) (cc_list : list (string * string)) (db : DB) :
  exists added,
    ticketccs (snd (create_ticket_cc E ticket cc_list db)) = ticketccs db ++ added
    /\ Forall (fun cc =>
                 cc_ticket cc = fst ticket
                 /\ cc_email cc <> email_address (queue (snd ticket))
                 /\ exists p, In p cc_list /\ cc_email cc = Str.strip (snd p))
         added.
Proof. apply create_ticket_cc_loop_rows. Qed.

(** *** No follow-up without a ticket *)

Lemma never_raises_bind {A B : Type} (e : Exn) (c : M A) (k : A -> M B) :
  never_raises e c -> (forall a, never_raises e (k a)) -> never_raises e (bind c k).
Proof.
  intros Hc Hk db. rewrite bind_run. specialize (Hc db).
  destruct (c db) as [[e' | a] db1]; cbn [fst] in *; [congruence | apply Hk].
Qed.

(** One step of such a proof: peel a [bind], split on the value a
    statement branches on, or close a statement that returns or raises
    another exception. *)
Ltac no_raise_step :=
  match goal with
  | |- never_raises _ (bind _ _) => apply never_raises_bind; [| intros ?]
  | |- never_raises _ (match ?x with _ => _ end) => destruct x
  | |- never_raises _ (let (_, _) := ?x in _) => destruct x
  | |- never_raises _ _ => intros ?; discriminate
  end.

Ltac no_raise := repeat no_raise_step.

Lemma never_raises_User_first_by_email (email : string) :
  never_raises IntegrityError (User_first_by_email email).
Proof. unfold User_first_by_email. no_raise. Qed.

Lemma never_raises_related_ticket (tid : nat) :
  never_raises IntegrityError (related_ticket tid).
Proof. unfold related_ticket. no_raise. Qed.

Lemma never_raises_resolve_ticket (E : Env) (message : Message)
  (ticket_id : option string) :
  never_raises IntegrityError (resolve_ticket E message ticket_id).
Proof.
  unfold resolve_ticket. apply never_raises_bind.
  - unfold ticket_in_reply_to. destruct (Str.nonempty _); [| no_raise].
    apply never_raises_bind; [no_raise | intros db].
    destruct (FollowUp_latest db _) as [previous |]; [| no_raise].
    destruct (f_ticket (snd previous)); [| no_raise].
    apply never_raises_bind; [apply never_raises_related_ticket | intros t; no_raise].
  - intros found. unfold ticket_from_id.
    destruct (snd found); [no_raise |]. destruct ticket_id; [| no_raise].
    apply never_raises_bind; [unfold Ticket_get; no_raise | intros [ticket |]]; [| no_raise].
    destruct (merged_to (snd ticket)); [| no_raise].
    apply never_raises_bind; [apply never_raises_related_ticket | intros t; no_raise].
Qed.

Lemma never_raises_update_ticket_status (E : Env) (sender_email : string)
  (ticket : option (nat * Ticket)) (f : nat * FollowUp) :
  never_raises IntegrityError (update_ticket_status E sender_email ticket f).
Proof.
  unfold update_ticket_status.
  apply never_raises_bind; [apply never_raises_User_first_by_email | intros updater].
  destruct ticket as [[tid t] |]; [| no_raise].
  apply never_raises_bind; [apply never_raises_User_first_by_email | intros submitter].
  apply never_raises_bind.
  { destruct (is_helpdesk_staff E (option_map row submitter) _); [| no_raise].
    apply never_raises_bind; [unfold related_user; no_raise | intros a; no_raise]. }
  intros differs. apply never_raises_bind; [no_raise | intros changed].
  unfold Ticket_save, FollowUp_save. no_raise.
Qed.

Lemma never_raises_create_ticket_cc (E : Env) (ticket : nat * Ticket)
  (cc_list : list (string * string)) :
  never_raises IntegrityError (create_ticket_cc E ticket cc_list).
Proof.
  unfold create_ticket_cc. generalize (@nil TicketCC) as acc.
  induction cc_list as [| [name email] rest IH]; intros acc; cbn [create_ticket_cc_loop].
  - no_raise.
  - destruct (String.eqb _ _); [apply IH |].
    apply never_raises_bind; [unfold User_get_by_email; no_raise | intros user].
    apply never_raises_bind; [unfold subscribe_to_ticket_updates; no_raise |].
    intros [cc |]; apply IH.
Qed.

Lemma never_raises_record_followup (E : Env) (message : Message) (payload : Payload)
  (fs : list UploadedFile) (created : option (nat * Ticket) * bool) :
  fst created <> None ->
  never_raises IntegrityError (record_followup E message payload fs created).
Proof.
  intros Hcreated. unfold record_followup. apply never_raises_bind.
  { unfold FollowUp_create. cbn [new_followup f_ticket].
    destruct (fst created); [| contradiction]. intros db. cbn. discriminate. }
  intros f. apply never_raises_bind.
  { destruct (negb (snd created)); [apply never_raises_update_ticket_status | no_raise]. }
  intros updated. destruct (fst updated) as [ticket |]; [| no_raise].
  apply never_raises_bind; [unfold emit; no_raise | intros _].
  apply never_raises_bind; [apply never_raises_create_ticket_cc | intros _].
  apply never_raises_bind; [unfold notify, emit; no_raise | intros _; no_raise].
Qed.

Lemma create_object_no_orphan (E : Env) (message : Message) (ticket_id : option string)
  (payload : Payload) (fs : list UploadedFile) (db : DB) :
  QUEUE_EMAIL_BOX_UPDATE_ONLY E = false ->
  let run := create_object_from_email_message E message ticket_id payload fs db in
  fst run <> inl IntegrityError
  /\ (followups (snd run) = followups db
      \/ exists f tid,
           followups (snd run) = followups db ++ [f]
           /\ f_ticket f = Some tid
           /\ is_Some (tickets (snd run) !! tid)).
Proof.
  intros Hmode. cbv zeta. unfold create_object_from_email_message. rewrite bind_run.
  pose proof (keeps_resolve_ticket followups E message ticket_id db) as Hfs.
  pose proof (keeps_resolve_ticket tickets E message ticket_id db) as Hts.
  pose proof (never_raises_resolve_ticket E message ticket_id db) as Hraise.
  destruct (resolve_ticket E message ticket_id db) as [[e | ticket] db1] eqn:Hres;
    cbn [fst snd] in *.
  { split; [congruence | left; exact Hfs]. }
  rewrite bind_run, new_ticket_run, Hmode.
  assert (Hcreated : exists created db2 tid,
             match ticket with
             | Some _ => (inr (ticket, false), db1)
             | None =>
                 (inr (Some (fresh (dom (tickets db1)), email_ticket E payload), true),
                  set_tickets (<[fresh (dom (tickets db1)) := email_ticket E payload]>
                                 (tickets db1)) db1)
             end = (@inr Exn _ created, db2)
             /\ option_map fst (fst created) = Some tid
             /\ is_Some (tickets db2 !! tid)
             /\ followups db2 = followups db).
  { destruct ticket as [x |].
    - exists (Some x, false), db1, (fst x). repeat split; auto.
      rewrite Hts, (resolve_ticket_stored _ _ _ _ _ _ Hres). eauto.
    - eexists _, _, _. split; [reflexivity |]. split; [reflexivity |].
      cbn [tickets set_tickets followups]. rewrite lookup_insert_eq. eauto. }
  destruct Hcreated as (created & db2 & tid & -> & Htid & Hstored & Hfs2).
  split.
  - apply never_raises_record_followup. destruct (fst created); [discriminate |].
    discriminate Htid.
  - right.
    destruct (record_followup_appends E message payload fs created db2)
      as [(_ & Hnone & _) | (f & Hf & Hticket & _)].
    + cbn [new_followup f_ticket] in Hnone. congruence.
    + exists f, tid. split; [congruence |]. split.
      * rewrite Hticket. exact Htid.
      * apply (record_followup_writes (fun d => is_Some (tickets d !! tid)) tid);
          [intros d d'; apply stored_ext | intros t d; apply stored_save | | exact Hstored].
        intros x Hx. rewrite Hx in Htid. now inversion Htid.
Qed.

(** X11: with update-only mode off, [object_from_message] never raises
    [IntegrityError], and it leaves no follow-up without a ticket: the
    follow-ups are as before or one was added, and that one belongs to a
    ticket that is stored afterwards.  This holds for every run, also one
    that raises after the follow-up was written. *)
Theorem followup_has_ticket_outside_update_only
  (E : Env) (message : Message) (importer : nat) (queues : Queues) (db : DB) :
  QUEUE_EMAIL_BOX_UPDATE_ONLY E = false ->
  let run := object_from_message E message importer queues db in
  fst run <> inl IntegrityError
  /\ (followups (snd run) = followups db
      \/ exists f tid,
           followups (snd run) = followups db ++ [f]
           /\ f_ticket f = Some tid
           /\ is_Some (tickets (snd run) !! tid)).
Proof.
  intros Hmode. cbv zeta. unfold object_from_message.
  destruct (String.eqb (snd (sender_of E message)) "");
    [split; [discriminate | now left] |].
  rewrite bind_run. cbn [read_db].
  destruct (ignore_guard E _ _); [split; [discriminate | now left] |].
  destruct (is_loop message _ _).
  - split.
    + rewrite bind_run, heal_loop_run.
      destruct (_ && _); [| discriminate].
      destruct (forwarded_addresses _ _ _); discriminate.
    + left. rewrite snd_bind_ret. now apply keeps_heal_loop.
  - split.
    + rewrite bind_run.
      match goal with
      | |- context [create_object_from_email_message E message ?t ?pl ?fs db] =>
          destruct (create_object_no_orphan E message t pl fs db Hmode) as [Hraise _];
          destruct (create_object_from_email_message E message t pl fs db)
            as [[e | t'] db1]
      end; [cbn [fst] in *; congruence | discriminate].
    + rewrite snd_bind_ret.
      match goal with
      | |- context [create_object_from_email_message E message ?t ?pl ?fs db] =>
          exact (proj2 (create_object_no_orphan E message t pl fs db Hmode))
      end.
Qed.

Lemma followup_has_ticket_outside_update_only_witness :
  let run := object_from_message (Fixture.env false false) Fixture.unmatched_mail 1
               Fixture.queues Fixture.empty_db in
  fst run <> inl IntegrityError
  /\ (followups (snd run) = followups Fixture.empty_db
      \/ exists f tid,
           followups (snd run) = followups Fixture.empty_db ++ [f]
           /\ f_ticket f = Some tid
           /\ is_Some (tickets (snd run) !! tid)).
Proof.
  apply (followup_has_ticket_outside_update_only (Fixture.env false false)
           Fixture.unmatched_mail 1 Fixture.queues Fixture.empty_db).
  reflexivity.
Defined.

(** ** The walk over the MIME parts *)

Lemma part_name_none (E : Env) (p : Part) :
  part_name E p = None <-> name_param p = None.
Proof.
  unfold part_name. destruct (name_param p) as [n |]; [| tauto].
  destruct (Str.nonempty n); split; discriminate.
Qed.

Lemma part_step_cases (E : Env) (ticket : option string) (st : Extracted) (p : Part) :
  (is_leaf p = false /\ part_step E ticket st p = st)
  \/ (is_plain_body p = true
      /\ body (part_step E ticket st p)
         = Some (unicode_unescape E (parse_reply E (plain_text E p)))
      /\ files (part_step E ticket st p) = files st)
  \/ (is_html_body p = true
      /\ body (part_step E ticket st p) = body st
      /\ files (part_step E ticket st p)
         = files st ++ [mkFile "email_html_body.html" (html_document (smart_text E p))
                          (Some "text/html")])
  \/ (is_leaf p = true /\ is_plain_body p = false /\ is_html_body p = false
      /\ body (part_step E ticket st p) = body st
      /\ let fname := attachment_name E p (counter st) (part_name E p) in
         files (part_step E ticket st p)
         = files st ++ [mkFile fname (payload p) (guess_type E fname)]).
Proof.
  unfold part_step, is_plain_body, is_html_body, is_leaf.
  destruct (String.eqb (content_maintype p) "multipart"); cbn [negb andb]; [now left |].
  right. pose proof (part_name_none E p) as Hname.
  destruct (part_name E p) as [n |].
  - destruct (name_param p) as [m |]; [| now destruct Hname as [_ H]; discriminate H].
    right. right. cbn. auto.
  - rewrite (proj1 Hname eq_refl).
    destruct (String.eqb (content_maintype p) "text"); cbn [andb].
    + destruct (String.eqb (content_subtype p) "plain"); cbn [negb].
      * left. cbn. auto.
      * right. left. cbn. auto.
    + right. right. cbn. auto.
Qed.

Lemma walk_parts_snoc (E : Env) (ticket : option string) (parts : list Part) (p : Part) :
  walk_parts E ticket (parts ++ [p]) = part_step E ticket (walk_parts E ticket parts) p.
Proof. unfold walk_parts. now rewrite fold_left_app. Qed.

Lemma walk_parts_counter (E : Env) (ticket : option string) (parts : list Part) :
  counter (walk_parts E ticket parts) = length (List.filter is_leaf parts).
Proof. unfold walk_parts. now rewrite walk_counter. Qed.

(** X12: the walk makes one file of every part that is no container,
    but for the text/plain parts without a name, which give the body and
    no file. *)
Theorem walk_parts_file_count (E : Env) (ticket : option string) (parts : list Part) :
  length (files (walk_parts E ticket parts))
  = length (List.filter (fun p => is_leaf p && negb (is_plain_body p)) parts).
Proof.
  induction parts as [| p parts IH] using rev_ind; [reflexivity |].
  rewrite walk_parts_snoc, List.filter_app, length_app. cbn [List.filter].
  destruct (part_step_cases E ticket (walk_parts E ticket parts) p)
    as [[Hleaf ->] | [(Hplain & _ & ->) | [(Hhtml & _ & ->) | (Hleaf & Hplain & _ & _ & Hf)]]].
  - rewrite Hleaf. cbn. lia.
  - rewrite Hplain, andb_false_r. cbn. lia.
  - assert (Hleaf : is_leaf p = true /\ is_plain_body p = false).
    { unfold is_html_body, is_plain_body in *.
      destruct (is_leaf p); [| discriminate]. split; [reflexivity |].
      destruct (name_param p); [reflexivity |].
      destruct (String.eqb (content_maintype p) "text"); [| reflexivity].
      destruct (String.eqb (content_subtype p) "plain"); [discriminate | reflexivity]. }
    destruct Hleaf as [-> ->]. rewrite length_app. cbn. lia.
  - cbv zeta in Hf. rewrite Hf, Hleaf, Hplain, length_app. cbn. lia.
Qed.

(** X13: of several text/plain parts without a name the last one gives
    the body; the others are not kept, neither as text nor as a file. *)
Theorem last_plain_part_is_the_body
  (E : Env) (ticket : option string) (before after : list Part) (p : Part) :
  is_plain_body p = true ->
  forallb (fun q => negb (is_plain_body q)) after = true ->
  body (walk_parts E ticket (before ++ p :: after))
  = Some (unicode_unescape E (parse_reply E (plain_text E p))).
Proof.
  intros Hp. induction after as [| q after IH] using rev_ind; intros Hafter.
  - rewrite walk_parts_snoc.
    destruct (part_step_cases E ticket (walk_parts E ticket before) p)
      as [[Hleaf _] | [(_ & Hbody & _) | [(Hhtml & _) | (_ & Hplain & _)]]].
    + unfold is_plain_body in Hp. rewrite Hleaf in Hp. discriminate Hp.
    + exact Hbody.
    + unfold is_plain_body, is_html_body in *.
      destruct (is_leaf p), (name_param p), (String.eqb (content_maintype p) "text"),
        (String.eqb (content_subtype p) "plain"); discriminate.
    + congruence.
  - rewrite forallb_app in Hafter. apply andb_true_iff in Hafter as [Hafter Hq].
    cbn in Hq. rewrite andb_true_r in Hq. apply negb_true_iff in Hq.
    change (before ++ p :: after ++ [q]) with (before ++ (p :: after) ++ [q]).
    rewrite app_assoc, walk_parts_snoc.
    destruct (part_step_cases E ticket (walk_parts E ticket (before ++ p :: after)) q)
      as [[_ ->] | [(Hplain & _) | [(_ & -> & _) | (_ & _ & _ & -> & _)]]];
      auto; congruence.
Qed.

Lemma last_plain_part_is_the_body_witness :
  body (walk_parts (Fixture.env false false) None
          ([Fixture.text_plain "first"] ++ Fixture.text_plain "second" :: [Fixture.invoice]))
  = Some "second".
Proof.
  apply (last_plain_part_is_the_body (Fixture.env false false) None
           [Fixture.text_plain "first"] [Fixture.invoice] (Fixture.text_plain "second"));
    reflexivity.
Defined.

Lemma strip_prefix_append_l (p a b r : string) :
  Str.strip_prefix p a = Some r -> Str.strip_prefix p (a +:+ b) = Some (r +:+ b).
Proof.
  revert a. induction p as [| x p IH]; intros a H; simpl in *.
  - now inversion H.
  - destruct a as [| y a]; [discriminate |]. simpl.
    destruct (Ascii.eqb x y); [now apply IH | discriminate].
Qed.

Lemma contains_append_l (p a b : string) :
  Str.contains p a = true -> Str.contains p (a +:+ b) = true.
Proof.
  induction a as [| c a IH]; intros H.
  - simpl in H. destruct p; [| discriminate H]. destruct b; reflexivity.
  - cbn [Str.contains] in H.
    destruct (Str.strip_prefix p (String c a)) as [r |] eqn:Hp.
    + change (String c a +:+ b) with (String c (a +:+ b)). cbn [Str.contains].
      change (String c (a +:+ b)) with (String c a +:+ b).
      now rewrite (strip_prefix_append_l _ _ b _ Hp).
    + change (String c a +:+ b) with (String c (a +:+ b)). cbn [Str.contains].
      destruct (Str.strip_prefix p (String c (a +:+ b))); [reflexivity | now apply IH].
Qed.

Lemma contains_append_r (p a b : string) :
  Str.contains p b = true -> Str.contains p (a +:+ b) = true.
Proof.
  intros H. induction a as [| c a IH]; [exact H |].
  change (String c a +:+ b) with (String c (a +:+ b)). cbn [Str.contains].
  destruct (Str.strip_prefix p (String c (a +:+ b))); [reflexivity | exact IH].
Qed.

Lemma html_document_has_body (s : string) :
  Str.contains "<body" (html_document s) = true.
Proof.
  unfold html_document.
  do 5 apply contains_append_r.
  apply contains_append_l.
  destruct (Str.contains "<body" s) eqn:Hs; cbn [negb]; [exact Hs | reflexivity].
Qed.

Lemma attachment_index (E : Env) (p : Part) (i : nat) (name : option string) :
  (forall ct c r, guess_extension E ct = Some (String c r) -> Str.is_digit c = false) ->
  part_index (attachment_name E p i name) = Some i.
Proof.
  intros Hext.
  assert (Hidx : forall s,
             match s with String c _ => Str.is_digit c = false | EmptyString => True end ->
             part_index ("part-" +:+ pretty i +:+ s) = Some i).
  { intros s Hs. unfold part_index. rewrite strip_prefix_append.
    destruct (pretty_nat_digits i) as (Hint & Hdigits & Hne).
    rewrite (span_digits_append _ _ Hdigits Hs).
    destruct (pretty i) as [| c d] eqn:Hp; [contradiction |]. now rewrite Hint. }
  unfold attachment_name. destruct (truthy name); cbn [negb].
  - apply Hidx. reflexivity.
  - apply Hidx. destruct (guess_extension E (content_type p)) as [[| c r] |] eqn:He;
      cbn [default]; [exact I | now apply (Hext _ _ _ He) | reflexivity].
Qed.

Lemma attachment_not_html (E : Env) (p : Part) (i : nat) (name : option string)
  (content : string) (type : option string) :
  is_html_file (mkFile (attachment_name E p i name) content type) = false.
Proof.
  unfold is_html_file, attachment_name. cbn [file_name].
  destruct (negb (truthy name)); reflexivity.
Qed.

Lemma html_body_is_leaf (p : Part) :
  is_html_body p = true -> is_leaf p = true /\ is_plain_body p = false.
Proof.
  unfold is_html_body, is_plain_body.
  destruct (is_leaf p); [| discriminate]. split; [reflexivity |].
  destruct (name_param p); [reflexivity |].
  destruct (String.eqb (content_maintype p) "text"); [| reflexivity].
  destruct (String.eqb (content_subtype p) "plain"); [discriminate | reflexivity].
Qed.

(** X14: the files named [email_html_body.html] are the documents made
    of the text parts that are not plain and carry no name, and no
    other: no attachment takes that name; and such a document always has
    a body element. *)
Theorem html_files_are_the_html_parts
  (E : Env) (ticket : option string) (parts : list Part) (f : UploadedFile) :
  (In f (files (walk_parts E ticket parts)) /\ is_html_file f = true
   <-> exists p, In p parts /\ is_html_body p = true
                 /\ f = mkFile "email_html_body.html" (html_document (smart_text E p))
                          (Some "text/html"))
  /\ (forall p, Str.contains "<body" (html_document (smart_text E p)) = true).
Proof.
  assert (Hiff : In f (files (walk_parts E ticket parts)) /\ is_html_file f = true
                 <-> exists p, In p parts /\ is_html_body p = true
                               /\ f = mkFile "email_html_body.html"
                                        (html_document (smart_text E p)) (Some "text/html")).
  { induction parts as [| q parts IH] using rev_ind.
    - split; [intros [[] _] | intros (p & [] & _)].
    - rewrite walk_parts_snoc.
      assert (Hold : (exists p, In p parts /\ is_html_body p = true
                                /\ f = mkFile "email_html_body.html"
                                         (html_document (smart_text E p)) (Some "text/html"))
                     -> exists p, In p (parts ++ [q]) /\ is_html_body p = true
                                  /\ f = mkFile "email_html_body.html"
                                           (html_document (smart_text E p))
                                           (Some "text/html")).
      { intros (p & Hp & H). exists p. split; [apply in_or_app; now left | exact H]. }
      assert (Hnew : is_html_body q = false ->
                     (exists p, In p (parts ++ [q]) /\ is_html_body p = true
                                /\ f = mkFile "email_html_body.html"
                                         (html_document (smart_text E p)) (Some "text/html"))
                     -> exists p, In p parts /\ is_html_body p = true
                                  /\ f = mkFile "email_html_body.html"
                                           (html_document (smart_text E p))
                                           (Some "text/html")).
      { intros Hq (p & Hp & Hhtml & H). apply in_app_or in Hp as [Hp | [<- | []]].
        - exists p. auto.
        - congruence. }
      destruct (part_step_cases E ticket (walk_parts E ticket parts) q)
        as [[Hleaf ->] | [(Hplain & _ & ->) | [(Hhtml & _ & ->) | (_ & _ & Hhtml & _ & Hf)]]].
      + rewrite IH. split; [exact Hold | apply Hnew].
        unfold is_html_body. now rewrite Hleaf.
      + rewrite IH. split; [exact Hold | apply Hnew].
        unfold is_html_body, is_plain_body in *.
        destruct (is_leaf q), (name_param q), (String.eqb (content_maintype q) "text"),
          (String.eqb (content_subtype q) "plain"); try discriminate; reflexivity.
      + split.
        * intros [Hin Hf]. apply in_app_or in Hin as [Hin | [<- | []]].
          -- apply Hold, IH. auto.
          -- exists q. split; [apply in_or_app; right; now left | auto].
        * intros (p & Hp & Hpb & ->). split; [| reflexivity].
          apply in_app_or in Hp as [Hp | [<- | []]].
          -- apply in_or_app. left. apply IH. exists p. auto.
          -- apply in_or_app. right. now left.
      + cbv zeta in Hf. rewrite Hf. split.
        * intros [Hin Hfile]. apply in_app_or in Hin as [Hin | [<- | []]].
          -- apply Hold, IH. auto.
          -- now rewrite attachment_not_html in Hfile.
        * intros H. apply (Hnew Hhtml) in H. apply IH in H as [Hin Hfile].
          split; [apply in_or_app; now left | exact Hfile]. }
  split; [exact Hiff |].
  intros p. apply html_document_has_body.
Qed.

Lemma walk_attachment_indices (E : Env) (ticket : option string) (parts : list Part) :
  (forall ct c r, guess_extension E ct = Some (String c r) -> Str.is_digit c = false) ->
  let fs := List.filter (fun f => negb (is_html_file f)) (files (walk_parts E ticket parts)) in
  NoDup (List.map file_name fs)
  /\ Forall (fun f => exists i, i < counter (walk_parts E ticket parts)
                                /\ part_index (file_name f) = Some i) fs.
Proof.
  intros Hext. cbv zeta.
  induction parts as [| q parts [IHdup IHidx]] using rev_ind.
  - split; constructor.
  - rewrite walk_parts_snoc.
    assert (Hweak : forall fs : list UploadedFile,
               Forall (fun f => exists i, i < counter (walk_parts E ticket parts)
                                          /\ part_index (file_name f) = Some i) fs ->
               Forall (fun f => exists i,
                         i < counter (part_step E ticket (walk_parts E ticket parts) q)
                         /\ part_index (file_name f) = Some i) fs).
    { intros fs H. eapply Forall_impl; [exact H |]. intros f (i & Hi & Hf).
      exists i. split; [| exact Hf]. rewrite part_step_counter. lia. }
    destruct (part_step_cases E ticket (walk_parts E ticket parts) q)
      as [[Hleaf Hst] | [(Hplain & _ & Hst) | [(Hhtml & _ & Hst) | (Hleaf & _ & _ & _ & Hst)]]].
    + assert (Hfiles : files (part_step E ticket (walk_parts E ticket parts) q)
                       = files (walk_parts E ticket parts)) by now rewrite Hst.
      rewrite Hfiles. auto.
    + rewrite Hst. auto.
    + rewrite Hst, List.filter_app. cbn. rewrite app_nil_r. auto.
    + cbv zeta in Hst. rewrite Hst, List.filter_app. cbn [List.filter].
      rewrite attachment_not_html. cbn [negb]. rewrite List.map_app. cbn [List.map file_name].
      pose proof (attachment_index E q (counter (walk_parts E ticket parts))
                    (part_name E q) Hext) as Hidx.
      split.
      * apply NoDup_app. split; [exact IHdup |]. split; [| apply NoDup_singleton].
        intros n Hn Hn'. apply list_elem_of_singleton in Hn'. subst n.
        apply list_elem_of_fmap in Hn as (f & Hname & Hf).
        rewrite Forall_forall in IHidx. destruct (IHidx f Hf) as (i & Hi & Hfi).
        rewrite <- Hname, Hidx in Hfi. inversion Hfi. lia.
      * apply Forall_app. split; [now apply Hweak |].
        constructor; [| constructor]. cbn [file_name].
        exists (counter (walk_parts E ticket parts)). split; [| exact Hidx].
        rewrite part_step_counter, Hleaf. lia.
Qed.

(** X15: when no extension guessed for a content type begins with a digit
    (those of [mimetypes] begin with a dot), the attachments of one
    message have file names that differ from one another, whatever the
    names the parts declare: each name carries the index of its part. *)
Theorem attachment_names_differ (E : Env) (ticket : option string) (parts : list Part) :
  (forall ct c r, guess_extension E ct = Some (String c r) -> Str.is_digit c = false) ->
  NoDup (List.map file_name
           (List.filter (fun f => negb (is_html_file f))
              (files (walk_parts E ticket parts)))).
Proof. intros Hext. now apply walk_attachment_indices. Qed.

Lemma attachment_names_differ_witness :
  NoDup (List.map file_name
           (List.filter (fun f => negb (is_html_file f))
              (files (walk_parts (Fixture.env false false) None
                        [Fixture.text_plain "see both"; Fixture.invoice; Fixture.invoice])))).
Proof.
  apply (attachment_names_differ (Fixture.env false false) None
           [Fixture.text_plain "see both"; Fixture.invoice; Fixture.invoice]).
  intros ct c r H. cbn in H.
  destruct (String.eqb ct "application/pdf"); [| discriminate H].
  injection H as <- _. reflexivity.
Defined.

(** ** The transports *)

Lemma sbind_run {A B : Type} (c : Sync A) (k : A -> Sync B) (s : Session) :
  sbind c k s =
  match c s with
  | (inl e, s') => (inl e, s')
  | (inr a, s') => k a s'
  end.
Proof. reflexivity. Qed.

Lemma lift_run {A : Type} (c : M A) (s : Session) :
  lift c s = (fst (c (store s)), mkSession (sent s) (ticks s) (snd (c (store s)))).
Proof. unfold lift. now destruct (c (store s)). Qed.

Lemma for_each_preserves {A : Type} (J : Session -> Prop) (l : list A)
  (body : A -> Sync unit) :
  (forall x, In x l -> forall s, J s -> J (snd (body x s))) ->
  forall s, J s -> J (snd (for_each l body s)).
Proof.
  induction l as [| x l IH]; intros Hbody s HJ; [exact HJ |].
  cbn [for_each]. rewrite sbind_run.
  pose proof (Hbody x (or_introl eq_refl) s HJ) as Hx.
  destruct (body x s) as [[e | u] s1]; [exact Hx |].
  apply IH; [| exact Hx]. intros y Hy. apply Hbody. now right.
Qed.

(** *** [parse_uid] *)

(** X16: [parse_uid] returns [uid] exactly for the data that begin with
    a sequence number, a space and [(UID uid)], both numbers being
    non-empty runs of digits; whatever follows the closing bracket is not
    read.  For all other data it raises [AttributeError]. *)
Theorem parse_uid_spec (data uid : string) :
  (parse_uid data = inr uid
   <-> exists seq rest,
         data = seq +:+ " (UID " +:+ uid +:+ ")" +:+ rest
         /\ seq <> "" /\ Str.all_digits seq = true
         /\ uid <> "" /\ Str.all_digits uid = true)
  /\ (parse_uid data = inl AttributeError \/ exists u, parse_uid data = inr u).
Proof.
  split; [split |].
  - unfold parse_uid. intros H.
    destruct (Str.span_digits data) as [seq r] eqn:Hseq.
    apply span_digits_inv in Hseq as [-> Hdigits].
    destruct seq as [| c seq]; [discriminate H |].
    destruct (Str.strip_prefix " (UID " r) as [r' |] eqn:Hr; [| discriminate H].
    apply strip_prefix_inv in Hr. subst r.
    destruct (Str.span_digits r') as [u r''] eqn:Hu.
    apply span_digits_inv in Hu as [-> Hudigits].
    destruct u as [| d u]; [discriminate H |].
    destruct r'' as [| b rest]; [discriminate H |].
    destruct (Ascii.eqb_spec b ")") as [-> | Hb].
    + inversion H; subst uid. exists (String c seq), rest.
      split; [reflexivity | repeat split; auto; discriminate].
    + exfalso. revert H Hb. clear.
      destruct b as [[] [] [] [] [] [] [] []]; try discriminate. congruence.
  - intros (seq & rest & -> & Hseq & Hdigits & Huid & Hudigits). unfold parse_uid.
    rewrite (span_digits_append seq _ Hdigits) by reflexivity.
    destruct seq as [| c seq]; [contradiction |].
    rewrite strip_prefix_append.
    rewrite (span_digits_append uid _ Hudigits) by reflexivity.
    destruct uid as [| d uid]; [contradiction | reflexivity].
  - unfold parse_uid.
    destruct (Str.span_digits data) as [[| c seq] r]; [now left |].
    destruct (Str.strip_prefix " (UID " r) as [r' |]; [| now left].
    destruct (Str.span_digits r') as [[| d u] [| b rest]]; try (now left).
    destruct b as [[] [] [] [] [] [] [] []]; try (now left). right. eexists. reflexivity.
Qed.

(** *** What leaves a message in the mailbox *)

Lemma object_from_message_kept (E : Env) (message : Message) (importer : nat)
  (queues : Queues) (db : DB) :
  snd (sender_of E message) <> "" ->
  ignore_guard E (ignore_rules db importer) (screened_addresses E message) = Some false ->
  object_from_message E message importer queues db = (inr (RBool false), db).
Proof.
  intros Hsender Hguard. unfold object_from_message.
  destruct (String.eqb_spec (snd (sender_of E message)) ""); [contradiction |].
  rewrite bind_run. cbn [read_db]. now rewrite Hguard.
Qed.

(** X17: [object_from_message] gives a result that leaves the message in
    the mailbox in one case only: the sender was parsed and the first
    ignore rule that matches asks to keep the message.  Every other run
    that returns has the message deleted (or marked) by the transport. *)
Theorem retained_only_by_keep_rule
  (E : Env) (message : Message) (importer : nat) (queues : Queues) (db db' : DB)
  (r : Returned) :
  object_from_message E message importer queues db = (inr r, db') ->
  (acknowledge r = Retain
   <-> snd (sender_of E message) <> ""
       /\ ignore_guard E (ignore_rules db importer) (screened_addresses E message)
          = Some false).
Proof.
  intros Hrun. unfold object_from_message in Hrun.
  destruct (String.eqb_spec (snd (sender_of E message)) "") as [Hs | Hs].
  { inversion Hrun; subst. split; [discriminate | intros [H _]; contradiction]. }
  rewrite bind_run in Hrun. cbn [read_db] in Hrun.
  destruct (ignore_guard E _ _) as [b |].
  { inversion Hrun; subst. destruct b; cbn; split; try discriminate; auto.
    intros [_ H]. discriminate H. }
  assert (Hconsume : acknowledge r = Consume).
  { destruct (is_loop message _ _); rewrite bind_run in Hrun.
    - destruct (heal_loop _ _ _ _ db) as [[e | u] d]; [discriminate Hrun |].
      now inversion Hrun.
    - destruct (create_object_from_email_message _ _ _ _ _ db) as [[e | t] d];
        [discriminate Hrun |]. now inversion Hrun. }
  rewrite Hconsume. split; [discriminate | intros [_ H]; discriminate H].
Qed.

Lemma retained_only_by_keep_rule_witness :
  acknowledge (RBool false) = Retain
  <-> snd (sender_of (Fixture.env false false) Fixture.loop_mail) <> ""
      /\ ignore_guard (Fixture.env false false) (ignore_rules Fixture.ignoring_db 1)
           (screened_addresses (Fixture.env false false) Fixture.loop_mail)
         = Some false.
Proof.
  apply (retained_only_by_keep_rule (Fixture.env false false) Fixture.loop_mail 1
           Fixture.queues Fixture.ignoring_db Fixture.ignoring_db (RBool false)).
  vm_compute. reflexivity.
Defined.

(** *** POP3 *)

Lemma for_each_trace {A : Type} (body : A -> Sync unit)
  (out : A * bool -> list Command) (fail : A -> list Command) :
  (forall x s,
      (exists d s', body x s = (inr tt, s') /\ sent s' = sent s ++ out (x, d))
      \/ (exists e s', body x s = (inl e, s') /\ sent s' = sent s ++ fail x)) ->
  forall l s,
    exists (done : list (A * bool)) (rest : list A),
      l = List.map fst done ++ rest
      /\ sent (snd (for_each l body s))
         = sent s ++ flat_map out done
             ++ match fst (for_each l body s), rest with
                | inl _, x :: _ => fail x
                | _, _ => []
                end
      /\ match fst (for_each l body s) with inr _ => rest = [] | inl _ => rest <> [] end.
Proof.
  intros Hbody. induction l as [| x l IH]; intros s.
  - exists [], []. cbn. rewrite app_nil_r. auto.
  - cbn [for_each]. rewrite sbind_run.
    destruct (Hbody x s) as [(d & s' & -> & Hsent) | (e & s' & -> & Hsent)].
    + destruct (IH s') as (done & rest & Hl & Hrun & Hrest).
      exists ((x, d) :: done), rest. cbn [List.map fst flat_map].
      split; [now rewrite Hl |]. split; [| exact Hrest].
      rewrite Hrun, Hsent, <- !app_assoc. reflexivity.
    + exists [], (x :: l). cbn [List.map flat_map fst snd app].
      split; [reflexivity |]. split; [exact Hsent | discriminate].
Qed.

Lemma pop3_body_run (E : Env) (importer : nat) (queues : Queues) (server : POP3)
  (msg : string) (s : Session) :
  let body :=
    _ <~ send (POP3_retr (first_token msg)) ;;
    ticket <~ lift (object_from_message E (pop3_retr server (first_token msg))
                      importer queues) ;;
    match acknowledge ticket with
    | Consume => if negb DEBUGGING then send (POP3_dele (first_token msg)) else sret tt
    | Retain => sret tt
    end in
  (exists d s', body s = (inr tt, s') /\ sent s' = sent s ++ pop3_exchange (msg, d))
  \/ (exists e s', body s = (inl e, s')
                   /\ sent s' = sent s ++ [POP3_retr (first_token msg)]).
Proof.
  cbv zeta. rewrite sbind_run. cbn [send]. rewrite sbind_run, lift_run.
  cbn [store sent ticks].
  destruct (object_from_message E (pop3_retr server (first_token msg)) importer queues
              (store s)) as [[e | ticket] db1]; cbn [fst snd].
  - right. eexists _, _. split; reflexivity.
  - left. destruct (acknowledge ticket); cbn [DEBUGGING negb send sret sent].
    + exists true. eexists. split; [reflexivity |]. cbn. now rewrite <- app_assoc.
    + exists false. eexists. split; [reflexivity |]. reflexivity.
Qed.

(** X18: a POP3 session takes the messages of the listing in order; each
    one is retrieved, and then deleted or left.  When all were handled
    the session ends with QUIT.  When [object_from_message] raises for a
    message, the exception leaves [pop3_sync] right after the RETR of
    that message: the messages behind it are not read and QUIT is not
    sent. *)
Theorem pop3_session_trace
  (E : Env) (importer : nat) (queues : Queues) (server : POP3) (s : Session) :
  let run := pop3_sync E importer queues server s in
  exists (done : list (string * bool)) (rest : list string),
    pop3_list server = List.map fst done ++ rest
    /\ sent (snd run)
       = sent s ++ flat_map pop3_exchange done
           ++ match fst run, rest with
              | inr _, _ => [POP3_quit]
              | inl _, msg :: _ => [POP3_retr (first_token msg)]
              | inl _, [] => []
              end
    /\ match fst run with inr _ => rest = [] | inl _ => rest <> [] end.
Proof.
  cbv zeta. unfold pop3_sync. rewrite sbind_run.
  match goal with
  | |- context [for_each (pop3_list server) ?b s] =>
      destruct (for_each_trace b pop3_exchange (fun msg => [POP3_retr (first_token msg)])
                  (pop3_body_run E importer queues server) (pop3_list server) s)
        as (done & rest & Hl & Hsent & Hrest);
      destruct (for_each (pop3_list server) b s) as [[e | u] s1]
  end; cbn [fst snd] in *.
  - exists done, rest. auto.
  - exists done, rest. subst rest. cbn [send snd sent fst].
    split; [exact Hl |]. split; [| reflexivity].
    rewrite Hsent, app_nil_r, <- app_assoc. reflexivity.
Qed.

Lemma sbind_preserves {A B : Type} (J : Session -> Prop) (c : Sync A) (k : A -> Sync B) :
  (forall s, J s -> J (snd (c s))) ->
  (forall a s, J s -> J (snd (k a s))) ->
  forall s, J s -> J (snd (sbind c k s)).
Proof.
  intros Hc Hk s HJ. rewrite sbind_run. specialize (Hc s HJ).
  destruct (c s) as [[e | a] s1]; [exact Hc | now apply Hk].
Qed.

(** X19: a message that a keep-in-mailbox rule of the ignore list holds
    back is never deleted from the POP3 server, whatever else the
    mailbox holds and whatever the other messages do to the database. *)
Theorem pop3_leaves_kept_message
  (E : Env) (importer : nat) (queues : Queues) (server : POP3) (s : Session)
  (msg_num : string) :
  let message := pop3_retr server msg_num in
  snd (sender_of E message) <> "" ->
  ignore_guard E (ignore_rules (store s) importer) (screened_addresses E message)
  = Some false ->
  ~ In (POP3_dele msg_num) (sent s) ->
  ~ In (POP3_dele msg_num) (sent (snd (pop3_sync E importer queues server s))).
Proof.
  cbv zeta. intros Hsender Hguard Hsent.
  pose (J := fun s' : Session =>
               ignore_emails (store s') = ignore_emails (store s)
               /\ ~ In (POP3_dele msg_num) (sent s')).
  enough (HJ : J (snd (pop3_sync E importer queues server s))) by exact (proj2 HJ).
  unfold pop3_sync. apply sbind_preserves; [| | split; [reflexivity | exact Hsent]].
  - apply for_each_preserves. intros msg _ s0 [Hrules Hs0].
    rewrite sbind_run. cbn [send]. rewrite sbind_run, lift_run. cbn [store sent ticks].
    pose proof (keeps_object_from_message ignore_emails E
                  (pop3_retr server (first_token msg)) importer queues
                  (fun _ _ => eq_refl) (fun _ _ => eq_refl) (fun _ _ => eq_refl)
                  (fun _ _ => eq_refl) (fun _ _ => eq_refl) (store s0)) as Hkeep.
    assert (Hnew : ~ In (POP3_dele msg_num) (sent s0 ++ [POP3_retr (first_token msg)])).
    { intros Hin. apply in_app_or in Hin as [Hin | [Hin | []]];
        [contradiction | discriminate Hin]. }
    destruct (String.eqb_spec (first_token msg) msg_num) as [Heq | Hother].
    + rewrite Heq in *. rewrite object_from_message_kept; auto.
      * cbn. split; [exact Hrules | exact Hnew].
      * unfold ignore_rules in *. now rewrite Hrules.
    + destruct (object_from_message E (pop3_retr server (first_token msg)) importer
                  queues (store s0)) as [[e' | ticket] db1]; cbn [fst snd] in *.
      * split; [cbn; congruence | exact Hnew].
      * destruct (acknowledge ticket); cbn [DEBUGGING negb send sret snd sent store].
        -- split; [cbn; congruence |]. cbn [sent]. intros Hin.
           apply in_app_or in Hin as [Hin | [Hin | []]]; [contradiction |].
           inversion Hin. contradiction.
        -- split; [cbn; congruence | exact Hnew].
  - intros _ s1 [Hrules Hs1]. split; [exact Hrules |]. cbn [send snd sent].
    intros Hin. apply in_app_or in Hin as [Hin | [Hin | []]];
      [contradiction | discriminate Hin].
Qed.

Lemma pop3_leaves_kept_message_witness :
  ~ In (POP3_dele "1")
      (sent (snd (pop3_sync (Fixture.env false false) 1 Fixture.queues
                    (mkPOP3 ["1 120"; "2 300"]
                       (fun n => if String.eqb n "1" then Fixture.loop_mail
                                 else Fixture.unmatched_mail))
                    (mkSession [] 0 Fixture.ignoring_db)))).
Proof.
  apply (pop3_leaves_kept_message (Fixture.env false false) 1 Fixture.queues
           (mkPOP3 ["1 120"; "2 300"]
              (fun n => if String.eqb n "1" then Fixture.loop_mail
                        else Fixture.unmatched_mail))
           (mkSession [] 0 Fixture.ignoring_db) "1").
  - vm_compute. discriminate.
  - reflexivity.
  - intros [].
Defined.

(** *** IMAP *)



(** *** The scheduler *)

(** X21: an importer that was never checked and whose interval is 30
    minutes or more is not polled as long as the two readings of the
    clock lie no further apart than the interval less 30 minutes: the
    check time assumed for it, 30 minutes before now, is not saved, so
    the row stays as it was and the next run decides the same.  Nothing
    is sent and the database is not touched. *)
Theorem unchecked_importer_is_not_polled
  (E : Env) (net : Net) (importer : Importer) (s : Session) (q : Queue) (n : Z) :
  imp_default_queue importer = Some q ->
  email_box_last_check importer = None ->
  email_box_interval importer = Some n ->
  (clock net (S (ticks s)) - clock net (ticks s) <= minutes (n - 30))%Z ->
  process_email_importer E net importer s
  = (inr importer, mkSession (sent s) (S (S (ticks s))) (store s)).
Proof.
  intros Hq Hcheck Hinterval Hclock. unfold process_email_importer.
  rewrite Hq, Hcheck, Hinterval. cbn [default DEBUGGING negb].
  rewrite !sbind_run. cbn [timezone_now sret]. rewrite sbind_run.
  cbn [timezone_now sret sent ticks store].
  unfold minutes in *. cbv [id].
  destruct (Z.ltb_spec (clock net (ticks s) - 30 * 60000000 + n * 60000000)
              (clock net (S (ticks s)))) as [Hlt | Hge]; [lia | reflexivity].
Qed.

Lemma unchecked_importer_is_not_polled_witness :
  let importer :=
    mkImporter 1 true (Some Fixture.support) [Fixture.support] "pop3" false
      (Some "mail.example.com") None None false None (Some 45%Z) None in
  let net :=
    mkNet (fun _ _ => mkPOP3 ["1 120"] (fun _ => Fixture.unmatched_mail))
      (fun _ _ => mkIMAP4 (fun _ => []) (fun _ => "") (fun _ => Fixture.unmatched_mail))
      (fun _ => []) (fun k => (1000000 * Z.of_nat k)%Z) None false None in
  process_email_importer (Fixture.env false false) net importer
    (mkSession [] 0 Fixture.empty_db)
  = (inr importer, mkSession [] 2 Fixture.empty_db).
Proof.
  apply (unchecked_importer_is_not_polled (Fixture.env false false)
           (mkNet (fun _ _ => mkPOP3 ["1 120"] (fun _ => Fixture.unmatched_mail))
              (fun _ _ => mkIMAP4 (fun _ => []) (fun _ => "")
                            (fun _ => Fixture.unmatched_mail))
              (fun _ => []) (fun k => (1000000 * Z.of_nat k)%Z) None false None)
           (mkImporter 1 true (Some Fixture.support) [Fixture.support] "pop3" false
              (Some "mail.example.com") None None false None (Some 45%Z) None)
           (mkSession [] 0 Fixture.empty_db) Fixture.support 45%Z).
  - reflexivity.
  - reflexivity.
  - reflexivity.
  - vm_compute. discriminate.
Defined.

(** *** The local directory *)


(** *** The importers *)

(** X23: importers that do not allow imports, and importers without a
    default queue, are passed over: a run of [process_email] over such
    importers only sends nothing, does not read the clock, and leaves
    the database and the rows of the importers as they are. *)
Theorem idle_importers_are_passed_over
  (E : Env) (net : Net) (importers : list Importer) (s : Session) :
  Forall (fun i => allow_email_imports i = false \/ imp_default_queue i = None) importers ->
  process_email E net importers s = (inr importers, s).
Proof.
  intros Hidle. induction Hidle as [| i l Hi _ IH]; [reflexivity |].
  cbn [process_email]. destruct (allow_email_imports i) eqn:Hallow.
  - destruct Hi as [Hi | Hi]; [discriminate Hi |].
    rewrite sbind_run. unfold process_email_importer. rewrite Hi. cbn [sret].
    rewrite sbind_run, IH. reflexivity.
  - rewrite sbind_run, IH. reflexivity.
Qed.

Lemma idle_importers_are_passed_over_witness :
  let disabled :=
    mkImporter 1 false (Some Fixture.support) [Fixture.support] "pop3" false
      (Some "mail.example.com") None None false None None None in
  let queueless :=
    mkImporter 2 true None [Fixture.support] "imap" true
      (Some "mail.example.com") None None true None None None in
  let net :=
    mkNet (fun _ _ => mkPOP3 ["1 120"] (fun _ => Fixture.unmatched_mail))
      (fun _ _ => mkIMAP4 (fun _ => ["1"]) (fun _ => "1 (UID 7)")
                    (fun _ => Fixture.unmatched_mail))
      (fun _ => []) (fun k => Z.of_nat k) None false None in
  process_email (Fixture.env false false) net [disabled; queueless]
    (mkSession [] 0 Fixture.empty_db)
  = (inr [disabled; queueless], mkSession [] 0 Fixture.empty_db).
Proof.
  apply (idle_importers_are_passed_over (Fixture.env false false)
           (mkNet (fun _ _ => mkPOP3 ["1 120"] (fun _ => Fixture.unmatched_mail))
              (fun _ _ => mkIMAP4 (fun _ => ["1"]) (fun _ => "1 (UID 7)")
                            (fun _ => Fixture.unmatched_mail))
              (fun _ => []) (fun k => Z.of_nat k) None false None)
           [mkImporter 1 false (Some Fixture.support) [Fixture.support] "pop3" false
              (Some "mail.example.com") None None false None None None;
            mkImporter 2 true None [Fixture.support] "imap" true
              (Some "mail.example.com") None None true None None None]
           (mkSession [] 0 Fixture.empty_db)).
  constructor; [left; reflexivity |].
  constructor; [right; reflexivity | constructor].
Defined.
